(** * Shallow embedding of the strike wallet configuration model

    Embeds [src/src/model/wallet.rs] and [src/src/model/balance_account.rs]:
    the [Wallet] aggregate, its in-place mutators (written in a small
    state-and-error monad over [Wallet]), the clone-based validators, the
    initiator checks, and the packed byte layouts of [BalanceAccount] and
    [Wallet].

    Bytes are [Z] values (in [0, 256) for well-formed data), fixed-size byte
    arrays are lists of such bytes, [u8] and [u64] are [Z], and a [Duration]
    is its number of whole seconds (every [Duration] of the program is built
    with [Duration::from_secs]). *)

From Stdlib Require Import Relations RelationClasses.
From Stdlib Require Import List ZArith Lia Bool Arith.
Import ListNotations.
Open Scope Z_scope.

(* ------------------------------------------------------------------------- *)
(** ** Errors and results *)

Inductive WalletError :=
| InvalidSignature
| InvalidApprovalTimeout
| ConcurrentOperationsNotAllowed
| BalanceAccountNotFound.

Inductive ProgramError :=
| InvalidArgument
| InvalidAccountData
| Custom (e : WalletError).

Inductive Result (A : Type) :=
| Ok (a : A)
| Err (e : ProgramError).
Arguments Ok {A} a.
Arguments Err {A} e.

Definition ProgramResult := Result unit.

Definition is_ok {A} (r : Result A) : bool :=
  match r with Ok _ => true | Err _ => false end.

(* ------------------------------------------------------------------------- *)
(** ** Primitive data *)

Definition byte := Z.
Definition Pubkey := list byte.            (* [u8; 32] *)
Definition Duration := Z.                  (* whole seconds *)

Definition zero_bytes (n : nat) : list byte := repeat 0 n.

Definition byte_ok (b : Z) : bool := (0 <=? b) && (b <? 256).
Definition bytes_ok (l : list Z) : bool := forallb byte_ok l.

(** Decidable equality, used for the [==] comparisons of the source. *)
Class DecEq (T : Type) := dec_eq : forall x y : T, {x = y} + {x <> y}.

Definition eqb_of {T} `{DecEq T} (x y : T) : bool :=
  if dec_eq x y then true else false.

#[global] Instance DecEq_Z : DecEq Z := Z.eq_dec.
#[global] Instance DecEq_list {T} `{DecEq T} : DecEq (list T) :=
  list_eq_dec dec_eq.
#[global] Instance DecEq_option {T} `{DecEq T} : DecEq (option T).
Proof. intros x y. decide equality; apply dec_eq. Defined.

(** [model/signer.rs]: a signer is its public key. *)
Record Signer := mkSigner { key : Pubkey }.

#[global] Instance DecEq_Signer : DecEq Signer.
Proof. intros [a] [b]. destruct (dec_eq a b); [left | right]; congruence. Defined.

(** [model/address_book.rs]: an address-book entry. *)
Record AddressBookEntry := mkAddressBookEntry {
  address : Pubkey;
  entry_name_hash : list byte
}.

#[global] Instance DecEq_AddressBookEntry : DecEq AddressBookEntry.
Proof.
  intros [a n] [b m].
  destruct (dec_eq a b), (dec_eq n m); [left | right | right | right]; congruence.
Defined.

(** [model/multisig_op.rs]: [BooleanSetting]. *)
Inductive BooleanSetting := Off | On.

(** Modelled from the spec: [BooleanSetting::to_u8] and
    [BooleanSetting::from_u8] (model/multisig_op.rs is not among the
    sources); the spec's layout reads a set bit as "enabled". *)
Definition BooleanSetting_to_u8 (b : BooleanSetting) : Z :=
  match b with Off => 0 | On => 1 end.
Definition BooleanSetting_from_u8 (v : Z) : BooleanSetting :=
  if v =? 0 then Off else On.

(* ------------------------------------------------------------------------- *)
(** ** Slot Store and Slot Flag Set ([utils.rs])

    Modelled from the spec: [Slots] and [SlotFlags] of [utils.rs], which is
    not among the sources. A [Slots T N] is an array of [N] optional values
    addressed by [SlotId]; a [SlotFlags] is its bit set, stored as the
    [STORAGE_SIZE] bytes it packs to, bit [id mod 8] of byte [id / 8]
    standing for slot [id]. Batches are checked as a whole ([can_be_*],
    [contains]) and then applied slot by slot. *)

Definition SlotId := nat.
Definition Slots (T : Type) := list (option T).
Definition SlotFlags := list byte.

Definition slot_get {T} (s : Slots T) (id : SlotId) : option T :=
  match nth_error s id with Some x => x | None => None end.

Fixpoint replace_nth {A} (l : list A) (n : nat) (x : A) : list A :=
  match l, n with
  | [], _ => []
  | _ :: t, O => x :: t
  | h :: t, S n' => h :: replace_nth t n' x
  end.

Fixpoint update_nth {A} (l : list A) (n : nat) (f : A -> A) : list A :=
  match l, n with
  | [], _ => []
  | h :: t, O => f h :: t
  | h :: t, S n' => h :: update_nth t n' f
  end.

Definition slot_ids {T} (batch : list (SlotId * T)) : list SlotId := map fst batch.

Section SlotStore.
Context {T : Type} `{DecEq T}.

Definition slot_is_empty (s : Slots T) (id : SlotId) : bool :=
  (id <? length s)%nat && match slot_get s id with None => true | Some _ => false end.

Definition slot_holds (s : Slots T) (id : SlotId) (v : T) : bool :=
  eqb_of (slot_get s id) (Some v).

Definition can_be_inserted (s : Slots T) (batch : list (SlotId * T)) : bool :=
  forallb (fun p => slot_is_empty s (fst p)) batch.

Definition insert_many (s : Slots T) (batch : list (SlotId * T)) : Slots T :=
  fold_left (fun acc p => replace_nth acc (fst p) (Some (snd p))) batch s.

Definition can_be_removed (s : Slots T) (batch : list (SlotId * T)) : bool :=
  forallb (fun p => slot_holds s (fst p) (snd p)) batch.

Definition remove_many (s : Slots T) (batch : list (SlotId * T)) : Slots T :=
  fold_left (fun acc p => replace_nth acc (fst p) None) batch s.

Definition contains (s : Slots T) (batch : list (SlotId * T)) : bool :=
  forallb (fun p => slot_holds s (fst p) (snd p)) batch.
End SlotStore.

Definition is_enabled (f : SlotFlags) (id : SlotId) : bool :=
  Z.testbit (nth (id / 8) f 0) (Z.of_nat (id mod 8)).

Definition flag_capacity (f : SlotFlags) : nat := 8 * length f.

Definition iter_enabled (f : SlotFlags) : list SlotId :=
  filter (is_enabled f) (seq 0 (flag_capacity f)).

Definition count_enabled (f : SlotFlags) : nat := length (iter_enabled f).

Definition any_enabled (f : SlotFlags) (ids : list SlotId) : bool :=
  existsb (is_enabled f) ids.

Definition enable (f : SlotFlags) (id : SlotId) : SlotFlags :=
  update_nth f (id / 8) (fun b => Z.setbit b (Z.of_nat (id mod 8))).

Definition disable (f : SlotFlags) (id : SlotId) : SlotFlags :=
  update_nth f (id / 8) (fun b => Z.clearbit b (Z.of_nat (id mod 8))).

Definition enable_many (f : SlotFlags) (ids : list SlotId) : SlotFlags :=
  fold_left enable ids f.

(** [SlotFlags::zero()] for the signer ([Approvers], 24 slots, 3 bytes) and
    address-book ([AllowedDestinations], 128 slots, 16 bytes) spaces. *)
Definition APPROVERS_STORAGE_SIZE : nat := 3.
Definition ALLOWED_DESTINATIONS_STORAGE_SIZE : nat := 16.

(* ------------------------------------------------------------------------- *)
(** ** The configuration aggregate ([balance_account.rs], [wallet.rs]) *)

Record BalanceAccount := mkBalanceAccount {
  guid_hash : list byte;                    (* [u8; 32] *)
  name_hash : list byte;                    (* [u8; 32] *)
  approvals_required_for_transfer : Z;      (* u8 *)
  approval_timeout_for_transfer : Duration;
  transfer_approvers : SlotFlags;
  allowed_destinations : SlotFlags;
  whitelist_enabled : BooleanSetting;
  dapps_enabled : BooleanSetting;
  policy_update_locked : bool
}.

Record Wallet := mkWallet {
  is_initialized : bool;
  signers : Slots Signer;                   (* 24 slots *)
  assistant : Signer;
  address_book : Slots AddressBookEntry;    (* 128 slots *)
  approvals_required_for_config : Z;        (* u8 *)
  approval_timeout_for_config : Duration;
  config_approvers : SlotFlags;
  balance_accounts : list BalanceAccount;
  config_policy_update_locked : bool
}.

Definition MAX_BALANCE_ACCOUNTS : nat := 10.
Definition MAX_SIGNERS : nat := 24.
Definition MAX_ADDRESS_BOOK_ENTRIES : nat := 128.
Definition MIN_APPROVAL_TIMEOUT : Duration := 60.
Definition MAX_APPROVAL_TIMEOUT : Duration := 60 * 60 * 24 * 365.

(** Field writes of the mutators ([self.field = ...]). *)
Definition set_approvals_required_for_config (v : Z) (w : Wallet) : Wallet :=
  mkWallet w.(is_initialized) w.(signers) w.(assistant) w.(address_book) v
    w.(approval_timeout_for_config) w.(config_approvers) w.(balance_accounts)
    w.(config_policy_update_locked).
Definition set_approval_timeout_for_config (v : Duration) (w : Wallet) : Wallet :=
  mkWallet w.(is_initialized) w.(signers) w.(assistant) w.(address_book)
    w.(approvals_required_for_config) v w.(config_approvers) w.(balance_accounts)
    w.(config_policy_update_locked).
Definition set_signers (v : Slots Signer) (w : Wallet) : Wallet :=
  mkWallet w.(is_initialized) v w.(assistant) w.(address_book)
    w.(approvals_required_for_config) w.(approval_timeout_for_config)
    w.(config_approvers) w.(balance_accounts) w.(config_policy_update_locked).
Definition set_address_book (v : Slots AddressBookEntry) (w : Wallet) : Wallet :=
  mkWallet w.(is_initialized) w.(signers) w.(assistant) v
    w.(approvals_required_for_config) w.(approval_timeout_for_config)
    w.(config_approvers) w.(balance_accounts) w.(config_policy_update_locked).
Definition set_config_approvers (v : SlotFlags) (w : Wallet) : Wallet :=
  mkWallet w.(is_initialized) w.(signers) w.(assistant) w.(address_book)
    w.(approvals_required_for_config) w.(approval_timeout_for_config)
    v w.(balance_accounts) w.(config_policy_update_locked).
Definition set_balance_accounts (v : list BalanceAccount) (w : Wallet) : Wallet :=
  mkWallet w.(is_initialized) w.(signers) w.(assistant) w.(address_book)
    w.(approvals_required_for_config) w.(approval_timeout_for_config)
    w.(config_approvers) v w.(config_policy_update_locked).
Definition set_config_policy_update_locked (v : bool) (w : Wallet) : Wallet :=
  mkWallet w.(is_initialized) w.(signers) w.(assistant) w.(address_book)
    w.(approvals_required_for_config) w.(approval_timeout_for_config)
    w.(config_approvers) w.(balance_accounts) v.

Definition set_name_hash (v : list byte) (b : BalanceAccount) : BalanceAccount :=
  mkBalanceAccount b.(guid_hash) v b.(approvals_required_for_transfer)
    b.(approval_timeout_for_transfer) b.(transfer_approvers) b.(allowed_destinations)
    b.(whitelist_enabled) b.(dapps_enabled) b.(policy_update_locked).
Definition set_approvals_required_for_transfer (v : Z) (b : BalanceAccount) : BalanceAccount :=
  mkBalanceAccount b.(guid_hash) b.(name_hash) v
    b.(approval_timeout_for_transfer) b.(transfer_approvers) b.(allowed_destinations)
    b.(whitelist_enabled) b.(dapps_enabled) b.(policy_update_locked).
Definition set_approval_timeout_for_transfer (v : Duration) (b : BalanceAccount) : BalanceAccount :=
  mkBalanceAccount b.(guid_hash) b.(name_hash) b.(approvals_required_for_transfer)
    v b.(transfer_approvers) b.(allowed_destinations)
    b.(whitelist_enabled) b.(dapps_enabled) b.(policy_update_locked).
Definition set_transfer_approvers (v : SlotFlags) (b : BalanceAccount) : BalanceAccount :=
  mkBalanceAccount b.(guid_hash) b.(name_hash) b.(approvals_required_for_transfer)
    b.(approval_timeout_for_transfer) v b.(allowed_destinations)
    b.(whitelist_enabled) b.(dapps_enabled) b.(policy_update_locked).
Definition set_allowed_destinations (v : SlotFlags) (b : BalanceAccount) : BalanceAccount :=
  mkBalanceAccount b.(guid_hash) b.(name_hash) b.(approvals_required_for_transfer)
    b.(approval_timeout_for_transfer) b.(transfer_approvers) v
    b.(whitelist_enabled) b.(dapps_enabled) b.(policy_update_locked).

(** Instruction arguments ([instruction.rs]); field names carry a prefix
    because Rocq projections share one name space. *)
Record WalletUpdate := mkWalletUpdate {
  wu_approvals_required_for_config : Z;
  wu_approval_timeout_for_config : Duration;
  wu_add_signers : list (SlotId * Signer);
  wu_remove_signers : list (SlotId * Signer);
  wu_add_config_approvers : list (SlotId * Signer);
  wu_remove_config_approvers : list (SlotId * Signer);
  wu_add_address_book_entries : list (SlotId * AddressBookEntry);
  wu_remove_address_book_entries : list (SlotId * AddressBookEntry)
}.

Record WalletConfigPolicyUpdate := mkWalletConfigPolicyUpdate {
  cpu_approvals_required_for_config : Z;
  cpu_approval_timeout_for_config : Duration;
  cpu_add_config_approvers : list (SlotId * Signer);
  cpu_remove_config_approvers : list (SlotId * Signer)
}.

Record BalanceAccountUpdate := mkBalanceAccountUpdate {
  bau_name_hash : list byte;
  bau_approvals_required_for_transfer : Z;
  bau_approval_timeout_for_transfer : Duration;
  bau_add_transfer_approvers : list (SlotId * Signer);
  bau_remove_transfer_approvers : list (SlotId * Signer);
  bau_add_allowed_destinations : list (SlotId * AddressBookEntry);
  bau_remove_allowed_destinations : list (SlotId * AddressBookEntry)
}.

(** [solana_program::account_info::AccountInfo], the parts read here. *)
Record AccountInfo := mkAccountInfo {
  ai_key : Pubkey;
  ai_is_signer : bool
}.

(* ------------------------------------------------------------------------- *)
(** ** A state-and-error monad for [&mut self] methods returning
    [ProgramResult]: [?] returns early and keeps the writes made so far. *)

Definition M (A : Type) : Type := Wallet -> Result A * Wallet.

Definition ret {A} (a : A) : M A := fun w => (Ok a, w).
Definition fail {A} (e : ProgramError) : M A := fun w => (Err e, w).
Definition get : M Wallet := fun w => (Ok w, w).
Definition put (w' : Wallet) : M unit := fun _ => (Ok tt, w').
Definition modify (f : Wallet -> Wallet) : M unit := fun w => (Ok tt, f w).
Definition lift {A} (r : Result A) : M A := fun w => (r, w).

Definition bind {A B} (m : M A) (k : A -> M B) : M B :=
  fun w => match m w with
           | (Ok a, w') => k a w'
           | (Err e, w') => (Err e, w')
           end.

Declare Scope monad_scope.
Notation "x <- m ;; k" := (bind m (fun x => k))
  (at level 61, m at next level, right associativity) : monad_scope.
Notation "m ;; k" := (bind m (fun _ => k))
  (at level 61, right associativity) : monad_scope.
Open Scope monad_scope.

(* ------------------------------------------------------------------------- *)
(** ** Read-only methods ([&self]) *)

Fixpoint filter_map {A B} (f : A -> option B) (l : list A) : list B :=
  match l with
  | [] => []
  | x :: t => match f x with Some y => y :: filter_map f t | None => filter_map f t end
  end.

Definition get_approvers_keys (w : Wallet) (approvers : SlotFlags) : list Pubkey :=
  filter_map (fun r => option_map key (slot_get w.(signers) r)) (iter_enabled approvers).

Definition get_config_approvers_keys (w : Wallet) : list Pubkey :=
  get_approvers_keys w w.(config_approvers).

Definition get_transfer_approvers_keys (w : Wallet) (ba : BalanceAccount) : list Pubkey :=
  get_approvers_keys w ba.(transfer_approvers).

Fixpoint position_guid (l : list BalanceAccount) (g : list byte) : option nat :=
  match l with
  | [] => None
  | it :: t =>
      if eqb_of it.(guid_hash) g then Some O
      else option_map S (position_guid t g)
  end.

Definition get_balance_account_index (w : Wallet) (account_guid_hash : list byte)
  : Result nat :=
  match position_guid w.(balance_accounts) account_guid_hash with
  | Some i => Ok i
  | None => Err (Custom BalanceAccountNotFound)
  end.

Definition validate_initiator (w : Wallet) (initiator : AccountInfo)
  (get_approvers : unit -> list Pubkey) : ProgramResult :=
  if negb initiator.(ai_is_signer) then Err (Custom InvalidSignature)
  else if eqb_of initiator.(ai_key) w.(assistant).(key)
          || existsb (eqb_of initiator.(ai_key)) (get_approvers tt)
  then Ok tt
  else Err InvalidArgument.

Definition validate_config_initiator (w : Wallet) (initiator : AccountInfo) : ProgramResult :=
  validate_initiator w initiator (fun _ => get_config_approvers_keys w).

Definition validate_transfer_initiator (w : Wallet) (ba : BalanceAccount)
  (initiator : AccountInfo) : ProgramResult :=
  validate_initiator w initiator (fun _ => get_transfer_approvers_keys w ba).

Definition validate_approval_timeout (timeout : Duration) : ProgramResult :=
  if timeout <? MIN_APPROVAL_TIMEOUT then Err (Custom InvalidApprovalTimeout)
  else if timeout >? MAX_APPROVAL_TIMEOUT then Err (Custom InvalidApprovalTimeout)
  else Ok tt.

(* ------------------------------------------------------------------------- *)
(** ** Private mutators ([&mut self]) *)

Definition add_signers (signers_to_add : list (SlotId * Signer)) : M unit :=
  w <- get ;;
  if negb (can_be_inserted w.(signers) signers_to_add) then fail InvalidArgument
  else put (set_signers (insert_many w.(signers) signers_to_add) w).

Definition remove_signers (signers_to_remove : list (SlotId * Signer)) : M unit :=
  w <- get ;;
  if negb (can_be_removed w.(signers) signers_to_remove) then fail InvalidArgument
  else
    let ids := slot_ids signers_to_remove in
    if any_enabled w.(config_approvers) ids then fail InvalidArgument
    (* the [for balance_account in &self.balance_accounts] early return *)
    else if existsb (fun ba => any_enabled ba.(transfer_approvers) ids) w.(balance_accounts)
    then fail InvalidArgument
    else put (set_signers (remove_many w.(signers) signers_to_remove) w).

Definition add_address_book_entries (entries_to_add : list (SlotId * AddressBookEntry))
  : M unit :=
  w <- get ;;
  if negb (can_be_inserted w.(address_book) entries_to_add) then fail InvalidArgument
  else put (set_address_book (insert_many w.(address_book) entries_to_add) w).

Definition remove_address_book_entries
  (entries_to_remove : list (SlotId * AddressBookEntry)) : M unit :=
  w <- get ;;
  if negb (can_be_removed w.(address_book) entries_to_remove) then fail InvalidArgument
  else
    let ids := slot_ids entries_to_remove in
    if existsb (fun ba => any_enabled ba.(allowed_destinations) ids) w.(balance_accounts)
    then fail InvalidArgument
    else put (set_address_book (remove_many w.(address_book) entries_to_remove) w).

Definition enable_config_approvers (approvers : list (SlotId * Signer)) : M unit :=
  w <- get ;;
  if negb (contains w.(signers) approvers) then fail InvalidArgument
  else put (set_config_approvers (enable_many w.(config_approvers) (slot_ids approvers)) w).

(** The slot test of the disable loops: the slot holds the given value or
    is empty. *)
Definition slot_matches_or_empty {T} `{DecEq T} (s : Slots T) (id : SlotId) (v : T) : bool :=
  eqb_of (slot_get s id) (Some v) || eqb_of (slot_get s id) None.

Fixpoint disable_config_approvers (approvers : list (SlotId * Signer)) : M unit :=
  match approvers with
  | [] => ret tt
  | (id, signer) :: rest =>
      w <- get ;;
      if slot_matches_or_empty w.(signers) id signer then
        put (set_config_approvers (disable w.(config_approvers) id) w) ;;
        disable_config_approvers rest
      else fail InvalidArgument
  end.

Definition modify_balance_account (idx : nat) (f : BalanceAccount -> BalanceAccount)
  : M unit :=
  modify (fun w => set_balance_accounts (update_nth w.(balance_accounts) idx f) w).

Definition enable_transfer_approvers (idx : nat) (approvers : list (SlotId * Signer))
  : M unit :=
  w <- get ;;
  if negb (contains w.(signers) approvers) then fail InvalidArgument
  else modify_balance_account idx (fun ba =>
         set_transfer_approvers (enable_many ba.(transfer_approvers) (slot_ids approvers)) ba).

Fixpoint disable_transfer_approvers (idx : nat) (approvers : list (SlotId * Signer))
  : M unit :=
  match approvers with
  | [] => ret tt
  | (id, signer) :: rest =>
      w <- get ;;
      if slot_matches_or_empty w.(signers) id signer then
        modify_balance_account idx (fun ba =>
          set_transfer_approvers (disable ba.(transfer_approvers) id) ba) ;;
        disable_transfer_approvers idx rest
      else fail InvalidArgument
  end.

Definition enable_transfer_destinations (idx : nat)
  (destinations : list (SlotId * AddressBookEntry)) : M unit :=
  w <- get ;;
  if negb (contains w.(address_book) destinations) then fail InvalidArgument
  else modify_balance_account idx (fun ba =>
         set_allowed_destinations
           (enable_many ba.(allowed_destinations) (slot_ids destinations)) ba).

Fixpoint disable_transfer_destinations (idx : nat)
  (destinations : list (SlotId * AddressBookEntry)) : M unit :=
  match destinations with
  | [] => ret tt
  | (id, entry) :: rest =>
      w <- get ;;
      if slot_matches_or_empty w.(address_book) id entry then
        modify_balance_account idx (fun ba =>
          set_allowed_destinations (disable ba.(allowed_destinations) id) ba) ;;
        disable_transfer_destinations idx rest
      else fail InvalidArgument
  end.

(* ------------------------------------------------------------------------- *)
(** ** Public mutators and their clone-based validators *)

Definition update (u : WalletUpdate) : M unit :=
  modify (set_approvals_required_for_config u.(wu_approvals_required_for_config)) ;;
  (* A timeout of 0 means that the existing value should not be updated. *)
  (if 0 <? u.(wu_approval_timeout_for_config)
   then modify (set_approval_timeout_for_config u.(wu_approval_timeout_for_config))
   else ret tt) ;;
  disable_config_approvers u.(wu_remove_config_approvers) ;;
  remove_signers u.(wu_remove_signers) ;;
  add_signers u.(wu_add_signers) ;;
  enable_config_approvers u.(wu_add_config_approvers) ;;
  remove_address_book_entries u.(wu_remove_address_book_entries) ;;
  add_address_book_entries u.(wu_add_address_book_entries) ;;
  w <- get ;;
  let approvers_count_after_update := count_enabled w.(config_approvers) in
  if u.(wu_approvals_required_for_config) >? Z.of_nat approvers_count_after_update
  then fail InvalidArgument
  else
    lift (validate_approval_timeout w.(approval_timeout_for_config)) ;;
    if w.(approvals_required_for_config) =? 0 then fail InvalidArgument
    else if (count_enabled w.(config_approvers) =? 0)%nat then fail InvalidArgument
    else ret tt.

Definition lock_config_policy_updates : M unit :=
  w <- get ;;
  if w.(config_policy_update_locked) then fail (Custom ConcurrentOperationsNotAllowed)
  else put (set_config_policy_update_locked true w).

Definition unlock_config_policy_updates : M unit :=
  modify (set_config_policy_update_locked false).

Definition update_config_policy (u : WalletConfigPolicyUpdate) : M unit :=
  modify (set_approvals_required_for_config u.(cpu_approvals_required_for_config)) ;;
  (if 0 <? u.(cpu_approval_timeout_for_config)
   then modify (set_approval_timeout_for_config u.(cpu_approval_timeout_for_config))
   else ret tt) ;;
  disable_config_approvers u.(cpu_remove_config_approvers) ;;
  enable_config_approvers u.(cpu_add_config_approvers) ;;
  w <- get ;;
  if w.(approvals_required_for_config) =? 0 then fail InvalidArgument
  else if w.(approval_timeout_for_config) =? 0 then fail InvalidArgument
  else
    let approvers_count := count_enabled w.(config_approvers) in
    if u.(cpu_approvals_required_for_config) >? Z.of_nat approvers_count
    then fail InvalidArgument
    else ret tt.

Definition update_balance_account (account_guid_hash : list byte)
  (u : BalanceAccountUpdate) : M unit :=
  w <- get ;;
  balance_account_idx <- lift (get_balance_account_index w account_guid_hash) ;;
  let perform_timeout_update := 0 <? u.(bau_approval_timeout_for_transfer) in
  (if perform_timeout_update
   then lift (validate_approval_timeout u.(bau_approval_timeout_for_transfer))
   else ret tt) ;;
  disable_transfer_approvers balance_account_idx u.(bau_remove_transfer_approvers) ;;
  enable_transfer_approvers balance_account_idx u.(bau_add_transfer_approvers) ;;
  disable_transfer_destinations balance_account_idx u.(bau_remove_allowed_destinations) ;;
  enable_transfer_destinations balance_account_idx u.(bau_add_allowed_destinations) ;;
  modify_balance_account balance_account_idx (fun ba =>
    let ba := set_name_hash u.(bau_name_hash) ba in
    let ba := set_approvals_required_for_transfer u.(bau_approvals_required_for_transfer) ba in
    if perform_timeout_update
    then set_approval_timeout_for_transfer u.(bau_approval_timeout_for_transfer) ba
    else ba) ;;
  w <- get ;;
  match nth_error w.(balance_accounts) balance_account_idx with
  | None => fail InvalidArgument  (* unreachable: the index comes from [position] *)
  | Some balance_account =>
      let approvers_count_after_update :=
        count_enabled balance_account.(transfer_approvers) in
      if u.(bau_approvals_required_for_transfer) >? Z.of_nat approvers_count_after_update
      then fail InvalidArgument
      else if balance_account.(approvals_required_for_transfer) =? 0 then fail InvalidArgument
      else if (count_enabled balance_account.(transfer_approvers) =? 0)%nat
      then fail InvalidArgument
      else ret tt
  end.

(** The struct literal of [add_balance_account] in [wallet.rs] predates the
    [whitelist_enabled], [dapps_enabled] and [policy_update_locked] fields;
    they get their zero values here. *)
Definition new_balance_account (account_guid_hash : list byte) : BalanceAccount :=
  mkBalanceAccount account_guid_hash (zero_bytes 32) 0 0
    (zero_bytes APPROVERS_STORAGE_SIZE) (zero_bytes ALLOWED_DESTINATIONS_STORAGE_SIZE)
    Off Off false.

Definition add_balance_account (account_guid_hash : list byte)
  (u : BalanceAccountUpdate) : M unit :=
  modify (fun w => set_balance_accounts
                     (w.(balance_accounts) ++ [new_balance_account account_guid_hash]) w) ;;
  update_balance_account account_guid_hash u.

(** The validators: [let mut self_clone = self.clone(); self_clone.op(..)].
    They take [&self], so the receiver is handed back as it was. *)
Definition on_clone (op : M unit) : M unit :=
  fun w => let self_clone := w in (fst (op self_clone), w).

Definition validate_update (u : WalletUpdate) : M unit := on_clone (update u).
Definition validate_config_policy_update (u : WalletConfigPolicyUpdate) : M unit :=
  on_clone (update_config_policy u).
Definition validate_balance_account_update (g : list byte) (u : BalanceAccountUpdate)
  : M unit := on_clone (update_balance_account g u).
Definition validate_add_balance_account (g : list byte) (u : BalanceAccountUpdate)
  : M unit := on_clone (add_balance_account g u).
Definition validate_remove_signer (s : SlotId * Signer) : M unit :=
  on_clone (remove_signers [s]).
Definition remove_signer (s : SlotId * Signer) : M unit := remove_signers [s].
Definition validate_add_signer (s : SlotId * Signer) : M unit :=
  on_clone (add_signers [s]).
Definition add_signer (s : SlotId * Signer) : M unit := add_signers [s].

(** [Wallet::get_balance_account]: [&self.balance_accounts[i]] at the index
    [get_balance_account_index] returns; indexing out of range would panic
    ([None]). *)
Definition get_balance_account (w : Wallet) (account_guid_hash : list byte)
  : option (Result BalanceAccount) :=
  match get_balance_account_index w account_guid_hash with
  | Err e => Some (Err e)
  | Ok i => option_map Ok (nth_error w.(balance_accounts) i)
  end.

(** [Wallet::get_allowed_destinations]. *)
Definition get_allowed_destinations (w : Wallet) (ba : BalanceAccount)
  : list AddressBookEntry :=
  filter_map (fun r => slot_get w.(address_book) r) (iter_enabled ba.(allowed_destinations)).

(** [BalanceAccount::is_whitelist_disabled], [are_dapps_disabled] and
    [has_whitelisted_destinations]. *)
Definition is_whitelist_disabled (b : BalanceAccount) : bool :=
  match b.(whitelist_enabled) with Off => true | On => false end.
Definition are_dapps_disabled (b : BalanceAccount) : bool :=
  match b.(dapps_enabled) with Off => true | On => false end.
Definition has_whitelisted_destinations (b : BalanceAccount) : bool :=
  (0 <? count_enabled b.(allowed_destinations))%nat.

(* ------------------------------------------------------------------------- *)
(** ** Packed layouts ([impl Pack])

    [array_refs!] and [mut_array_refs!] cut a fixed-size array into
    consecutive pieces; [split_at] is one such cut. *)

Definition split_at {A} (n : nat) (l : list A) : list A * list A := (firstn n l, skipn n l).

Fixpoint to_le_bytes (n : nat) (x : Z) : list byte :=
  match n with
  | O => []
  | S n' => (x mod 256) :: to_le_bytes n' (x / 256)
  end.

Fixpoint from_le_bytes (l : list byte) : Z :=
  match l with
  | [] => 0
  | b :: t => b + 256 * from_le_bytes t
  end.

Definition u64_to_le_bytes (x : Z) : list byte := to_le_bytes 8 x.
Definition u64_from_le_bytes (l : list byte) : Z := from_le_bytes l.

Definition GUID_HASH_BYTES : nat := 32.
Definition NAME_HASH_BYTES : nat := 32.
Definition WHITELIST_SETTING_BIT : Z := 0.
Definition DAPPS_SETTING_BIT : Z := 1.

Definition BalanceAccount_LEN : nat :=
  GUID_HASH_BYTES + NAME_HASH_BYTES + 1 + 8
  + APPROVERS_STORAGE_SIZE + ALLOWED_DESTINATIONS_STORAGE_SIZE + 1 + 1.

(** [pack_into_slice] on the [BalanceAccount::LEN] bytes of [dst]: every
    piece is overwritten except the boolean-settings byte, which is or-ed
    into ([|=]). *)
Definition BalanceAccount_pack_chunk (b : BalanceAccount) (dst : list byte) : list byte :=
  let '(_, r) := split_at GUID_HASH_BYTES dst in
  let '(_, r) := split_at NAME_HASH_BYTES r in
  let '(_, r) := split_at 1 r in
  let '(_, r) := split_at 8 r in
  let '(_, r) := split_at APPROVERS_STORAGE_SIZE r in
  let '(_, r) := split_at ALLOWED_DESTINATIONS_STORAGE_SIZE r in
  let '(boolean_settings_dst, _) := split_at 1 r in
  let boolean_settings :=
    Z.lor (Z.lor (hd 0 boolean_settings_dst)
                 (Z.shiftl (BooleanSetting_to_u8 b.(whitelist_enabled)) WHITELIST_SETTING_BIT))
          (Z.shiftl (BooleanSetting_to_u8 b.(dapps_enabled)) DAPPS_SETTING_BIT) in
  b.(guid_hash) ++ b.(name_hash) ++ [b.(approvals_required_for_transfer)]
  ++ u64_to_le_bytes b.(approval_timeout_for_transfer)
  ++ b.(transfer_approvers) ++ b.(allowed_destinations)
  ++ [boolean_settings] ++ [if b.(policy_update_locked) then 1 else 0].

(** [array_mut_ref!] panics ([None]) on a slice shorter than [LEN]; bytes
    past [LEN] are left alone. *)
Definition BalanceAccount_pack_into_slice (b : BalanceAccount) (dst : list byte)
  : option (list byte) :=
  if (length dst <? BalanceAccount_LEN)%nat then None
  else Some (BalanceAccount_pack_chunk b (firstn BalanceAccount_LEN dst)
             ++ skipn BalanceAccount_LEN dst).

Definition BalanceAccount_unpack_chunk (src : list byte) : BalanceAccount :=
  let '(guid_hash_src, r) := split_at GUID_HASH_BYTES src in
  let '(name_hash_src, r) := split_at NAME_HASH_BYTES r in
  let '(approvals_required_for_transfer_src, r) := split_at 1 r in
  let '(approval_timeout_for_transfer_src, r) := split_at 8 r in
  let '(approvers_src, r) := split_at APPROVERS_STORAGE_SIZE r in
  let '(allowed_destinations_src, r) := split_at ALLOWED_DESTINATIONS_STORAGE_SIZE r in
  let '(boolean_settings_src, policy_update_locked_src) := split_at 1 r in
  mkBalanceAccount guid_hash_src name_hash_src
    (hd 0 approvals_required_for_transfer_src)
    (u64_from_le_bytes approval_timeout_for_transfer_src)
    approvers_src allowed_destinations_src
    (BooleanSetting_from_u8
       (Z.land (hd 0 boolean_settings_src) (Z.shiftl 1 WHITELIST_SETTING_BIT)))
    (BooleanSetting_from_u8
       (Z.land (hd 0 boolean_settings_src) (Z.shiftl 1 DAPPS_SETTING_BIT)))
    (if hd 0 policy_update_locked_src =? 1 then true else false).

(** [unpack_from_slice]: [array_ref!] panics ([None]) on a short slice,
    otherwise the result is always [Ok]. *)
Definition BalanceAccount_unpack_from_slice (src : list byte)
  : option (Result BalanceAccount) :=
  if (length src <? BalanceAccount_LEN)%nat then None
  else Some (Ok (BalanceAccount_unpack_chunk (firstn BalanceAccount_LEN src))).

(** Values of [BalanceAccount] that its Rust type admits: fixed-size arrays
    of the right length, [u8] and [u64] in range. *)
Definition wf_BalanceAccount (b : BalanceAccount) : bool :=
  (length b.(guid_hash) =? GUID_HASH_BYTES)%nat && bytes_ok b.(guid_hash)
  && (length b.(name_hash) =? NAME_HASH_BYTES)%nat && bytes_ok b.(name_hash)
  && byte_ok b.(approvals_required_for_transfer)
  && (0 <=? b.(approval_timeout_for_transfer))
  && (b.(approval_timeout_for_transfer) <? 2 ^ 64)
  && (length b.(transfer_approvers) =? APPROVERS_STORAGE_SIZE)%nat
  && bytes_ok b.(transfer_approvers)
  && (length b.(allowed_destinations) =? ALLOWED_DESTINATIONS_STORAGE_SIZE)%nat
  && bytes_ok b.(allowed_destinations).

(** Byte buffers in the image of the encoder: the boolean-settings byte uses
    only bits 0 and 1 and the lock byte is 0 or 1. *)
Definition canonical_BalanceAccount_bytes (src : list byte) : bool :=
  (length src =? BalanceAccount_LEN)%nat && bytes_ok src
  && (nth 92 src 0 <=? 3) && (nth 93 src 0 <=? 1).

(** The [Pack] impls of the signer Slot Store, of [Signer] and of the
    address-book Slot Store live in files that are not among the sources;
    the wallet layout is stated over any such codec: its packed length, its
    [pack_into_slice] (which writes its whole region), its
    [unpack_from_slice], and the values its Rust type admits. *)
Record Codec (T : Type) := mkCodec {
  codec_len : nat;
  codec_pack : T -> list byte;
  codec_unpack : list byte -> Result T;
  codec_wf : T -> bool
}.
Arguments codec_len {T} c.
Arguments codec_pack {T} c x.
Arguments codec_unpack {T} c l.
Arguments codec_wf {T} c x.

(** A codec that round-trips on its own region. *)
Definition codec_laws {T} (c : Codec T) : Prop :=
  (forall x, codec_wf c x = true ->
             length (codec_pack c x) = codec_len c /\ bytes_ok (codec_pack c x) = true) /\
  (forall x, codec_wf c x = true -> codec_unpack c (codec_pack c x) = Ok x) /\
  (forall l x, length l = codec_len c -> bytes_ok l = true -> codec_unpack c l = Ok x ->
               codec_pack c x = l /\ codec_wf c x = true).

(** [chunks_exact(n)] over [k * n] bytes. *)
Fixpoint chunks_exact (n k : nat) (l : list byte) : list (list byte) :=
  match k with
  | O => []
  | S k' => firstn n l :: chunks_exact n k' (skipn n l)
  end.

(** [chunks_exact_mut(LEN).take(len).enumerate().for_each(..)]: chunk [i]
    receives [balance_accounts[i]]; chunks past the list keep their bytes. *)
Fixpoint pack_chunks (bas : list BalanceAccount) (chunks : list (list byte))
  : list (list byte) :=
  match chunks, bas with
  | c :: cs, b :: bs => BalanceAccount_pack_chunk b c :: pack_chunks bs cs
  | _, _ => chunks
  end.

Definition bool_of_byte (b : byte) : Result bool :=
  if b =? 0 then Ok false else if b =? 1 then Ok true else Err InvalidAccountData.

Section WalletPack.
Context (signers_codec : Codec (Slots Signer)) (signer_codec : Codec Signer)
        (address_book_codec : Codec (Slots AddressBookEntry)).

Definition BALANCE_ACCOUNTS_REGION : nat := BalanceAccount_LEN * MAX_BALANCE_ACCOUNTS.

Definition Wallet_LEN : nat :=
  1 + codec_len signers_codec + codec_len signer_codec + codec_len address_book_codec
  + 1 + 8 + APPROVERS_STORAGE_SIZE + 1 + BALANCE_ACCOUNTS_REGION + 1.

Definition Wallet_pack_chunk (w : Wallet) : list byte :=
  [if w.(is_initialized) then 1 else 0]
  ++ codec_pack signers_codec w.(signers)
  ++ codec_pack signer_codec w.(assistant)
  ++ codec_pack address_book_codec w.(address_book)
  ++ [w.(approvals_required_for_config)]
  ++ u64_to_le_bytes w.(approval_timeout_for_config)
  ++ w.(config_approvers)
  ++ [Z.of_nat (length w.(balance_accounts)) mod 256]      (* [len() as u8] *)
  ++ concat (pack_chunks w.(balance_accounts)             (* after [fill(0)] *)
               (chunks_exact BalanceAccount_LEN MAX_BALANCE_ACCOUNTS
                  (zero_bytes BALANCE_ACCOUNTS_REGION)))
  ++ [if w.(config_policy_update_locked) then 1 else 0].

Definition Wallet_pack_into_slice (w : Wallet) (dst : list byte) : option (list byte) :=
  if (length dst <? Wallet_LEN)%nat then None
  else Some (Wallet_pack_chunk w ++ skipn Wallet_LEN dst).

Definition Wallet_unpack_chunk (src : list byte) : Result Wallet :=
  let '(is_initialized_src, r) := split_at 1 src in
  let '(signers_src, r) := split_at (codec_len signers_codec) r in
  let '(assistant_src, r) := split_at (codec_len signer_codec) r in
  let '(address_book_src, r) := split_at (codec_len address_book_codec) r in
  let '(approvals_required_for_config_src, r) := split_at 1 r in
  let '(approval_timeout_for_config_src, r) := split_at 8 r in
  let '(config_approvers_src, r) := split_at APPROVERS_STORAGE_SIZE r in
  let '(balance_accounts_count, r) := split_at 1 r in
  let '(balance_accounts_src, config_policy_update_locked_src) :=
    split_at BALANCE_ACCOUNTS_REGION r in
  let balance_accounts :=
    map BalanceAccount_unpack_chunk
      (firstn (Z.to_nat (hd 0 balance_accounts_count))
         (chunks_exact BalanceAccount_LEN MAX_BALANCE_ACCOUNTS balance_accounts_src)) in
  match bool_of_byte (hd 0 is_initialized_src) with
  | Err e => Err e
  | Ok is_init =>
  match codec_unpack signers_codec signers_src with
  | Err e => Err e
  | Ok signers_v =>
  match codec_unpack signer_codec assistant_src with
  | Err e => Err e
  | Ok assistant_v =>
  match codec_unpack address_book_codec address_book_src with
  | Err e => Err e
  | Ok address_book_v =>
  match bool_of_byte (hd 0 config_policy_update_locked_src) with
  | Err e => Err e
  | Ok locked =>
    Ok (mkWallet is_init signers_v assistant_v address_book_v
          (hd 0 approvals_required_for_config_src)
          (u64_from_le_bytes approval_timeout_for_config_src)
          config_approvers_src balance_accounts locked)
  end end end end end.

Definition Wallet_unpack_from_slice (src : list byte) : option (Result Wallet) :=
  if (length src <? Wallet_LEN)%nat then None
  else Some (Wallet_unpack_chunk (firstn Wallet_LEN src)).

(** Values of [Wallet] its Rust types admit and its layout has room for
    (at most [MAX_BALANCE_ACCOUNTS] balance accounts). *)
Definition wf_Wallet (w : Wallet) : bool :=
  codec_wf signers_codec w.(signers) && codec_wf signer_codec w.(assistant)
  && codec_wf address_book_codec w.(address_book)
  && byte_ok w.(approvals_required_for_config)
  && (0 <=? w.(approval_timeout_for_config))
  && (w.(approval_timeout_for_config) <? 2 ^ 64)
  && (length w.(config_approvers) =? APPROVERS_STORAGE_SIZE)%nat
  && bytes_ok w.(config_approvers)
  && (length w.(balance_accounts) <=? MAX_BALANCE_ACCOUNTS)%nat
  && forallb wf_BalanceAccount w.(balance_accounts).

(** Byte buffers in the image of the encoder. *)
Definition canonical_Wallet_bytes (src : list byte) : bool :=
  let '(is_initialized_src, r) := split_at 1 src in
  let '(signers_src, r) := split_at (codec_len signers_codec) r in
  let '(assistant_src, r) := split_at (codec_len signer_codec) r in
  let '(address_book_src, r) := split_at (codec_len address_book_codec) r in
  let '(_, r) := split_at (1 + 8 + APPROVERS_STORAGE_SIZE) r in
  let '(balance_accounts_count, r) := split_at 1 r in
  let '(balance_accounts_src, config_policy_update_locked_src) :=
    split_at BALANCE_ACCOUNTS_REGION r in
  let count := Z.to_nat (hd 0 balance_accounts_count) in
  let chunks := chunks_exact BalanceAccount_LEN MAX_BALANCE_ACCOUNTS balance_accounts_src in
  (length src =? Wallet_LEN)%nat && bytes_ok src
  && (hd 0 is_initialized_src <=? 1) && (hd 0 config_policy_update_locked_src <=? 1)
  && is_ok (codec_unpack signers_codec signers_src)
  && is_ok (codec_unpack signer_codec assistant_src)
  && is_ok (codec_unpack address_book_codec address_book_src)
  && (count <=? MAX_BALANCE_ACCOUNTS)%nat
  && forallb canonical_BalanceAccount_bytes (firstn count chunks)
  && forallb (fun c => eqb_of c (zero_bytes BalanceAccount_LEN)) (skipn count chunks).
End WalletPack.

(** Modelled from the spec: a Slot Store packs as its [N] slots in order,
    each a presence byte (0 empty, 1 occupied) followed by the value's packed
    bytes (zero for an empty slot); [Signer] packs as its key. Used to
    instantiate the wallet layout with concrete codecs. *)
Definition signer_codec : Codec Signer :=
  mkCodec Signer 32 key (fun l => Ok (mkSigner l))
    (fun s => (length s.(key) =? 32)%nat && bytes_ok s.(key)).

Section SlotsCodec.
Context {T : Type} (c : Codec T).

Definition pack_slot (o : option T) : list byte :=
  match o with
  | None => 0 :: zero_bytes (codec_len c)
  | Some x => 1 :: codec_pack c x
  end.

Definition unpack_slot (l : list byte) : Result (option T) :=
  let tag := hd 0 l in
  if tag =? 0 then
    (if eqb_of (tl l) (zero_bytes (codec_len c)) then Ok None else Err InvalidAccountData)
  else if tag =? 1 then
    match codec_unpack c (tl l) with Ok x => Ok (Some x) | Err e => Err e end
  else Err InvalidAccountData.

Fixpoint unpack_slots (k : nat) (l : list byte) : Result (Slots T) :=
  match k with
  | O => Ok []
  | S k' =>
      let '(slot, rest) := split_at (1 + codec_len c) l in
      match unpack_slot slot with
      | Err e => Err e
      | Ok o => match unpack_slots k' rest with
                | Err e => Err e
                | Ok os => Ok (o :: os)
                end
      end
  end.

Definition slot_wf (o : option T) : bool :=
  match o with None => true | Some x => codec_wf c x end.

Definition slots_codec (n : nat) : Codec (Slots T) :=
  mkCodec (Slots T) (n * (1 + codec_len c))
    (fun s => concat (map pack_slot s))
    (unpack_slots n)
    (fun s => (length s =? n)%nat && forallb slot_wf s).
End SlotsCodec.

Definition address_book_entry_codec : Codec AddressBookEntry :=
  mkCodec AddressBookEntry 64
    (fun e => e.(address) ++ e.(entry_name_hash))
    (fun l => Ok (mkAddressBookEntry (firstn 32 l) (skipn 32 l)))
    (fun e => (length e.(address) =? 32)%nat && bytes_ok e.(address)
              && (length e.(entry_name_hash) =? 32)%nat && bytes_ok e.(entry_name_hash)).

Definition signers_codec : Codec (Slots Signer) := slots_codec signer_codec MAX_SIGNERS.
Definition address_book_codec : Codec (Slots AddressBookEntry) :=
  slots_codec address_book_entry_codec MAX_ADDRESS_BOOK_ENTRIES.

(* ------------------------------------------------------------------------- *)
(** ** Sample data *)

Definition pk (n : Z) : Pubkey := repeat n 32.
Definition sg (n : Z) : Signer := mkSigner (pk n).
Definition gh (n : Z) : list byte := repeat n 32.

(** Signers 1 and 2 in slots 0 and 1, both config approvers, 1 of 2. *)
Definition sample_wallet : Wallet :=
  mkWallet true (Some (sg 1) :: Some (sg 2) :: repeat None 22) (sg 9)
    (repeat None MAX_ADDRESS_BOOK_ENTRIES) 1 3600 [3; 0; 0] [] false.

(** A balance account whose transfer approver is signer 2 (slot 1), 1 of 1. *)
Definition sample_balance_account : BalanceAccount :=
  mkBalanceAccount (gh 7) (gh 8) 1 3600 [2; 0; 0] (zero_bytes 16) On Off false.

Definition sample_wallet_with_account : Wallet :=
  set_balance_accounts [sample_balance_account] sample_wallet.

Definition no_wallet_update : WalletUpdate := mkWalletUpdate 1 0 [] [] [] [] [] [].

Definition sample_account_update (name : list byte) (timeout : Duration) : BalanceAccountUpdate :=
  mkBalanceAccountUpdate name 1 timeout [] [] [] [].

(** ** Frame projections and stages of the mutators *)

Definition keeps {A} (R : relation Wallet) (m : M A) : Prop := forall w, R w (snd (m w)).

(** Equality of a projection of the wallet. *)
Definition same_on {X} (p : Wallet -> X) : relation Wallet := fun w w' => p w' = p w.

(** Fields no mutator of the configuration ever writes. *)
Definition fixed_fields (w : Wallet) := (is_initialized w, assistant w, config_policy_update_locked w).

(** The fields [update_config_policy] does not write. *)
Definition outside_config_policy (w : Wallet) :=
  (is_initialized w, signers w, assistant w, address_book w, balance_accounts w,
   config_policy_update_locked w).

(** The fields the balance-account mutators do not write. *)
Definition outside_balance_accounts (w : Wallet) :=
  (is_initialized w, signers w, assistant w, address_book w,
   approvals_required_for_config w, approval_timeout_for_config w, config_approvers w,
   config_policy_update_locked w).

(** What the six steps of [update] after the two field writes leave alone. *)
Definition update_steps_untouched (w : Wallet) :=
  (approvals_required_for_config w, approval_timeout_for_config w,
   is_initialized w, assistant w, balance_accounts w, config_policy_update_locked w).

(** What [update] as a whole leaves alone. *)
Definition update_untouched (w : Wallet) :=
  (is_initialized w, assistant w, balance_accounts w, config_policy_update_locked w).

(** Every balance account but the one at [idx], as a projection. *)
Definition other_accounts (idx : nat) (w : Wallet) :=
  (outside_balance_accounts w, replace_nth (map Some (balance_accounts w)) idx None).

(** Identity, name, threshold and timeout of every balance account: the
    fields the approver and destination steps leave alone. *)
Definition accounts_meta (w : Wallet) :=
  (length (balance_accounts w),
   map (fun ba => (guid_hash ba, name_hash ba, approvals_required_for_transfer ba,
                   approval_timeout_for_transfer ba)) (balance_accounts w)).

(** The four approver and destination steps of [update_balance_account]. *)
Definition transfer_steps (idx : nat) (u : BalanceAccountUpdate) : M unit :=
  disable_transfer_approvers idx u.(bau_remove_transfer_approvers) ;;
  enable_transfer_approvers idx u.(bau_add_transfer_approvers) ;;
  disable_transfer_destinations idx u.(bau_remove_allowed_destinations) ;;
  enable_transfer_destinations idx u.(bau_add_allowed_destinations).

(** The last two steps of [update_balance_account]: the field writes and
    the threshold checks. *)
Definition account_field_writes (idx : nat) (u : BalanceAccountUpdate) : M unit :=
  let perform_timeout_update := 0 <? u.(bau_approval_timeout_for_transfer) in
  modify_balance_account idx (fun ba =>
    let ba := set_name_hash u.(bau_name_hash) ba in
    let ba := set_approvals_required_for_transfer u.(bau_approvals_required_for_transfer) ba in
    if perform_timeout_update
    then set_approval_timeout_for_transfer u.(bau_approval_timeout_for_transfer) ba
    else ba).

Definition account_threshold_checks (idx : nat) (u : BalanceAccountUpdate) : M unit :=
  w <- get ;;
  match nth_error w.(balance_accounts) idx with
  | None => fail InvalidArgument
  | Some balance_account =>
      let approvers_count_after_update :=
        count_enabled balance_account.(transfer_approvers) in
      if u.(bau_approvals_required_for_transfer) >? Z.of_nat approvers_count_after_update
      then fail InvalidArgument
      else if balance_account.(approvals_required_for_transfer) =? 0 then fail InvalidArgument
      else if (count_enabled balance_account.(transfer_approvers) =? 0)%nat
      then fail InvalidArgument
      else ret tt
  end.

(* ========================================================================= *)
(** * Properties *)

(** ** Monad and list facts *)

Lemma bind_ok_inv {A B} (m : M A) (k : A -> M B) w b w' :
  bind m k w = (Ok b, w') ->
  exists a w1, m w = (Ok a, w1) /\ k a w1 = (Ok b, w').
Proof.
  unfold bind. destruct (m w) as [[a|e] w1] eqn:E; intros H.
  - eauto.
  - discriminate.
Qed.

Lemma bind_err_inv {A B} (m : M A) (k : A -> M B) w e w' :
  bind m k w = (Err e, w') ->
  m w = (Err e, w') \/ exists a w1, m w = (Ok a, w1) /\ k a w1 = (Err e, w').
Proof.
  unfold bind. destruct (m w) as [[a|e'] w1] eqn:E; intros H.
  - right. eauto.
  - left. congruence.
Qed.

Ltac ok_steps :=
  repeat match goal with
  | H : bind _ _ _ = (Ok _, _) |- _ =>
      apply bind_ok_inv in H; destruct H as (? & ? & ? & H)
  end.

Lemma eqb_of_true {T} `{DecEq T} (x y : T) : eqb_of x y = true <-> x = y.
Proof. unfold eqb_of. destruct (dec_eq x y); split; congruence. Qed.

Lemma existsb_eqb_In {T} `{DecEq T} (x : T) l : existsb (eqb_of x) l = true <-> In x l.
Proof.
  rewrite existsb_exists. split.
  - intros (y & Hy & E). apply eqb_of_true in E. subst. exact Hy.
  - intros Hx. exists x. split; [exact Hx | apply eqb_of_true; reflexivity].
Qed.

Lemma In_filter_map {A B} (f : A -> option B) l y :
  In y (filter_map f l) <-> exists x, In x l /\ f x = Some y.
Proof.
  induction l as [|a t IH]; simpl.
  - split; [contradiction | intros (? & [] & _)].
  - destruct (f a) as [b|] eqn:Ef; simpl; rewrite IH; split.
    + intros [<- | (x & Hx & E)]; eauto.
    + intros (x & [<- | Hx] & E); [left; congruence | right; eauto].
    + intros (x & Hx & E); eauto.
    + intros (x & [<- | Hx] & E); [congruence | eauto].
Qed.

(** ** Lock flag *)

(** C8: [lock_config_policy_updates] fails, leaving the wallet (and so the
    flag) as it was, when the config-policy-update lock is already set, and
    otherwise sets it and returns [Ok]; [unlock_config_policy_updates]
    always clears it; and a second lock attempt right after a successful one
    fails. *)
Theorem lock_config_policy_updates_spec : forall w : Wallet,
  (config_policy_update_locked w = true ->
     lock_config_policy_updates w = (Err (Custom ConcurrentOperationsNotAllowed), w)) /\
  (config_policy_update_locked w = false ->
     lock_config_policy_updates w = (Ok tt, set_config_policy_update_locked true w)) /\
  config_policy_update_locked (snd (unlock_config_policy_updates w)) = false /\
  (forall w1, lock_config_policy_updates w = (Ok tt, w1) ->
     lock_config_policy_updates w1 = (Err (Custom ConcurrentOperationsNotAllowed), w1)).
Proof.
  intros w. unfold lock_config_policy_updates, unlock_config_policy_updates, bind, get, put, fail, modify.
  repeat split.
  - intros H. rewrite H. reflexivity.
  - intros H. rewrite H. reflexivity.
  - intros w1. destruct (config_policy_update_locked w); intros H; inversion H; subst.
    reflexivity.
Qed.

(** ** Validators *)

(** C4: each validator hands the receiver back unchanged and returns exactly
    what the in-place mutator returns on an identical copy. *)
Theorem validators_frame_and_agree : forall (w : Wallet) (u : WalletUpdate)
  (cu : WalletConfigPolicyUpdate) (g : list byte) (bu : BalanceAccountUpdate),
  (snd (validate_update u w) = w /\ fst (validate_update u w) = fst (update u w)) /\
  (snd (validate_config_policy_update cu w) = w /\
   fst (validate_config_policy_update cu w) = fst (update_config_policy cu w)) /\
  (snd (validate_balance_account_update g bu w) = w /\
   fst (validate_balance_account_update g bu w) = fst (update_balance_account g bu w)) /\
  (snd (validate_add_balance_account g bu w) = w /\
   fst (validate_add_balance_account g bu w) = fst (add_balance_account g bu w)).
Proof. intros. repeat split. Qed.

(** ** Initiator checks *)

Lemma validate_initiator_ok w i f :
  validate_initiator w i f = Ok tt <->
  ai_is_signer i = true /\ (ai_key i = key (assistant w) \/ In (ai_key i) (f tt)).
Proof.
  unfold validate_initiator.
  destruct (ai_is_signer i); simpl.
  - destruct (eqb_of (ai_key i) (key (assistant w))) eqn:E1; simpl.
    + apply eqb_of_true in E1. split; auto.
    + destruct (existsb (eqb_of (ai_key i)) (f tt)) eqn:E2.
      * apply existsb_eqb_In in E2. split; auto.
      * split; [discriminate|].
        intros [_ [E | E]].
        -- apply (proj2 (eqb_of_true _ _)) in E. congruence.
        -- apply existsb_eqb_In in E. congruence.
  - split; [discriminate | intros [? _]; discriminate].
Qed.

Lemma validate_initiator_err w i f :
  validate_initiator w i f = Ok tt \/
  validate_initiator w i f =
    Err (if ai_is_signer i then InvalidArgument else Custom InvalidSignature).
Proof.
  unfold validate_initiator. destruct (ai_is_signer i); simpl; [|auto].
  destruct (_ || _); auto.
Qed.

Lemma In_approvers_keys w approvers k :
  In k (get_approvers_keys w approvers) <->
  exists id s, In id (iter_enabled approvers) /\ slot_get (signers w) id = Some s /\ key s = k.
Proof.
  unfold get_approvers_keys. rewrite In_filter_map. split.
  - intros (id & Hid & E). destruct (slot_get (signers w) id) as [s|] eqn:Es; inversion E.
    eauto.
  - intros (id & s & Hid & Es & Ek). exists id. rewrite Es. simpl. rewrite Ek. auto.
Qed.

(** C7: an initiator passes [validate_config_initiator] (resp.
    [validate_transfer_initiator] for a balance account) exactly when it
    has signed and its key is the assistant's key or the key held in the
    signer slot of a currently enabled config (resp. transfer) approver; a
    non-signing initiator gets [InvalidSignature] and a signing but
    unauthorized one [InvalidArgument]. Both checks read the wallet only. *)
Theorem validate_initiators_spec : forall (w : Wallet) (ba : BalanceAccount) (i : AccountInfo),
  (validate_config_initiator w i = Ok tt <->
     ai_is_signer i = true /\
     (ai_key i = key (assistant w) \/
      exists id s, In id (iter_enabled (config_approvers w)) /\
                   slot_get (signers w) id = Some s /\ key s = ai_key i)) /\
  (validate_transfer_initiator w ba i = Ok tt <->
     ai_is_signer i = true /\
     (ai_key i = key (assistant w) \/
      exists id s, In id (iter_enabled (transfer_approvers ba)) /\
                   slot_get (signers w) id = Some s /\ key s = ai_key i)) /\
  (validate_config_initiator w i = Ok tt \/
   validate_config_initiator w i =
     Err (if ai_is_signer i then InvalidArgument else Custom InvalidSignature)) /\
  (validate_transfer_initiator w ba i = Ok tt \/
   validate_transfer_initiator w ba i =
     Err (if ai_is_signer i then InvalidArgument else Custom InvalidSignature)).
Proof.
  intros w ba i. unfold validate_config_initiator, validate_transfer_initiator.
  split; [|split; [|split]]; try apply validate_initiator_err;
    rewrite validate_initiator_ok;
    unfold get_config_approvers_keys, get_transfer_approvers_keys;
    rewrite In_approvers_keys; tauto.
Qed.

(** ** Decoding a balance account *)

Lemma hd_firstn1 (l : list Z) : hd 0 (firstn 1 l) = hd 0 l.
Proof. destruct l; reflexivity. Qed.

Lemma hd_skipn (n : nat) (l : list Z) : hd 0 (skipn n l) = nth n l 0.
Proof. revert l; induction n; intros [|x l]; simpl; auto. Qed.

(** The pieces [array_refs!] cuts, read by position. *)
Lemma BalanceAccount_unpack_chunk_fields src :
  BalanceAccount_unpack_chunk src =
  mkBalanceAccount (firstn 32 src) (firstn 32 (skipn 32 src)) (nth 64 src 0)
    (u64_from_le_bytes (firstn 8 (skipn 65 src)))
    (firstn 3 (skipn 73 src)) (firstn 16 (skipn 76 src))
    (BooleanSetting_from_u8 (Z.land (nth 92 src 0) 1))
    (BooleanSetting_from_u8 (Z.land (nth 92 src 0) 2))
    (if nth 93 src 0 =? 1 then true else false).
Proof.
  unfold BalanceAccount_unpack_chunk, split_at.
  rewrite !skipn_skipn, !hd_firstn1, !hd_skipn. reflexivity.
Qed.

Lemma firstn_replace_nth_low {A} (l : list A) n x j :
  (j <= n)%nat -> firstn j (replace_nth l n x) = firstn j l.
Proof.
  revert n j. induction l as [|a t IH]; intros n j Hj; [reflexivity|].
  destruct j as [|j]; [reflexivity|].
  destruct n as [|n]; [lia|]. simpl. f_equal. apply IH. lia.
Qed.

Lemma nth_replace_nth_other {A} (l : list A) n x i d :
  i <> n -> nth i (replace_nth l n x) d = nth i l d.
Proof.
  revert n i. induction l as [|a t IH]; intros n i Hi; [reflexivity|].
  destruct n as [|n], i as [|i]; simpl; try lia; auto.
Qed.

Lemma nth_replace_nth_same {A} (l : list A) n x d :
  (n < length l)%nat -> nth n (replace_nth l n x) d = x.
Proof.
  revert n. induction l as [|a t IH]; intros n Hn; simpl in *; [lia|].
  destruct n as [|n]; [reflexivity|]. apply IH. lia.
Qed.

Lemma length_replace_nth {A} (l : list A) n x : length (replace_nth l n x) = length l.
Proof. revert n. induction l as [|a t IH]; intros [|n]; simpl; auto. Qed.

Lemma window_firstn_replace_nth {A} (l : list A) N n x m k :
  (m + k <= n)%nat ->
  firstn k (skipn m (firstn N (replace_nth l n x))) = firstn k (skipn m (firstn N l)).
Proof.
  intros H. rewrite !firstn_skipn_comm, !firstn_firstn.
  rewrite firstn_replace_nth_low; [reflexivity | lia].
Qed.

(** C10: on a slice of at least [BalanceAccount::LEN] bytes,
    [BalanceAccount::unpack_from_slice] returns [Ok]; the lock flag is set
    exactly when its byte is 1 (any other value reads as false); and
    changing bits of the boolean-settings byte other than bits 0 and 1
    does not change the result. *)
Theorem BalanceAccount_unpack_from_slice_total : forall src : list byte,
  (BalanceAccount_LEN <= length src)%nat ->
  exists ba,
    BalanceAccount_unpack_from_slice src = Some (Ok ba) /\
    (policy_update_locked ba = true <-> nth 93 src 0 = 1) /\
    (forall b', Z.land b' 3 = Z.land (nth 92 src 0) 3 ->
       BalanceAccount_unpack_from_slice (replace_nth src 92 b') = Some (Ok ba)).
Proof.
  intros src Hlen.
  assert (Hrl : forall b', length (replace_nth src 92 b') = length src)
    by (intros; apply length_replace_nth).
  unfold BalanceAccount_unpack_from_slice.
  assert (Hlt : (length src <? BalanceAccount_LEN)%nat = false) by (apply Nat.ltb_ge; exact Hlen).
  rewrite Hlt.
  eexists. split; [reflexivity|]. split.
  - rewrite BalanceAccount_unpack_chunk_fields. cbn [policy_update_locked].
    rewrite nth_firstn. cbn - [nth].
    destruct (nth 93 src 0 =? 1) eqn:E; split; intros H; try discriminate; auto.
    + apply Z.eqb_eq. exact E.
    + apply Z.eqb_neq in E. congruence.
  - intros b' Hb. rewrite Hrl, Hlt. do 2 f_equal.
    rewrite !BalanceAccount_unpack_chunk_fields.
    rewrite !(nth_firstn _ _ 92), !(nth_firstn _ _ 93), !(nth_firstn _ _ 64).
    cbn - [nth firstn skipn replace_nth].
    rewrite nth_replace_nth_same by (unfold BalanceAccount_LEN in Hlen; simpl in Hlen; lia).
    rewrite !nth_replace_nth_other by lia.
    assert (H1 : Z.land b' 1 = Z.land (nth 92 src 0) 1).
    { change 1 with (Z.land 3 1). rewrite !Z.land_assoc, Hb. reflexivity. }
    assert (H2 : Z.land b' 2 = Z.land (nth 92 src 0) 2).
    { change 2 with (Z.land 3 2). rewrite !Z.land_assoc, Hb. reflexivity. }
    rewrite H1, H2.
    rewrite (window_firstn_replace_nth src _ 92 b' 32 32) by lia.
    rewrite (window_firstn_replace_nth src _ 92 b' 65 8) by lia.
    rewrite (window_firstn_replace_nth src _ 92 b' 73 3) by lia.
    rewrite (window_firstn_replace_nth src _ 92 b' 76 16) by lia.
    rewrite !firstn_firstn, firstn_replace_nth_low by (cbn; lia).
    reflexivity.
Qed.

(** ** Frames: what a step may change *)

Section Keeps.
Context {X : Type} (p : Wallet -> X).

Lemma keeps_bind {A B} (m : M A) (k : A -> M B) :
  keeps (same_on p) m -> (forall a, keeps (same_on p) (k a)) -> keeps (same_on p) (bind m k).
Proof.
  intros Hm Hk w. unfold bind. specialize (Hm w).
  destruct (m w) as [[a|e] w1]; simpl in *; [|exact Hm].
  specialize (Hk a w1). unfold same_on in *. congruence.
Qed.

Lemma keeps_get_bind {B} (k : Wallet -> M B) :
  (forall w, same_on p w (snd (k w w))) -> keeps (same_on p) (bind get k).
Proof. intros Hk w. apply Hk. Qed.

Lemma keeps_ret {A} (a : A) : keeps (same_on p) (ret a).
Proof. intros w. reflexivity. Qed.

Lemma keeps_fail {A} e : keeps (same_on p) (@fail A e).
Proof. intros w. reflexivity. Qed.

Lemma keeps_lift {A} (r : Result A) : keeps (same_on p) (lift r).
Proof. intros w. reflexivity. Qed.

Lemma keeps_modify f : (forall w, same_on p w (f w)) -> keeps (same_on p) (modify f).
Proof. intros Hf w. apply Hf. Qed.

Lemma keeps_put_bind {B} w0 (k : unit -> M B) w :
  same_on p w w0 -> keeps (same_on p) (k tt) -> same_on p w (snd (bind (put w0) k w)).
Proof.
  intros H1 H2. unfold bind, put. simpl. specialize (H2 w0).
  unfold same_on in *. congruence.
Qed.

Lemma keeps_if {A} (b : bool) (m1 m2 : M A) :
  keeps (same_on p) m1 -> keeps (same_on p) m2 -> keeps (same_on p) (if b then m1 else m2).
Proof. destruct b; auto. Qed.
End Keeps.

Lemma disable_config_approvers_keeps_outside l :
  keeps (same_on outside_config_policy) (disable_config_approvers l).
Proof.
  induction l as [|[id s] t IH]; simpl; [apply keeps_ret|].
  apply keeps_get_bind; intros w. destruct (slot_matches_or_empty _ _ _).
  - apply keeps_put_bind; [reflexivity | exact IH].
  - reflexivity.
Qed.

Lemma enable_config_approvers_keeps_outside l :
  keeps (same_on outside_config_policy) (enable_config_approvers l).
Proof.
  unfold enable_config_approvers. apply keeps_get_bind; intros w.
  destruct (negb _); reflexivity.
Qed.

Lemma update_config_policy_keeps_outside u :
  keeps (same_on outside_config_policy) (update_config_policy u).
Proof.
  unfold update_config_policy.
  apply keeps_bind; [apply keeps_modify; reflexivity | intros _].
  apply keeps_bind; [apply keeps_if; [apply keeps_modify; reflexivity | apply keeps_ret] | intros _].
  apply keeps_bind; [apply disable_config_approvers_keeps_outside | intros _].
  apply keeps_bind; [apply enable_config_approvers_keeps_outside | intros _].
  apply keeps_get_bind; intros w.
  repeat match goal with |- context [if ?b then _ else _] => destruct b end; reflexivity.
Qed.

(** C9: a successful [update_config_policy] writes only
    [approvals_required_for_config], [approval_timeout_for_config] and
    [config_approvers]: the signer slots, the assistant, the address book,
    the balance accounts and both flags are as before. *)
Theorem update_config_policy_only_policy_fields :
  forall (w w' : Wallet) (u : WalletConfigPolicyUpdate),
  update_config_policy u w = (Ok tt, w') ->
  signers w' = signers w /\ assistant w' = assistant w /\
  address_book w' = address_book w /\ balance_accounts w' = balance_accounts w /\
  is_initialized w' = is_initialized w /\
  config_policy_update_locked w' = config_policy_update_locked w.
Proof.
  intros w w' u H.
  pose proof (update_config_policy_keeps_outside u w) as K.
  rewrite H in K. unfold same_on, outside_config_policy in K. simpl in K.
  inversion K. repeat split; assumption.
Qed.

(** *** Frames of the [Wallet::update] steps *)

Section UpdateSteps.
Context {X : Type} (p : Wallet -> X)
        (Hsig : forall w v, p (set_signers v w) = p w)
        (Hab : forall w v, p (set_address_book v w) = p w)
        (Hca : forall w v, p (set_config_approvers v w) = p w).

Lemma disable_config_approvers_keeps l : keeps (same_on p) (disable_config_approvers l).
Proof using Hsig Hab Hca.
  induction l as [|[id s] t IH]; simpl; [apply keeps_ret|].
  apply keeps_get_bind; intros w. destruct (slot_matches_or_empty _ _ _).
  - apply keeps_put_bind; [apply Hca | exact IH].
  - reflexivity.
Qed.

Lemma enable_config_approvers_keeps l : keeps (same_on p) (enable_config_approvers l).
Proof using Hsig Hab Hca.
  unfold enable_config_approvers. apply keeps_get_bind; intros w.
  destruct (negb _); [reflexivity | apply Hca].
Qed.

Lemma add_signers_keeps l : keeps (same_on p) (add_signers l).
Proof using Hsig Hab Hca.
  unfold add_signers. apply keeps_get_bind; intros w.
  destruct (negb _); [reflexivity | apply Hsig].
Qed.

Lemma remove_signers_keeps l : keeps (same_on p) (remove_signers l).
Proof using Hsig Hab Hca.
  unfold remove_signers. apply keeps_get_bind; intros w.
  destruct (negb _); [reflexivity|]. simpl.
  destruct (any_enabled _ _); [reflexivity|].
  destruct (existsb _ _); [reflexivity | apply Hsig].
Qed.

Lemma add_address_book_entries_keeps l : keeps (same_on p) (add_address_book_entries l).
Proof using Hsig Hab Hca.
  unfold add_address_book_entries. apply keeps_get_bind; intros w.
  destruct (negb _); [reflexivity | apply Hab].
Qed.

Lemma remove_address_book_entries_keeps l :
  keeps (same_on p) (remove_address_book_entries l).
Proof using Hsig Hab Hca.
  unfold remove_address_book_entries. apply keeps_get_bind; intros w.
  destruct (negb _); [reflexivity|]. simpl.
  destruct (existsb _ _); [reflexivity | apply Hab].
Qed.
End UpdateSteps.

Lemma update_keeps_untouched u : keeps (same_on update_untouched) (update u).
Proof.
  unfold update.
  assert (Hs : forall w v, update_untouched (set_signers v w) = update_untouched w) by reflexivity.
  assert (Ha : forall w v, update_untouched (set_address_book v w) = update_untouched w) by reflexivity.
  assert (Hc : forall w v, update_untouched (set_config_approvers v w) = update_untouched w) by reflexivity.
  apply keeps_bind; [apply keeps_modify; reflexivity | intros _].
  apply keeps_bind; [apply keeps_if; [apply keeps_modify; reflexivity | apply keeps_ret] | intros _].
  apply keeps_bind; [apply disable_config_approvers_keeps; auto | intros _].
  apply keeps_bind; [apply remove_signers_keeps; auto | intros _].
  apply keeps_bind; [apply add_signers_keeps; auto | intros _].
  apply keeps_bind; [apply enable_config_approvers_keeps; auto | intros _].
  apply keeps_bind; [apply remove_address_book_entries_keeps; auto | intros _].
  apply keeps_bind; [apply add_address_book_entries_keeps; auto | intros _].
  apply keeps_get_bind; intros w.
  destruct (_ >? _); [reflexivity|].
  cbv [bind lift fail ret]. destruct (validate_approval_timeout _); [|reflexivity].
  repeat match goal with |- context [if ?b then _ else _] => destruct b end; reflexivity.
Qed.

Lemma keeps_step {A X} (p : Wallet -> X) (m : M A) w r w1 :
  keeps (same_on p) m -> m w = (r, w1) -> p w1 = p w.
Proof. intros K E. specialize (K w). rewrite E in K. exact K. Qed.

Ltac split_binds H :=
  repeat (apply bind_ok_inv in H; let E := fresh "E" in destruct H as (? & ? & E & H)).

(** *** Thresholds after a successful config update *)

Lemma update_threshold_in_range (u : WalletUpdate) w w' :
  0 <= wu_approvals_required_for_config u ->
  update u w = (Ok tt, w') ->
  1 <= approvals_required_for_config w' <= Z.of_nat (count_enabled (config_approvers w')).
Proof.
  intros Hnn H. unfold update in H.
  assert (rs : forall w v, approvals_required_for_config (set_signers v w)
                           = approvals_required_for_config w) by reflexivity.
  assert (ra : forall w v, approvals_required_for_config (set_address_book v w)
                           = approvals_required_for_config w) by reflexivity.
  assert (rc : forall w v, approvals_required_for_config (set_config_approvers v w)
                           = approvals_required_for_config w) by reflexivity.
  apply bind_ok_inv in H as (? & w1 & E1 & H). inversion E1; subst w1; clear E1.
  apply bind_ok_inv in H as (? & w2 & E2 & H).
  assert (A2 : approvals_required_for_config w2 = wu_approvals_required_for_config u).
  { destruct (0 <? _); inversion E2; reflexivity. }
  clear E2.
  apply bind_ok_inv in H as (? & w3 & E3 & H).
  apply bind_ok_inv in H as (? & w4 & E4 & H).
  apply bind_ok_inv in H as (? & w5 & E5 & H).
  apply bind_ok_inv in H as (? & w6 & E6 & H).
  apply bind_ok_inv in H as (? & w7 & E7 & H).
  apply bind_ok_inv in H as (? & w8 & E8 & H).
  assert (A8 : approvals_required_for_config w8 = wu_approvals_required_for_config u).
  { rewrite <- A2.
    rewrite (keeps_step _ _ _ _ _ (add_address_book_entries_keeps _ rs ra rc _) E8),
      (keeps_step _ _ _ _ _ (remove_address_book_entries_keeps _ rs ra rc _) E7),
      (keeps_step _ _ _ _ _ (enable_config_approvers_keeps _ rs ra rc _) E6),
      (keeps_step _ _ _ _ _ (add_signers_keeps _ rs ra rc _) E5),
      (keeps_step _ _ _ _ _ (remove_signers_keeps _ rs ra rc _) E4),
      (keeps_step _ _ _ _ _ (disable_config_approvers_keeps _ rs ra rc _) E3).
    reflexivity. }
  unfold bind at 1, get in H.
  destruct (_ >? _) eqn:C1; [discriminate|].
  cbv [bind lift fail ret] in H.
  destruct (validate_approval_timeout _); [|discriminate].
  destruct (approvals_required_for_config w8 =? 0) eqn:C2; [discriminate|].
  destruct (count_enabled (config_approvers w8) =? 0)%nat; [discriminate|].
  inversion H; subst w'.
  rewrite Z.gtb_ltb, Z.ltb_ge in C1. apply Z.eqb_neq in C2. lia.
Qed.

Lemma update_config_policy_threshold_in_range (u : WalletConfigPolicyUpdate) w w' :
  0 <= cpu_approvals_required_for_config u ->
  update_config_policy u w = (Ok tt, w') ->
  1 <= approvals_required_for_config w' <= Z.of_nat (count_enabled (config_approvers w')).
Proof.
  intros Hnn H. unfold update_config_policy in H.
  assert (rs : forall w v, approvals_required_for_config (set_signers v w)
                           = approvals_required_for_config w) by reflexivity.
  assert (ra : forall w v, approvals_required_for_config (set_address_book v w)
                           = approvals_required_for_config w) by reflexivity.
  assert (rc : forall w v, approvals_required_for_config (set_config_approvers v w)
                           = approvals_required_for_config w) by reflexivity.
  apply bind_ok_inv in H as (? & w1 & E1 & H). inversion E1; subst w1; clear E1.
  apply bind_ok_inv in H as (? & w2 & E2 & H).
  assert (A2 : approvals_required_for_config w2 = cpu_approvals_required_for_config u).
  { destruct (0 <? _); inversion E2; reflexivity. }
  clear E2.
  apply bind_ok_inv in H as (? & w3 & E3 & H).
  apply bind_ok_inv in H as (? & w4 & E4 & H).
  assert (A4 : approvals_required_for_config w4 = cpu_approvals_required_for_config u).
  { rewrite <- A2.
    rewrite (keeps_step _ _ _ _ _ (enable_config_approvers_keeps _ rs ra rc _) E4),
      (keeps_step _ _ _ _ _ (disable_config_approvers_keeps _ rs ra rc _) E3).
    reflexivity. }
  unfold bind at 1, get in H.
  destruct (approvals_required_for_config w4 =? 0) eqn:C1; [discriminate|].
  destruct (approval_timeout_for_config w4 =? 0); [discriminate|].
  destruct (_ >? _) eqn:C3; [discriminate|].
  inversion H; subst w'.
  rewrite Z.gtb_ltb, Z.ltb_ge in C3. apply Z.eqb_neq in C1. lia.
Qed.

(** *** Frames of the balance-account steps *)

Lemma nth_error_update_nth_same {A} (l : list A) i f :
  nth_error (update_nth l i f) i = option_map f (nth_error l i).
Proof. revert i. induction l as [|a t IH]; intros [|i]; simpl; auto. Qed.

Lemma nth_error_update_nth_other {A} (l : list A) i j f :
  j <> i -> nth_error (update_nth l i f) j = nth_error l j.
Proof.
  revert i j. induction l as [|a t IH]; intros [|i] [|j] Hij; simpl; auto; try lia.
Qed.

Lemma length_update_nth {A} (l : list A) i f : length (update_nth l i f) = length l.
Proof. revert i. induction l as [|a t IH]; intros [|i]; simpl; auto. Qed.

Lemma map_update_nth {A B} (g : A -> B) (l : list A) i f :
  (forall x, g (f x) = g x) -> map g (update_nth l i f) = map g l.
Proof.
  intros Hg. revert i. induction l as [|a t IH]; intros [|i]; simpl; auto.
  - rewrite Hg. reflexivity.
  - rewrite IH. reflexivity.
Qed.

Lemma replace_nth_map_update_nth {A} (l : list A) i f :
  replace_nth (map Some (update_nth l i f)) i None = replace_nth (map Some l) i None.
Proof. revert i. induction l as [|a t IH]; intros [|i]; simpl; auto. rewrite IH. reflexivity. Qed.

Section AccountSteps.
Context {X : Type} (p : Wallet -> X) (idx : nat)
        (Hmod : forall w f,
           (forall ba, guid_hash (f ba) = guid_hash ba /\ name_hash (f ba) = name_hash ba /\
              approvals_required_for_transfer (f ba) = approvals_required_for_transfer ba /\
              approval_timeout_for_transfer (f ba) = approval_timeout_for_transfer ba) ->
           p (set_balance_accounts (update_nth (balance_accounts w) idx f) w) = p w).

Lemma enable_transfer_approvers_keeps l :
  keeps (same_on p) (enable_transfer_approvers idx l).
Proof using Hmod.
  unfold enable_transfer_approvers. apply keeps_get_bind; intros w.
  destruct (negb _); [reflexivity|]. apply Hmod. intros ba; repeat split.
Qed.

Lemma disable_transfer_approvers_keeps l :
  keeps (same_on p) (disable_transfer_approvers idx l).
Proof using Hmod.
  induction l as [|[id s] t IH]; simpl; [apply keeps_ret|].
  apply keeps_get_bind; intros w. destruct (slot_matches_or_empty _ _ _).
  - unfold bind at 1, modify_balance_account, modify. simpl.
    specialize (IH (set_balance_accounts (update_nth (balance_accounts w) idx
                   (fun ba => set_transfer_approvers (disable (transfer_approvers ba) id) ba)) w)).
    unfold same_on in *. rewrite IH. apply Hmod. intros ba; repeat split.
  - reflexivity.
Qed.

Lemma enable_transfer_destinations_keeps l :
  keeps (same_on p) (enable_transfer_destinations idx l).
Proof using Hmod.
  unfold enable_transfer_destinations. apply keeps_get_bind; intros w.
  destruct (negb _); [reflexivity|]. apply Hmod. intros ba; repeat split.
Qed.

Lemma disable_transfer_destinations_keeps l :
  keeps (same_on p) (disable_transfer_destinations idx l).
Proof using Hmod.
  induction l as [|[id s] t IH]; simpl; [apply keeps_ret|].
  apply keeps_get_bind; intros w. destruct (slot_matches_or_empty _ _ _).
  - unfold bind at 1, modify_balance_account, modify. simpl.
    specialize (IH (set_balance_accounts (update_nth (balance_accounts w) idx
                   (fun ba => set_allowed_destinations (disable (allowed_destinations ba) id) ba)) w)).
    unfold same_on in *. rewrite IH. apply Hmod. intros ba; repeat split.
  - reflexivity.
Qed.
End AccountSteps.

Lemma outside_balance_accounts_mod idx w f :
  outside_balance_accounts (set_balance_accounts (update_nth (balance_accounts w) idx f) w)
  = outside_balance_accounts w.
Proof. reflexivity. Qed.

Lemma other_accounts_mod idx w f :
  other_accounts idx (set_balance_accounts (update_nth (balance_accounts w) idx f) w)
  = other_accounts idx w.
Proof. unfold other_accounts. simpl. rewrite replace_nth_map_update_nth. reflexivity. Qed.

Lemma accounts_meta_mod idx w f :
  (forall ba, guid_hash (f ba) = guid_hash ba /\ name_hash (f ba) = name_hash ba /\
     approvals_required_for_transfer (f ba) = approvals_required_for_transfer ba /\
     approval_timeout_for_transfer (f ba) = approval_timeout_for_transfer ba) ->
  accounts_meta (set_balance_accounts (update_nth (balance_accounts w) idx f) w)
  = accounts_meta w.
Proof.
  intros Hf. unfold accounts_meta. simpl. rewrite length_update_nth.
  rewrite map_update_nth; [reflexivity|].
  intros ba. destruct (Hf ba) as (-> & -> & -> & ->). reflexivity.
Qed.

Lemma transfer_steps_keeps {X} (p : Wallet -> X) idx u :
  (forall w f,
     (forall ba, guid_hash (f ba) = guid_hash ba /\ name_hash (f ba) = name_hash ba /\
        approvals_required_for_transfer (f ba) = approvals_required_for_transfer ba /\
        approval_timeout_for_transfer (f ba) = approval_timeout_for_transfer ba) ->
     p (set_balance_accounts (update_nth (balance_accounts w) idx f) w) = p w) ->
  keeps (same_on p) (transfer_steps idx u).
Proof.
  intros Hmod. unfold transfer_steps.
  apply keeps_bind; [apply disable_transfer_approvers_keeps; exact Hmod | intros _].
  apply keeps_bind; [apply enable_transfer_approvers_keeps; exact Hmod | intros _].
  apply keeps_bind; [apply disable_transfer_destinations_keeps; exact Hmod | intros _].
  apply enable_transfer_destinations_keeps; exact Hmod.
Qed.

Lemma account_threshold_checks_state idx u w r w' :
  account_threshold_checks idx u w = (r, w') -> w' = w.
Proof.
  unfold account_threshold_checks, bind, get. simpl.
  destruct (nth_error _ _); [|intros H; inversion H; reflexivity].
  repeat match goal with |- context [if ?b then _ else _] => destruct b end;
    intros H; inversion H; reflexivity.
Qed.

(** [update_balance_account] in stages: look-up, timeout check, then the
    steps that write. *)
Lemma update_balance_account_stages g u w :
  update_balance_account g u w =
  match position_guid (balance_accounts w) g with
  | None => (Err (Custom BalanceAccountNotFound), w)
  | Some idx =>
      match (if 0 <? u.(bau_approval_timeout_for_transfer)
             then validate_approval_timeout u.(bau_approval_timeout_for_transfer)
             else Ok tt) with
      | Err e => (Err e, w)
      | Ok _ =>
          match transfer_steps idx u w with
          | (Err e, w1) => (Err e, w1)
          | (Ok _, w1) =>
              match account_field_writes idx u w1 with
              | (Err e, w2) => (Err e, w2)
              | (Ok _, w2) => account_threshold_checks idx u w2
              end
          end
      end
  end.
Proof.
  unfold update_balance_account, transfer_steps, account_field_writes, account_threshold_checks.
  cbv [bind get lift ret]. unfold get_balance_account_index.
  destruct (position_guid _ _) as [idx|]; [|reflexivity].
  destruct (0 <? _); [destruct (validate_approval_timeout _) as [[]|e]; [|reflexivity]|].
  all: destruct (disable_transfer_approvers idx _ w) as [[[]|e] w1]; [|reflexivity];
    destruct (enable_transfer_approvers idx _ w1) as [[[]|e] w2]; [|reflexivity];
    destruct (disable_transfer_destinations idx _ w2) as [[[]|e] w3]; [|reflexivity];
    destruct (enable_transfer_destinations idx _ w3) as [[[]|e] w4]; [|reflexivity];
    reflexivity.
Qed.

Lemma update_balance_account_not_found g u w :
  position_guid (balance_accounts w) g = None ->
  update_balance_account g u w = (Err (Custom BalanceAccountNotFound), w).
Proof. intros H. rewrite update_balance_account_stages, H. reflexivity. Qed.

Lemma update_balance_account_bad_timeout g u w idx e :
  position_guid (balance_accounts w) g = Some idx ->
  0 < bau_approval_timeout_for_transfer u ->
  validate_approval_timeout (bau_approval_timeout_for_transfer u) = Err e ->
  update_balance_account g u w = (Err e, w).
Proof.
  intros H T V. rewrite update_balance_account_stages, H.
  apply Z.ltb_lt in T. rewrite T, V. reflexivity.
Qed.

(** A projection that no write to the account at [idx] changes is left
    alone by [update_balance_account], whatever its outcome. *)
Lemma update_balance_account_keeps_at {X} (p : Wallet -> X) idx g u w r w' :
  position_guid (balance_accounts w) g = Some idx ->
  (forall w f, p (set_balance_accounts (update_nth (balance_accounts w) idx f) w) = p w) ->
  update_balance_account g u w = (r, w') -> p w' = p w.
Proof.
  intros Hpos Hmod H. rewrite update_balance_account_stages, Hpos in H.
  destruct (if 0 <? _ then _ else _) as [_|e]; [|inversion H; reflexivity].
  destruct (transfer_steps idx u w) as [[[]|e] w1] eqn:E1.
  2: { inversion H; subst. exact (keeps_step _ _ _ _ _
         (transfer_steps_keeps p idx u (fun w f _ => Hmod w f)) E1). }
  assert (P1 : p w1 = p w).
  { exact (keeps_step _ _ _ _ _ (transfer_steps_keeps p idx u (fun w f _ => Hmod w f)) E1). }
  unfold account_field_writes, modify_balance_account, modify in H. simpl in H.
  apply account_threshold_checks_state in H. subst w'. rewrite Hmod. exact P1.
Qed.

Lemma nth_error_map_eq {A B} (g : A -> B) l1 l2 i b :
  map g l1 = map g l2 -> nth_error l2 i = Some b ->
  exists b1, nth_error l1 i = Some b1 /\ g b1 = g b.
Proof.
  intros Hm Hn. assert (E : nth_error (map g l1) i = nth_error (map g l2) i) by now rewrite Hm.
  rewrite !nth_error_map, Hn in E.
  destruct (nth_error l1 i) as [b1|]; [|discriminate].
  exists b1. split; [reflexivity|]. simpl in E. congruence.
Qed.

(** What a successful [update_balance_account] leaves in the account it
    found: the name hash and the threshold of the request, the timeout of
    the request when it is positive and the old one otherwise, and, from
    the checks, [1 <= approvals_required_for_transfer <= enabled approvers]. *)
Lemma update_balance_account_success g u w w' idx ba :
  position_guid (balance_accounts w) g = Some idx ->
  nth_error (balance_accounts w) idx = Some ba ->
  update_balance_account g u w = (Ok tt, w') ->
  exists ba', nth_error (balance_accounts w') idx = Some ba' /\
    guid_hash ba' = guid_hash ba /\
    name_hash ba' = bau_name_hash u /\
    approvals_required_for_transfer ba' = bau_approvals_required_for_transfer u /\
    approval_timeout_for_transfer ba' =
      (if 0 <? bau_approval_timeout_for_transfer u
       then bau_approval_timeout_for_transfer u else approval_timeout_for_transfer ba) /\
    (0 <= bau_approvals_required_for_transfer u ->
     1 <= approvals_required_for_transfer ba' <= Z.of_nat (count_enabled (transfer_approvers ba'))).
Proof.
  intros Hpos Hba H. rewrite update_balance_account_stages, Hpos in H.
  destruct (if 0 <? _ then _ else _) as [_|e]; [|discriminate].
  destruct (transfer_steps idx u w) as [[[]|e] w1] eqn:E1; [|discriminate].
  pose proof (keeps_step _ _ _ _ _ (transfer_steps_keeps accounts_meta idx u
                (fun w f Hf => accounts_meta_mod idx w f Hf)) E1) as M1.
  unfold accounts_meta in M1. inversion M1 as [[Hlen Hmap]]; clear M1.
  destruct (nth_error_map_eq _ _ _ _ _ Hmap Hba) as (ba1 & Hba1 & Hg). inversion Hg.
  unfold account_field_writes, modify_balance_account, modify in H. simpl in H.
  pose proof (account_threshold_checks_state _ _ _ _ _ H) as ->.
  unfold account_threshold_checks, bind, get in H. simpl in H.
  rewrite nth_error_update_nth_same, Hba1 in H. simpl in H.
  set (ba' := (if 0 <? _ then _ else _)) in H.
  exists ba'. cbn [balance_accounts set_balance_accounts].
  rewrite nth_error_update_nth_same, Hba1. split; [reflexivity|].
  assert (Hf : guid_hash ba' = guid_hash ba1 /\ name_hash ba' = bau_name_hash u /\
     approvals_required_for_transfer ba' = bau_approvals_required_for_transfer u /\
     transfer_approvers ba' = transfer_approvers ba1 /\
     approval_timeout_for_transfer ba' =
       (if 0 <? bau_approval_timeout_for_transfer u
        then bau_approval_timeout_for_transfer u else approval_timeout_for_transfer ba1)).
  { subst ba'. destruct (0 <? _); repeat split. }
  destruct Hf as (F1 & F2 & F3 & F4 & F5).
  rewrite F1, F2, F3, F5.
  split; [congruence|]. split; [reflexivity|]. split; [reflexivity|].
  split; [destruct (0 <? _); congruence|].
  intros Hnn. rewrite F3 in H.
  destruct (_ >? _) eqn:C1; [discriminate|].
  destruct (bau_approvals_required_for_transfer u =? 0) eqn:C2; [discriminate|].
  rewrite Z.gtb_ltb, Z.ltb_ge in C1. apply Z.eqb_neq in C2. lia.
Qed.

(** ** C6: the name and timeout writes of [update_balance_account] *)

(** C6 (counterexample): the name hash has no sentinel. An update whose
    name hash is all zeros, with the zero timeout that keeps the timeout,
    succeeds and overwrites the stored name [gh 8] with zeros. *)
Lemma update_balance_account_zero_name_overwrites :
  let r := update_balance_account (gh 7) (sample_account_update (zero_bytes 32) 0)
             sample_wallet_with_account in
  fst r = Ok tt /\
  option_map name_hash (nth_error (balance_accounts (snd r)) 0) = Some (zero_bytes 32) /\
  option_map approval_timeout_for_transfer (nth_error (balance_accounts (snd r)) 0) = Some 3600 /\
  name_hash sample_balance_account = gh 8 /\ gh 8 <> zero_bytes 32.
Proof. vm_compute. repeat split; discriminate. Qed.

(** C6 (amended): in [update_balance_account], for the account found
    under the guid hash: a positive requested timeout that fails
    [validate_approval_timeout] makes the call fail with the wallet
    unchanged; on success the stored timeout is the requested one when it
    is positive and the old one when it is zero, and the stored name hash
    is always the requested one (there is no value that keeps it). *)
Theorem update_balance_account_name_and_timeout :
  forall (g : list byte) (u : BalanceAccountUpdate) (w : Wallet) (idx : nat) (ba : BalanceAccount),
  position_guid (balance_accounts w) g = Some idx ->
  nth_error (balance_accounts w) idx = Some ba ->
  (0 < bau_approval_timeout_for_transfer u ->
   forall e, validate_approval_timeout (bau_approval_timeout_for_transfer u) = Err e ->
   update_balance_account g u w = (Err e, w)) /\
  (forall w', update_balance_account g u w = (Ok tt, w') ->
   exists ba', nth_error (balance_accounts w') idx = Some ba' /\
     guid_hash ba' = guid_hash ba /\
     name_hash ba' = bau_name_hash u /\
     approval_timeout_for_transfer ba' =
       (if 0 <? bau_approval_timeout_for_transfer u
        then bau_approval_timeout_for_transfer u else approval_timeout_for_transfer ba)).
Proof.
  intros g u w idx ba Hpos Hba. split.
  - intros T e V. exact (update_balance_account_bad_timeout g u w idx e Hpos T V).
  - intros w' H.
    destruct (update_balance_account_success g u w w' idx ba Hpos Hba H)
      as (ba' & N & G & Nm & _ & Tm & _).
    exists ba'. auto.
Qed.

Lemma update_balance_account_name_and_timeout_witness :
  position_guid (balance_accounts sample_wallet_with_account) (gh 7) = Some 0%nat /\
  nth_error (balance_accounts sample_wallet_with_account) 0 = Some sample_balance_account /\
  ((0 < bau_approval_timeout_for_transfer (sample_account_update (gh 5) 0) ->
    forall e, validate_approval_timeout
                (bau_approval_timeout_for_transfer (sample_account_update (gh 5) 0)) = Err e ->
    update_balance_account (gh 7) (sample_account_update (gh 5) 0) sample_wallet_with_account
    = (Err e, sample_wallet_with_account)) /\
   (forall w', update_balance_account (gh 7) (sample_account_update (gh 5) 0)
                 sample_wallet_with_account = (Ok tt, w') ->
    exists ba', nth_error (balance_accounts w') 0 = Some ba' /\
      guid_hash ba' = guid_hash sample_balance_account /\
      name_hash ba' = bau_name_hash (sample_account_update (gh 5) 0) /\
      approval_timeout_for_transfer ba' =
        (if 0 <? bau_approval_timeout_for_transfer (sample_account_update (gh 5) 0)
         then bau_approval_timeout_for_transfer (sample_account_update (gh 5) 0)
         else approval_timeout_for_transfer sample_balance_account))).
Proof.
  split; [reflexivity|]. split; [reflexivity|].
  apply (update_balance_account_name_and_timeout (gh 7) (sample_account_update (gh 5) 0)
           sample_wallet_with_account 0 sample_balance_account); reflexivity.
Defined.

(** ** C2: what a failed mutation leaves behind *)

(** C2 (counterexample): [update] writes the new threshold before it
    checks it. Asking for 0 approvals fails with [InvalidArgument], and the
    wallet handed back holds threshold 0 instead of 1. *)
Lemma update_failure_keeps_threshold_write :
  let r := update (mkWalletUpdate 0 0 [] [] [] [] [] []) sample_wallet in
  fst r = Err InvalidArgument /\
  approvals_required_for_config (snd r) = 0 /\
  approvals_required_for_config sample_wallet = 1.
Proof. vm_compute. repeat split. Qed.

(** C2 (amended): a failed mutation is not rolled back, but what it can
    have written is bounded.
    - A failed [update] may have written the threshold, the timeout, the
      signer slots, the config approvers and the address book; the
      initialisation flag, the assistant, the balance accounts and the
      policy lock are as before.
    - A failed [update_config_policy] may have written the threshold, the
      timeout and the config approvers; every other field is as before.
    - A failed [update_balance_account] leaves every field outside the
      balance accounts and every balance account but the one found under
      the guid hash as before; when no account has that guid hash, or the
      positive requested timeout fails its range check, it leaves the whole
      wallet as before. *)
Theorem failed_mutations_frame :
  forall (w w' : Wallet) (e : ProgramError) (u : WalletUpdate)
         (cu : WalletConfigPolicyUpdate) (g : list byte) (bu : BalanceAccountUpdate),
  (update u w = (Err e, w') -> update_untouched w' = update_untouched w) /\
  (update_config_policy cu w = (Err e, w') ->
   outside_config_policy w' = outside_config_policy w) /\
  (update_balance_account g bu w = (Err e, w') ->
   outside_balance_accounts w' = outside_balance_accounts w /\
   (position_guid (balance_accounts w) g = None -> w' = w) /\
   (forall idx, position_guid (balance_accounts w) g = Some idx ->
    other_accounts idx w' = other_accounts idx w /\
    (0 < bau_approval_timeout_for_transfer bu ->
     validate_approval_timeout (bau_approval_timeout_for_transfer bu) <> Ok tt -> w' = w))).
Proof.
  intros w w' e u cu g bu. split; [|split].
  - intros H. exact (keeps_step _ _ _ _ _ (update_keeps_untouched u) H).
  - intros H. exact (keeps_step _ _ _ _ _ (update_config_policy_keeps_outside cu) H).
  - intros H. split; [|split].
    + destruct (position_guid (balance_accounts w) g) as [idx|] eqn:Hpos.
      * exact (update_balance_account_keeps_at _ idx g bu w _ w' Hpos
                 (outside_balance_accounts_mod idx) H).
      * rewrite (update_balance_account_not_found g bu w Hpos) in H.
        inversion H. reflexivity.
    + intros Hpos. rewrite (update_balance_account_not_found g bu w Hpos) in H.
      inversion H. reflexivity.
    + intros idx Hpos. split.
      * exact (update_balance_account_keeps_at _ idx g bu w _ w' Hpos
                 (other_accounts_mod idx) H).
      * intros T V.
        destruct (validate_approval_timeout (bau_approval_timeout_for_transfer bu))
          as [[]|e'] eqn:E; [contradiction|].
        rewrite (update_balance_account_bad_timeout g bu w idx e' Hpos T E) in H.
        inversion H. reflexivity.
Qed.

(** ** C3: the guard of signer removal *)

Lemma bind_ok_step {A B} (m : M A) (k : A -> M B) w a w1 :
  m w = (Ok a, w1) -> bind m k w = k a w1.
Proof. intros E. unfold bind. rewrite E. reflexivity. Qed.

Lemma bind_err_step {A B} (m : M A) (k : A -> M B) w e w1 :
  m w = (Err e, w1) -> bind m k w = (Err e, w1).
Proof. intros E. unfold bind. rewrite E. reflexivity. Qed.

Lemma testbit_nth_update_nth_clearbit (l : SlotFlags) i j n k :
  (i <> j \/ n <> k) ->
  Z.testbit (nth j (update_nth l i (fun b => Z.clearbit b n)) 0) k = Z.testbit (nth j l 0) k.
Proof.
  revert i j. induction l as [|a t IH]; intros [|i] [|j] Hne; simpl; auto.
  - apply Z.clearbit_neq. destruct Hne; [congruence | assumption].
  - apply IH. destruct Hne; [left; congruence | right; assumption].
Qed.

Lemma is_enabled_disable_other (f : SlotFlags) id id' :
  id <> id' -> is_enabled (disable f id) id' = is_enabled f id'.
Proof.
  intros Hne. unfold is_enabled, disable. apply testbit_nth_update_nth_clearbit.
  destruct (Nat.eq_dec (id / 8) (id' / 8)) as [Eq|Neq]; [right|left; exact Neq].
  intros Hm. apply Nat2Z.inj in Hm. apply Hne.
  rewrite (Nat.div_mod_eq id 8), (Nat.div_mod_eq id' 8), Eq, Hm. reflexivity.
Qed.

Lemma disable_config_approvers_other l w w' id :
  ~ In id (slot_ids l) -> disable_config_approvers l w = (Ok tt, w') ->
  is_enabled (config_approvers w') id = is_enabled (config_approvers w) id.
Proof.
  revert w. induction l as [|[id0 s0] t IH]; intros w Hni H; simpl in H.
  - inversion H. reflexivity.
  - unfold bind at 1, get in H.
    destruct (slot_matches_or_empty _ _ _); [|discriminate].
    unfold bind, put in H.
    rewrite (IH _ (fun Hin => Hni (or_intror Hin)) H). simpl.
    apply is_enabled_disable_other. intros ->. apply Hni. left. reflexivity.
Qed.

Lemma In_slot_ids {T} (l : list (SlotId * T)) id s : In (id, s) l -> In id (slot_ids l).
Proof. intros H. unfold slot_ids. change id with (fst (id, s)). apply in_map. exact H. Qed.

(** [remove_signers] on a batch one of whose slots is enabled as an
    approver fails and hands the wallet back as it was. *)
Lemma remove_signers_in_use w l id s :
  In (id, s) l ->
  (is_enabled (config_approvers w) id = true \/
   exists ba, In ba (balance_accounts w) /\ is_enabled (transfer_approvers ba) id = true) ->
  exists e, remove_signers l w = (Err e, w).
Proof.
  intros Hin Hused. unfold remove_signers, bind, get. simpl.
  destruct (negb _); [eexists; reflexivity|].
  destruct (any_enabled _ _) eqn:Ca; [eexists; reflexivity|].
  destruct (existsb _ _) eqn:Cb; [eexists; reflexivity|].
  exfalso. destruct Hused as [Hc | (ba & Hba & Ht)].
  - assert (any_enabled (config_approvers w) (slot_ids l) = true) by
      (apply existsb_exists; exists id; split; [exact (In_slot_ids l id s Hin) | exact Hc]).
    congruence.
  - assert (existsb (fun ba => any_enabled (transfer_approvers ba) (slot_ids l))
              (balance_accounts w) = true).
    { apply existsb_exists. exists ba. split; [exact Hba|].
      apply existsb_exists. exists id. split; [exact (In_slot_ids l id s Hin) | exact Ht]. }
    congruence.
Qed.

(** C3 (counterexample): [update] disables the config approvers it is
    asked to disable before it removes signers, so one request can both
    disable signer 1 (slot 0, a config approver) and remove it: it
    succeeds and slot 0 is emptied. *)
Lemma update_removes_enabled_config_approver :
  let u := mkWalletUpdate 1 0 [] [(0%nat, sg 1)] [] [(0%nat, sg 1)] [] [] in
  is_enabled (config_approvers sample_wallet) 0%nat = true /\
  slot_get (signers sample_wallet) 0%nat = Some (sg 1) /\
  fst (update u sample_wallet) = Ok tt /\
  slot_get (signers (snd (update u sample_wallet))) 0%nat = None.
Proof. vm_compute. repeat split. Qed.

(** C3 (amended): when the slot of a signer in the batch is enabled as a
    config approver or as a transfer approver of some balance account,
    [remove_signers] and [remove_signer] fail with the wallet unchanged. A
    [Wallet::update] removing that batch fails with the signer slots
    unchanged when the signer is a transfer approver, or when the same
    update does not disable it as a config approver; an update that does
    disable it may remove it (see the counterexample above). *)
Theorem remove_signers_guard :
  forall (w : Wallet) (l : list (SlotId * Signer)) (id : SlotId) (s : Signer),
  In (id, s) l ->
  (is_enabled (config_approvers w) id = true \/
   exists ba, In ba (balance_accounts w) /\ is_enabled (transfer_approvers ba) id = true) ->
  (exists e, remove_signers l w = (Err e, w)) /\
  (exists e, remove_signer (id, s) w = (Err e, w)) /\
  (forall u, wu_remove_signers u = l ->
   (~ In id (slot_ids (wu_remove_config_approvers u)) \/
    exists ba, In ba (balance_accounts w) /\ is_enabled (transfer_approvers ba) id = true) ->
   exists e w', update u w = (Err e, w') /\ signers w' = signers w).
Proof.
  intros w l id s Hin Hused. split; [|split].
  - exact (remove_signers_in_use w l id s Hin Hused).
  - apply (remove_signers_in_use w [(id, s)] id s); [left; reflexivity | exact Hused].
  - intros u Hl Hcase. unfold update.
    rewrite (bind_ok_step _ _ w tt
               (set_approvals_required_for_config (wu_approvals_required_for_config u) w))
      by reflexivity.
    set (w1 := set_approvals_required_for_config _ w).
    assert (E2 : exists w2,
      (if 0 <? wu_approval_timeout_for_config u
       then modify (set_approval_timeout_for_config (wu_approval_timeout_for_config u))
       else ret tt) w1 = (Ok tt, w2) /\ outside_config_policy w2 = outside_config_policy w /\
       config_approvers w2 = config_approvers w).
    { destruct (0 <? _); eexists; repeat split. }
    destruct E2 as (w2 & E2 & O2 & C2). rewrite (bind_ok_step _ _ _ _ _ E2).
    destruct (disable_config_approvers (wu_remove_config_approvers u) w2)
      as [[[]|e] w3] eqn:E3.
    + rewrite (bind_ok_step _ _ _ _ _ E3).
      pose proof (keeps_step _ _ _ _ _ (disable_config_approvers_keeps_outside _) E3) as O3.
      rewrite O2 in O3. unfold outside_config_policy in O3.
      injection O3 as Ei Es Ea Eab Eb El.
      assert (Hused3 : is_enabled (config_approvers w3) id = true \/
        exists ba, In ba (balance_accounts w3) /\ is_enabled (transfer_approvers ba) id = true).
      { destruct Hcase as [Hni | Ht].
        - destruct Hused as [Hc | Ht].
          + left. rewrite (disable_config_approvers_other _ _ _ id Hni E3), C2. exact Hc.
          + right. rewrite Eb. exact Ht.
        - right. rewrite Eb. exact Ht. }
      rewrite Hl.
      destruct (remove_signers_in_use w3 l id s Hin Hused3) as [e E4].
      rewrite (bind_err_step _ _ _ _ _ E4). exists e, w3. split; [reflexivity | exact Es].
    + rewrite (bind_err_step _ _ _ _ _ E3).
      pose proof (keeps_step _ _ _ _ _ (disable_config_approvers_keeps_outside _) E3) as O3.
      rewrite O2 in O3. unfold outside_config_policy in O3.
      injection O3 as Ei Es Ea Eab Eb El.
      exists e, w3. split; [reflexivity | exact Es].
Qed.

(** Witness: signer 2 (slot 1) of [sample_wallet] is a config approver. *)
Lemma remove_signers_guard_witness :
  In (1%nat, sg 2) [(1%nat, sg 2)] /\
  (is_enabled (config_approvers sample_wallet) 1%nat = true \/
   exists ba, In ba (balance_accounts sample_wallet) /\
              is_enabled (transfer_approvers ba) 1%nat = true) /\
  ((exists e, remove_signers [(1%nat, sg 2)] sample_wallet = (Err e, sample_wallet)) /\
   (exists e, remove_signer (1%nat, sg 2) sample_wallet = (Err e, sample_wallet)) /\
   (forall u, wu_remove_signers u = [(1%nat, sg 2)] ->
    (~ In 1%nat (slot_ids (wu_remove_config_approvers u)) \/
     exists ba, In ba (balance_accounts sample_wallet) /\
                is_enabled (transfer_approvers ba) 1%nat = true) ->
    exists e w', update u sample_wallet = (Err e, w') /\ signers w' = signers sample_wallet)).
Proof.
  split; [left; reflexivity|]. split; [left; reflexivity|].
  apply (remove_signers_guard sample_wallet [(1%nat, sg 2)] 1%nat (sg 2));
    [left; reflexivity | left; reflexivity].
Defined.

(** ** C1: thresholds after a successful mutation *)

(** C1 (failing input): [add_balance_account] appends the new account and
    then runs [update_balance_account] under its guid hash, which edits and
    checks the first account with that guid hash. When the wallet already
    holds an account with the same guid hash, the call succeeds and leaves
    the appended account with threshold 0 and no enabled transfer
    approver. *)
Theorem add_balance_account_duplicate_guid :
  let r := add_balance_account (gh 7) (sample_account_update (gh 8) 0)
             sample_wallet_with_account in
  guid_hash sample_balance_account = gh 7 /\
  fst r = Ok tt /\
  nth_error (balance_accounts (snd r)) 1 = Some (new_balance_account (gh 7)) /\
  approvals_required_for_transfer (new_balance_account (gh 7)) = 0 /\
  count_enabled (transfer_approvers (new_balance_account (gh 7))) = 0%nat.
Proof. vm_compute. repeat split. Qed.

(** ** C5: the packed layouts *)

(** *** Little-endian integers *)

Lemma length_to_le_bytes n x : length (to_le_bytes n x) = n.
Proof. revert x. induction n; intros x; simpl; auto. Qed.

Lemma bytes_ok_to_le_bytes n x : bytes_ok (to_le_bytes n x) = true.
Proof.
  revert x. induction n; intros x; simpl; [reflexivity|].
  rewrite IHn. unfold byte_ok.
  assert (0 <= x mod 256 < 256) by (apply Z.mod_pos_bound; lia).
  rewrite (proj2 (Z.leb_le _ _)), (proj2 (Z.ltb_lt _ _)) by lia. reflexivity.
Qed.

Lemma from_to_le_bytes n x :
  0 <= x < 256 ^ Z.of_nat n -> from_le_bytes (to_le_bytes n x) = x.
Proof.
  revert x. induction n; intros x Hx; cbn [to_le_bytes from_le_bytes].
  - simpl in Hx. lia.
  - rewrite IHn.
    + pose proof (Z.div_mod x 256 ltac:(lia)). lia.
    + rewrite Nat2Z.inj_succ, Z.pow_succ_r in Hx by lia. split.
      * apply Z.div_pos; lia.
      * apply Z.div_lt_upper_bound; lia.
Qed.

Lemma from_le_bytes_range l :
  bytes_ok l = true -> 0 <= from_le_bytes l < 256 ^ Z.of_nat (length l).
Proof.
  induction l as [|b t IH]; intros H; cbn [from_le_bytes length]; [simpl; lia|].
  unfold bytes_ok in H. simpl in H. apply andb_true_iff in H as [Hb Ht].
  unfold byte_ok in Hb. apply andb_true_iff in Hb as [H1 H2].
  apply Z.leb_le in H1. apply Z.ltb_lt in H2. specialize (IH Ht).
  rewrite Nat2Z.inj_succ, Z.pow_succ_r by lia. lia.
Qed.

Lemma to_from_le_bytes l : bytes_ok l = true -> to_le_bytes (length l) (from_le_bytes l) = l.
Proof.
  induction l as [|b t IH]; intros H; cbn [length to_le_bytes from_le_bytes]; [reflexivity|].
  unfold bytes_ok in H. simpl in H. apply andb_true_iff in H as [Hb Ht].
  unfold byte_ok in Hb. apply andb_true_iff in Hb as [H1 H2].
  apply Z.leb_le in H1. apply Z.ltb_lt in H2.
  f_equal.
  - rewrite (Z.mul_comm 256), Z.mod_add by lia. apply Z.mod_small. lia.
  - rewrite (Z.mul_comm 256), Z.div_add by lia.
    rewrite (Z.div_small b 256) by lia. exact (IH Ht).
Qed.

(** *** Cutting lists *)

Lemma firstn_app_len {A} (a b : list A) n : length a = n -> firstn n (a ++ b) = a.
Proof. intros <-. rewrite firstn_app, Nat.sub_diag, firstn_all. simpl. apply app_nil_r. Qed.

Lemma skipn_app_len {A} (a b : list A) n : length a = n -> skipn n (a ++ b) = b.
Proof. intros <-. rewrite skipn_app, Nat.sub_diag, skipn_all. reflexivity. Qed.

Lemma bytes_ok_app a b : bytes_ok (a ++ b) = bytes_ok a && bytes_ok b.
Proof. unfold bytes_ok. apply forallb_app. Qed.

(** A list of length at least [n] is a piece of length [n] and the rest. *)
Lemma cut_at {A} (l : list A) n :
  (n <= length l)%nat -> exists a b, l = a ++ b /\ length a = n /\ length b = (length l - n)%nat.
Proof.
  intros H. exists (firstn n l), (skipn n l). split; [symmetry; apply firstn_skipn|].
  rewrite firstn_length_le by exact H. rewrite length_skipn. auto.
Qed.

Lemma length_one {A} (l : list A) : length l = 1%nat -> exists x, l = [x].
Proof. destruct l as [|x [|y t]]; simpl; intros H; try discriminate. eauto. Qed.

Ltac bool_facts :=
  repeat match goal with
  | H : (_ && _) = true |- _ => apply andb_true_iff in H as [? ?]
  | H : (_ =? _)%nat = true |- _ => apply Nat.eqb_eq in H
  | H : (_ <=? _)%nat = true |- _ => apply Nat.leb_le in H
  | H : (_ <=? _) = true |- _ => apply Z.leb_le in H
  | H : (_ <? _) = true |- _ => apply Z.ltb_lt in H
  end.

(** *** [BalanceAccount] *)

Lemma boolean_settings_bits d we de :
  Z.land d 3 = 0 ->
  BooleanSetting_from_u8
    (Z.land (Z.lor (Z.lor d (Z.shiftl (BooleanSetting_to_u8 we) WHITELIST_SETTING_BIT))
                   (Z.shiftl (BooleanSetting_to_u8 de) DAPPS_SETTING_BIT))
            (Z.shiftl 1 WHITELIST_SETTING_BIT)) = we /\
  BooleanSetting_from_u8
    (Z.land (Z.lor (Z.lor d (Z.shiftl (BooleanSetting_to_u8 we) WHITELIST_SETTING_BIT))
                   (Z.shiftl (BooleanSetting_to_u8 de) DAPPS_SETTING_BIT))
            (Z.shiftl 1 DAPPS_SETTING_BIT)) = de.
Proof.
  intros Hd.
  assert (H1 : Z.land d 1 = 0) by
    (change 1 with (Z.land 3 1); rewrite Z.land_assoc, Hd; reflexivity).
  assert (H2 : Z.land d 2 = 0) by
    (change 2 with (Z.land 3 2); rewrite Z.land_assoc, Hd; reflexivity).
  cbv [WHITELIST_SETTING_BIT DAPPS_SETTING_BIT].
  rewrite !Z.land_lor_distr_l. change (Z.shiftl 1 0) with 1. change (Z.shiftl 1 1) with 2.
  rewrite H1, H2. destruct we, de; split; reflexivity.
Qed.

Lemma pow_256_8 : 256 ^ Z.of_nat 8 = 2 ^ 64.
Proof. reflexivity. Qed.

Ltac piece_lengths :=
  first [ assumption | reflexivity | apply length_to_le_bytes
        | symmetry; assumption ].

(** Unpacking a packed [BalanceAccount] gives it back, whatever the
    buffer held before, as long as bits 0 and 1 of its boolean-settings
    byte were clear. *)
Lemma BalanceAccount_unpack_pack_chunk b dst :
  wf_BalanceAccount b = true -> Z.land (nth 92 dst 0) 3 = 0 ->
  BalanceAccount_unpack_chunk (BalanceAccount_pack_chunk b dst) = b.
Proof.
  destruct b as [g n a t ap ds we de lk]. unfold wf_BalanceAccount.
  cbn [guid_hash name_hash approvals_required_for_transfer approval_timeout_for_transfer
       transfer_approvers allowed_destinations whitelist_enabled dapps_enabled
       policy_update_locked].
  intros Hwf Hd. bool_facts.
  unfold BalanceAccount_pack_chunk, BalanceAccount_unpack_chunk, split_at.
  cbv beta iota zeta.
  cbn [guid_hash name_hash approvals_required_for_transfer approval_timeout_for_transfer
       transfer_approvers allowed_destinations whitelist_enabled dapps_enabled
       policy_update_locked].
  repeat first [ rewrite skipn_app_len by piece_lengths
               | rewrite firstn_app_len by piece_lengths ].
  cbn [hd]. rewrite hd_firstn1, !skipn_skipn, hd_skipn.
  change (nth (_ + _) dst 0) with (nth 92 dst 0).
  destruct (boolean_settings_bits (nth 92 dst 0) we de Hd) as [-> ->].
  unfold u64_from_le_bytes, u64_to_le_bytes. rewrite from_to_le_bytes by (rewrite pow_256_8; lia).
  destruct lk; reflexivity.
Qed.

Lemma BalanceAccount_pack_chunk_eq b dst :
  BalanceAccount_pack_chunk b dst =
  b.(guid_hash) ++ b.(name_hash) ++ [b.(approvals_required_for_transfer)]
  ++ u64_to_le_bytes b.(approval_timeout_for_transfer)
  ++ b.(transfer_approvers) ++ b.(allowed_destinations)
  ++ [Z.lor (Z.lor (nth 92 dst 0)
                   (Z.shiftl (BooleanSetting_to_u8 b.(whitelist_enabled)) WHITELIST_SETTING_BIT))
            (Z.shiftl (BooleanSetting_to_u8 b.(dapps_enabled)) DAPPS_SETTING_BIT)]
  ++ [if b.(policy_update_locked) then 1 else 0].
Proof.
  unfold BalanceAccount_pack_chunk, split_at. cbv beta iota zeta.
  rewrite hd_firstn1, !skipn_skipn, hd_skipn. reflexivity.
Qed.

Lemma BalanceAccount_unpack_chunk_app (g n t ap ds : list byte) (a bs lk : Z) :
  length g = GUID_HASH_BYTES -> length n = NAME_HASH_BYTES -> length t = 8%nat ->
  length ap = APPROVERS_STORAGE_SIZE -> length ds = ALLOWED_DESTINATIONS_STORAGE_SIZE ->
  BalanceAccount_unpack_chunk (g ++ n ++ [a] ++ t ++ ap ++ ds ++ [bs] ++ [lk]) =
  mkBalanceAccount g n a (from_le_bytes t) ap ds
    (BooleanSetting_from_u8 (Z.land bs (Z.shiftl 1 WHITELIST_SETTING_BIT)))
    (BooleanSetting_from_u8 (Z.land bs (Z.shiftl 1 DAPPS_SETTING_BIT)))
    (if lk =? 1 then true else false).
Proof.
  intros. unfold BalanceAccount_unpack_chunk, split_at. cbv beta iota zeta.
  repeat first [ rewrite skipn_app_len by piece_lengths
               | rewrite firstn_app_len by piece_lengths ].
  reflexivity.
Qed.

Lemma BalanceAccount_bytes_shape (src : list byte) :
  length src = BalanceAccount_LEN ->
  exists (g n : list byte) (a : byte) (t ap ds : list byte) (bs lk : byte),
    src = g ++ n ++ [a] ++ t ++ ap ++ ds ++ [bs] ++ [lk] /\
    length g = GUID_HASH_BYTES /\ length n = NAME_HASH_BYTES /\ length t = 8%nat /\
    length ap = APPROVERS_STORAGE_SIZE /\ length ds = ALLOWED_DESTINATIONS_STORAGE_SIZE.
Proof.
  intros H. cbn in H.
  destruct (cut_at src 32) as (g & r1 & -> & L1 & L1'); [lia|].
  destruct (cut_at r1 32) as (n & r2 & -> & L2 & L2'); [lia|].
  destruct (cut_at r2 1) as (a' & r3 & -> & L3 & L3'); [lia|].
  destruct (length_one a' L3) as [a ->].
  destruct (cut_at r3 8) as (t & r4 & -> & L4 & L4'); [lia|].
  destruct (cut_at r4 3) as (ap & r5 & -> & L5 & L5'); [lia|].
  destruct (cut_at r5 16) as (ds & r6 & -> & L6 & L6'); [lia|].
  destruct r6 as [|bs [|lk [|x r7]]]; cbn [length] in *; try lia.
  exists g, n, a, t, ap, ds, bs, lk. repeat split; assumption.
Qed.

Lemma nth_app_len {A} (a b : list A) n k d : length a = n -> nth (n + k) (a ++ b) d = nth k b d.
Proof. intros <-. rewrite app_nth2 by lia. f_equal. lia. Qed.

Lemma bytes_ok_cons b l : bytes_ok (b :: l) = byte_ok b && bytes_ok l.
Proof. reflexivity. Qed.

Lemma byte_ok_range b : byte_ok b = true -> 0 <= b < 256.
Proof. unfold byte_ok. intros H. bool_facts. lia. Qed.

(** Encoding the decoded record of canonical bytes, over a buffer whose
    boolean-settings byte is 0, gives the bytes back; the decoded record
    is well-formed. *)
Lemma BalanceAccount_pack_unpack_canonical (src dst : list byte) :
  canonical_BalanceAccount_bytes src = true -> nth 92 dst 0 = 0 ->
  wf_BalanceAccount (BalanceAccount_unpack_chunk src) = true /\
  BalanceAccount_pack_chunk (BalanceAccount_unpack_chunk src) dst = src.
Proof.
  unfold canonical_BalanceAccount_bytes. intros Hc Hd.
  apply andb_true_iff in Hc as [Hc H93]. apply andb_true_iff in Hc as [Hc H92].
  apply andb_true_iff in Hc as [Hlen Hok]. apply Nat.eqb_eq in Hlen.
  apply Z.leb_le in H92, H93.
  destruct (BalanceAccount_bytes_shape src Hlen)
    as (g & n & a & t & ap & ds & bs & lk & -> & Lg & Ln & Lt & Lap & Lds).
  assert (E92 : nth 92 (g ++ n ++ [a] ++ t ++ ap ++ ds ++ [bs] ++ [lk]) 0 = bs).
  { change 92%nat with (32 + (32 + (1 + (8 + (3 + (16 + 0))))))%nat.
    rewrite !nth_app_len by piece_lengths. reflexivity. }
  assert (E93 : nth 93 (g ++ n ++ [a] ++ t ++ ap ++ ds ++ [bs] ++ [lk]) 0 = lk).
  { change 93%nat with (32 + (32 + (1 + (8 + (3 + (16 + 1))))))%nat.
    rewrite !nth_app_len by piece_lengths. reflexivity. }
  rewrite E92 in H92. rewrite E93 in H93.
  rewrite !bytes_ok_app in Hok. cbn [bytes_ok forallb] in Hok. bool_facts.
  repeat match goal with H : byte_ok ?x = true |- _ =>
    apply byte_ok_range in H end.
  assert (Ht : bytes_ok t = true) by assumption.
  rewrite BalanceAccount_unpack_chunk_app by assumption.
  split.
  - unfold wf_BalanceAccount. cbn [guid_hash name_hash approvals_required_for_transfer
      approval_timeout_for_transfer transfer_approvers allowed_destinations].
    assert (Rt : 0 <= from_le_bytes t < 2 ^ 64)
      by (rewrite <- pow_256_8, <- Lt; apply from_le_bytes_range; exact Ht).
    rewrite Lg, Ln, Lap, Lds, !Nat.eqb_refl.
    unfold byte_ok. rewrite !(proj2 (Z.leb_le _ _)), !(proj2 (Z.ltb_lt _ _)) by lia.
    repeat (apply andb_true_iff; split); first [assumption | reflexivity].
  - rewrite BalanceAccount_pack_chunk_eq, Hd. cbn [guid_hash name_hash
      approvals_required_for_transfer approval_timeout_for_transfer transfer_approvers
      allowed_destinations whitelist_enabled dapps_enabled policy_update_locked].
    unfold u64_to_le_bytes. rewrite <- Lt, to_from_le_bytes by exact Ht.
    assert (Hbs : bs = 0 \/ bs = 1 \/ bs = 2 \/ bs = 3) by lia.
    assert (Hlk : lk = 0 \/ lk = 1) by lia.
    destruct Hbs as [-> | [-> | [-> | ->]]]; destruct Hlk as [-> | ->]; reflexivity.
Qed.

(** *** The balance-account region of the wallet *)

Lemma length_BalanceAccount_pack_chunk b dst :
  wf_BalanceAccount b = true -> length (BalanceAccount_pack_chunk b dst) = BalanceAccount_LEN.
Proof.
  destruct b. unfold wf_BalanceAccount. cbn [guid_hash name_hash transfer_approvers
    allowed_destinations]. intros H. bool_facts.
  rewrite BalanceAccount_pack_chunk_eq. cbn [guid_hash name_hash transfer_approvers
    allowed_destinations approval_timeout_for_transfer].
  rewrite !length_app. unfold u64_to_le_bytes. rewrite length_to_le_bytes.
  repeat match goal with H : length _ = _ |- _ => rewrite H end. reflexivity.
Qed.

Lemma chunks_exact_concat n k (cs : list (list byte)) :
  Forall (fun c => length c = n) cs -> length cs = k -> chunks_exact n k (concat cs) = cs.
Proof.
  intros Hf <-. induction Hf as [|c cs Hc Hf IH]; simpl; [reflexivity|].
  rewrite firstn_app_len, skipn_app_len by exact Hc. rewrite IH. reflexivity.
Qed.

Lemma concat_chunks_exact n k (l : list byte) :
  length l = (n * k)%nat -> concat (chunks_exact n k l) = l.
Proof.
  revert l. induction k as [|k IH]; intros l Hl; simpl.
  - rewrite Nat.mul_0_r in Hl. destruct l; [reflexivity | discriminate].
  - rewrite IH; [apply firstn_skipn|]. rewrite length_skipn. lia.
Qed.

Lemma length_chunks_exact n k (l : list byte) : length (chunks_exact n k l) = k.
Proof. revert l. induction k; intros l; simpl; auto. Qed.

Lemma chunks_exact_lengths n k (l : list byte) :
  length l = (n * k)%nat -> Forall (fun c => length c = n) (chunks_exact n k l).
Proof.
  revert l. induction k as [|k IH]; intros l Hl; simpl; constructor.
  - rewrite firstn_length_le; [reflexivity | lia].
  - apply IH. rewrite length_skipn. lia.
Qed.

Lemma pack_chunks_repeat bas z k :
  (length bas <= k)%nat ->
  pack_chunks bas (repeat z k) =
  map (fun b => BalanceAccount_pack_chunk b z) bas ++ repeat z (k - length bas).
Proof.
  revert k. induction bas as [|b bs IH]; intros k Hk; simpl.
  - destruct k; rewrite Nat.sub_0_r; reflexivity.
  - destruct k as [|k]; simpl in Hk; [lia|]. simpl. rewrite IH by lia. reflexivity.
Qed.

Lemma zero_region :
  chunks_exact BalanceAccount_LEN MAX_BALANCE_ACCOUNTS (zero_bytes BALANCE_ACCOUNTS_REGION)
  = repeat (zero_bytes BalanceAccount_LEN) MAX_BALANCE_ACCOUNTS.
Proof. vm_compute. reflexivity. Qed.

Lemma Forall_repeat_length (z : list byte) k : Forall (fun c => length c = length z) (repeat z k).
Proof. induction k; simpl; constructor; auto. Qed.

(** The region written for at most ten well-formed accounts. *)
Lemma balance_account_region bas :
  (length bas <= MAX_BALANCE_ACCOUNTS)%nat -> forallb wf_BalanceAccount bas = true ->
  let cs := pack_chunks bas (chunks_exact BalanceAccount_LEN MAX_BALANCE_ACCOUNTS
                                (zero_bytes BALANCE_ACCOUNTS_REGION)) in
  cs = map (fun b => BalanceAccount_pack_chunk b (zero_bytes BalanceAccount_LEN)) bas
       ++ repeat (zero_bytes BalanceAccount_LEN) (MAX_BALANCE_ACCOUNTS - length bas) /\
  Forall (fun c => length c = BalanceAccount_LEN) cs /\
  length cs = MAX_BALANCE_ACCOUNTS /\
  length (concat cs) = BALANCE_ACCOUNTS_REGION.
Proof.
  intros Hlen Hwf cs.
  assert (Ecs : cs = map (fun b => BalanceAccount_pack_chunk b (zero_bytes BalanceAccount_LEN)) bas
       ++ repeat (zero_bytes BalanceAccount_LEN) (MAX_BALANCE_ACCOUNTS - length bas))
    by (subst cs; rewrite zero_region; apply pack_chunks_repeat; exact Hlen).
  assert (Hf : Forall (fun c => length c = BalanceAccount_LEN) cs).
  { rewrite Ecs. apply Forall_app. split.
    - apply Forall_forall. intros c Hc. apply in_map_iff in Hc as (b & <- & Hb).
      apply length_BalanceAccount_pack_chunk. rewrite forallb_forall in Hwf. auto.
    - apply (Forall_repeat_length (zero_bytes BalanceAccount_LEN)). }
  assert (Hl : length cs = MAX_BALANCE_ACCOUNTS)
    by (rewrite Ecs, length_app, length_map, repeat_length; lia).
  split; [exact Ecs|]. split; [exact Hf|]. split; [exact Hl|].
  unfold BALANCE_ACCOUNTS_REGION.
  assert (G : forall cs0 : list (list byte), Forall (fun c => length c = BalanceAccount_LEN) cs0 ->
            length (concat cs0) = (BalanceAccount_LEN * length cs0)%nat).
  { intros cs0 H0. induction H0 as [|c cs1 Hc H1 IH]; cbn [concat length]; [lia|].
    rewrite length_app, IH, Hc. lia. }
  rewrite G by exact Hf. rewrite Hl. reflexivity.
Qed.

(** *** [Wallet], over codecs for its three Slot Store and signer fields *)

Lemma bool_of_byte_of_bool (b : bool) : bool_of_byte (if b then 1 else 0) = Ok b.
Proof. destruct b; reflexivity. Qed.

Lemma map_unpack_pack_chunks bas :
  forallb wf_BalanceAccount bas = true ->
  map BalanceAccount_unpack_chunk
      (map (fun b => BalanceAccount_pack_chunk b (zero_bytes BalanceAccount_LEN)) bas) = bas.
Proof.
  intros Hwf. rewrite map_map. rewrite <- (map_id bas) at 2. apply map_ext_in.
  intros b Hb. apply BalanceAccount_unpack_pack_chunk; [|reflexivity].
  rewrite forallb_forall in Hwf. auto.
Qed.

Section WalletRoundTrip.
Context (sc : Codec (Slots Signer)) (ac : Codec Signer) (abc : Codec (Slots AddressBookEntry))
        (Hsc : codec_laws sc) (Hac : codec_laws ac) (Habc : codec_laws abc).

Lemma Wallet_unpack_pack_chunk w :
  wf_Wallet sc ac abc w = true -> Wallet_unpack_chunk sc ac abc (Wallet_pack_chunk sc ac abc w) = Ok w.
Proof using Hsc Hac Habc.
  destruct w as [init sg0 asst ab appr tmo ca bas lk]. unfold wf_Wallet.
  cbn [signers assistant address_book approvals_required_for_config
       approval_timeout_for_config config_approvers balance_accounts].
  intros Hwf.
  apply andb_true_iff in Hwf as [Hwf Hbas]. apply andb_true_iff in Hwf as [Hwf Hnb].
  apply andb_true_iff in Hwf as [Hwf Hcaok]. apply andb_true_iff in Hwf as [Hwf Hcal].
  apply andb_true_iff in Hwf as [Hwf Ht2]. apply andb_true_iff in Hwf as [Hwf Ht1].
  apply andb_true_iff in Hwf as [Hwf Happ]. apply andb_true_iff in Hwf as [Hwf Habw].
  apply andb_true_iff in Hwf as [Hscw Hacw].
  apply Nat.leb_le in Hnb. apply Nat.eqb_eq in Hcal. apply Z.leb_le in Ht1. apply Z.ltb_lt in Ht2.
  destruct Hsc as (Psc1 & Psc2 & _). destruct Hac as (Pac1 & Pac2 & _).
  destruct Habc as (Pabc1 & Pabc2 & _).
  destruct (Psc1 _ Hscw) as [Lsc _]. destruct (Pac1 _ Hacw) as [Lac _].
  destruct (Pabc1 _ Habw) as [Labc _].
  destruct (balance_account_region bas Hnb Hbas) as (Ecs & Fcs & Lcs & Lreg).
  unfold Wallet_pack_chunk, Wallet_unpack_chunk, split_at.
  cbn [is_initialized signers assistant address_book approvals_required_for_config
       approval_timeout_for_config config_approvers balance_accounts
       config_policy_update_locked].
  cbv beta iota zeta.
  repeat first [ rewrite skipn_app_len by piece_lengths
               | rewrite firstn_app_len by piece_lengths ].
  cbn [hd].
  rewrite !bool_of_byte_of_bool, Psc2, Pac2, Pabc2 by assumption.
  unfold u64_from_le_bytes, u64_to_le_bytes.
  rewrite from_to_le_bytes by (rewrite pow_256_8; lia).
  rewrite chunks_exact_concat by assumption.
  rewrite Z.mod_small by (unfold MAX_BALANCE_ACCOUNTS in Hnb; lia).
  rewrite Nat2Z.id, Ecs, firstn_app_len by apply length_map.
  rewrite map_unpack_pack_chunks by exact Hbas. reflexivity.
Qed.
End WalletRoundTrip.

Lemma forallb_eqb_repeat (z : list byte) l :
  forallb (fun c => eqb_of c z) l = true -> l = repeat z (length l).
Proof.
  induction l as [|c t IH]; simpl; intros H; [reflexivity|].
  apply andb_true_iff in H as [Hc Ht]. apply eqb_of_true in Hc. subst c.
  rewrite <- IH by exact Ht. reflexivity.
Qed.

Lemma bool_of_byte_canonical i :
  0 <= i -> i <= 1 -> bool_of_byte i = Ok (i =? 1) /\ (if i =? 1 then 1 else 0) = i.
Proof.
  intros H0 H1. assert (Hi : i = 0 \/ i = 1) by lia. destruct Hi as [-> | ->]; split; reflexivity.
Qed.

Lemma codec_unpack_ok {T} (c : Codec T) l :
  is_ok (codec_unpack c l) = true -> exists x, codec_unpack c l = Ok x.
Proof. destruct (codec_unpack c l) as [x|e]; simpl; intros H; [eauto | discriminate]. Qed.

Section WalletCanonical.
Context (sc : Codec (Slots Signer)) (ac : Codec Signer) (abc : Codec (Slots AddressBookEntry)).

Lemma canonical_Wallet_bytes_length src :
  canonical_Wallet_bytes sc ac abc src = true -> length src = Wallet_LEN sc ac abc.
Proof.
  unfold canonical_Wallet_bytes, split_at. cbv beta iota zeta. intros H.
  repeat (apply andb_true_iff in H as [H _]). apply Nat.eqb_eq in H. exact H.
Qed.

Lemma Wallet_bytes_shape (src : list byte) :
  length src = Wallet_LEN sc ac abc ->
  exists (i : byte) (S A AB : list byte) (ap : byte) (t ca : list byte) (cnt : byte)
         (R : list byte) (lk : byte),
    src = [i] ++ S ++ A ++ AB ++ [ap] ++ t ++ ca ++ [cnt] ++ R ++ [lk] /\
    length S = codec_len sc /\ length A = codec_len ac /\ length AB = codec_len abc /\
    length t = 8%nat /\ length ca = APPROVERS_STORAGE_SIZE /\
    length R = BALANCE_ACCOUNTS_REGION.
Proof.
  unfold Wallet_LEN. intros H.
  destruct (cut_at src 1) as (i' & r1 & -> & L1 & L1'); [lia|].
  destruct (length_one i' L1) as [i ->].
  destruct (cut_at r1 (codec_len sc)) as (S & r2 & -> & L2 & L2'); [lia|].
  destruct (cut_at r2 (codec_len ac)) as (A & r3 & -> & L3 & L3'); [lia|].
  destruct (cut_at r3 (codec_len abc)) as (AB & r4 & -> & L4 & L4'); [lia|].
  destruct (cut_at r4 1) as (ap' & r5 & -> & L5 & L5'); [lia|].
  destruct (length_one ap' L5) as [ap ->].
  destruct (cut_at r5 8) as (t & r6 & -> & L6 & L6'); [lia|].
  destruct (cut_at r6 APPROVERS_STORAGE_SIZE) as (ca & r7 & -> & L7 & L7'); [lia|].
  destruct (cut_at r7 1) as (cnt' & r8 & -> & L8 & L8'); [lia|].
  destruct (length_one cnt' L8) as [cnt ->].
  destruct (cut_at r8 BALANCE_ACCOUNTS_REGION) as (R & r9 & -> & L9 & L9'); [lia|].
  destruct r9 as [|lk [|x r10]]; cbn [length] in *; rewrite ?length_app in *;
    cbn [length] in *; try lia.
  exists i, S, A, AB, ap, t, ca, cnt, R, lk. repeat split; assumption.
Qed.
End WalletCanonical.

Section WalletCanonicalRoundTrip.
Context (sc : Codec (Slots Signer)) (ac : Codec Signer) (abc : Codec (Slots AddressBookEntry))
        (Hsc : codec_laws sc) (Hac : codec_laws ac) (Habc : codec_laws abc).

Lemma canonical_Wallet_bytes_facts (i : byte) (S A AB : list byte) (ap : byte)
    (t ca : list byte) (cnt : byte) (R : list byte) (lk : byte) :
  length S = codec_len sc -> length A = codec_len ac -> length AB = codec_len abc ->
  length t = 8%nat -> length ca = APPROVERS_STORAGE_SIZE ->
  length R = BALANCE_ACCOUNTS_REGION ->
  canonical_Wallet_bytes sc ac abc ([i] ++ S ++ A ++ AB ++ [ap] ++ t ++ ca ++ [cnt] ++ R ++ [lk])
    = true ->
  bytes_ok ([i] ++ S ++ A ++ AB ++ [ap] ++ t ++ ca ++ [cnt] ++ R ++ [lk]) = true /\
  i <= 1 /\ lk <= 1 /\
  is_ok (codec_unpack sc S) = true /\ is_ok (codec_unpack ac A) = true /\
  is_ok (codec_unpack abc AB) = true /\
  (Z.to_nat cnt <= MAX_BALANCE_ACCOUNTS)%nat /\
  forallb canonical_BalanceAccount_bytes
    (firstn (Z.to_nat cnt) (chunks_exact BalanceAccount_LEN MAX_BALANCE_ACCOUNTS R)) = true /\
  forallb (fun c => eqb_of c (zero_bytes BalanceAccount_LEN))
    (skipn (Z.to_nat cnt) (chunks_exact BalanceAccount_LEN MAX_BALANCE_ACCOUNTS R)) = true.
Proof.
  intros LS LA LAB Lt Lca LR.
  unfold canonical_Wallet_bytes, split_at. cbv beta iota zeta.
  change (1 + 8 + APPROVERS_STORAGE_SIZE)%nat with (APPROVERS_STORAGE_SIZE + (8 + 1))%nat.
  rewrite <- !skipn_skipn.
  repeat first [ rewrite skipn_app_len by piece_lengths
               | rewrite firstn_app_len by piece_lengths ].
  cbn [hd]. intros H.
  apply andb_true_iff in H as [H F2]. apply andb_true_iff in H as [H F1].
  apply andb_true_iff in H as [H Hc]. apply andb_true_iff in H as [H Uab].
  apply andb_true_iff in H as [H Ua]. apply andb_true_iff in H as [H Us].
  apply andb_true_iff in H as [H Hlk]. apply andb_true_iff in H as [H Hi].
  apply andb_true_iff in H as [_ Hok].
  apply Z.leb_le in Hi, Hlk. apply Nat.leb_le in Hc.
  repeat split; assumption.
Qed.
Lemma Wallet_pack_unpack_canonical src :
  canonical_Wallet_bytes sc ac abc src = true ->
  exists w, Wallet_unpack_chunk sc ac abc src = Ok w /\ wf_Wallet sc ac abc w = true /\
            Wallet_pack_chunk sc ac abc w = src.
Proof using Hsc Hac Habc.
  intros Hc. pose proof (canonical_Wallet_bytes_length sc ac abc src Hc) as Hlen.
  destruct (Wallet_bytes_shape sc ac abc src Hlen)
    as (i & S & A & AB & ap & t & ca & cnt & R & lk & -> & LS & LA & LAB & Lt & Lca & LR).
  destruct (canonical_Wallet_bytes_facts i S A AB ap t ca cnt R lk LS LA LAB Lt Lca LR Hc)
    as (Hok & Hi & Hlk & Us & Ua & Uab & Hcnt & Fc & Fz).
  clear Hc Hlen.
  rewrite !bytes_ok_app in Hok. cbn [bytes_ok forallb] in Hok.
  apply andb_true_iff in Hok as [Bi Hok]. apply andb_true_iff in Hok as [BS Hok].
  apply andb_true_iff in Hok as [BA Hok]. apply andb_true_iff in Hok as [BAB Hok].
  apply andb_true_iff in Hok as [Bap Hok]. apply andb_true_iff in Hok as [Bt Hok].
  apply andb_true_iff in Hok as [Bca Hok]. apply andb_true_iff in Hok as [Bcnt Hok].
  apply andb_true_iff in Hok as [BR Blk].
  rewrite andb_true_r in Bi, Bap, Bcnt, Blk.
  apply byte_ok_range in Bi, Bap, Bcnt, Blk.
  destruct (codec_unpack_ok sc S Us) as [s Es].
  destruct (codec_unpack_ok ac A Ua) as [a Ea].
  destruct (codec_unpack_ok abc AB Uab) as [ab Eab].
  destruct Hsc as (_ & _ & Psc3). destruct (Psc3 S s LS BS Es) as [PS WS].
  destruct Hac as (_ & _ & Pac3). destruct (Pac3 A a LA BA Ea) as [PA WA].
  destruct Habc as (_ & _ & Pabc3). destruct (Pabc3 AB ab LAB BAB Eab) as [PAB WAB].
  destruct (bool_of_byte_canonical i ltac:(lia) Hi) as [Ei Ii].
  destruct (bool_of_byte_canonical lk ltac:(lia) Hlk) as [Elk Ilk].
  set (c := Z.to_nat cnt) in *.
  set (cs := chunks_exact BalanceAccount_LEN MAX_BALANCE_ACCOUNTS R) in *.
  set (bas := map BalanceAccount_unpack_chunk (firstn c cs)).
  assert (Lcs : length cs = MAX_BALANCE_ACCOUNTS) by apply length_chunks_exact.
  assert (Hlb : length bas = c)
    by (subst bas; rewrite length_map, firstn_length_le by lia; reflexivity).
  assert (Hcan : forall y, In y (firstn c cs) ->
            wf_BalanceAccount (BalanceAccount_unpack_chunk y) = true /\
            BalanceAccount_pack_chunk (BalanceAccount_unpack_chunk y)
              (zero_bytes BalanceAccount_LEN) = y).
  { intros y Hy. apply BalanceAccount_pack_unpack_canonical; [|reflexivity].
    rewrite forallb_forall in Fc. auto. }
  assert (Hwfb : forallb wf_BalanceAccount bas = true).
  { apply forallb_forall. intros x Hx. subst bas. apply in_map_iff in Hx as (y & <- & Hy).
    apply Hcan. exact Hy. }
  assert (Hpc : map (fun b => BalanceAccount_pack_chunk b (zero_bytes BalanceAccount_LEN)) bas
                = firstn c cs).
  { subst bas. rewrite map_map. rewrite <- (map_id (firstn c cs)) at 2.
    apply map_ext_in. intros y Hy. apply Hcan. exact Hy. }
  assert (Hz : skipn c cs = repeat (zero_bytes BalanceAccount_LEN) (MAX_BALANCE_ACCOUNTS - c)).
  { rewrite (forallb_eqb_repeat _ _ Fz), length_skipn, Lcs. reflexivity. }
  assert (Hnb : (length bas <= MAX_BALANCE_ACCOUNTS)%nat) by lia.
  exists (mkWallet (i =? 1) s a ab ap (from_le_bytes t) ca bas (lk =? 1)).
  split; [|split].
  - unfold Wallet_unpack_chunk, split_at. cbv beta iota zeta.
    repeat first [ rewrite skipn_app_len by piece_lengths
                 | rewrite firstn_app_len by piece_lengths ].
    cbn [hd]. rewrite Ei, Es, Ea, Eab, Elk. reflexivity.
  - unfold wf_Wallet. cbn [signers assistant address_book approvals_required_for_config
      approval_timeout_for_config config_approvers balance_accounts].
    assert (Rt : 0 <= from_le_bytes t < 2 ^ 64)
      by (rewrite <- pow_256_8, <- Lt; apply from_le_bytes_range; exact Bt).
    rewrite WS, WA, WAB, Lca, Nat.eqb_refl, Bca, Hwfb.
    rewrite (proj2 (Nat.leb_le _ _) Hnb).
    unfold byte_ok. rewrite !(proj2 (Z.leb_le _ _)), !(proj2 (Z.ltb_lt _ _)) by lia.
    reflexivity.
  - unfold Wallet_pack_chunk. cbn [is_initialized signers assistant address_book
      approvals_required_for_config approval_timeout_for_config config_approvers
      balance_accounts config_policy_update_locked].
    rewrite Ii, Ilk, PS, PA, PAB.
    unfold u64_to_le_bytes. rewrite <- Lt, to_from_le_bytes by exact Bt.
    destruct (balance_account_region bas Hnb Hwfb) as (Ecs & _ & _ & _).
    rewrite Ecs, Hpc, Hlb, <- Hz, firstn_skipn.
    unfold cs. rewrite concat_chunks_exact by (rewrite LR; reflexivity).
    subst c. rewrite Z2Nat.id, Z.mod_small by lia. reflexivity.
Qed.
End WalletCanonicalRoundTrip.

(** *** The concrete codecs satisfy the codec laws *)

Lemma signer_codec_laws : codec_laws signer_codec.
Proof.
  split; [|split].
  - intros [k] H. simpl in H. bool_facts. simpl. split; assumption.
  - intros [k] H. reflexivity.
  - intros l x Hl Hb H. simpl in H. inversion H; subst x. simpl.
    split; [reflexivity|]. apply andb_true_iff. split; [apply Nat.eqb_eq; exact Hl | exact Hb].
Qed.

Lemma address_book_entry_codec_laws : codec_laws address_book_entry_codec.
Proof.
  split; [|split].
  - intros [ad nm] H. simpl in H. bool_facts. simpl.
    rewrite length_app, bytes_ok_app. split; [lia|]. rewrite H2, H0. reflexivity.
  - intros [ad nm] H. simpl in H. bool_facts.
    cbn [codec_unpack codec_pack address_book_entry_codec address entry_name_hash].
    rewrite firstn_app_len, skipn_app_len by assumption. reflexivity.
  - intros l x Hl Hb H.
    change (Ok (mkAddressBookEntry (firstn 32 l) (skipn 32 l)) = Ok x) in H.
    change (length l = 64%nat) in Hl.
    injection H as <-.
    change ((firstn 32 l ++ skipn 32 l) = l /\
            ((length (firstn 32 l) =? 32)%nat && bytes_ok (firstn 32 l)
             && (length (skipn 32 l) =? 32)%nat && bytes_ok (skipn 32 l)) = true).
    split; [exact (firstn_skipn 32 l)|].
    rewrite <- (firstn_skipn 32 l), bytes_ok_app in Hb. apply andb_true_iff in Hb as [B1 B2].
    rewrite firstn_length_le, length_skipn, Hl, B1, B2 by lia. reflexivity.
Qed.

Section SlotsCodecLaws.
Context {T : Type} (c : Codec T) (Hc : codec_laws c).

Lemma length_pack_slot o :
  match o with None => true | Some x => codec_wf c x end = true ->
  length (pack_slot c o) = S (codec_len c) /\ bytes_ok (pack_slot c o) = true.
Proof using Hc.
  destruct o as [x|]; simpl; intros Hw.
  - destruct (proj1 Hc x Hw) as [L B]. rewrite L, B. auto.
  - unfold zero_bytes. rewrite repeat_length. split; [reflexivity|].
    induction (codec_len c); simpl; auto.
Qed.

Lemma unpack_pack_slot o : slot_wf c o = true -> unpack_slot c (pack_slot c o) = Ok o.
Proof using Hc.
  destruct o as [x|]; simpl; intros Hw; unfold unpack_slot; simpl.
  - rewrite (proj1 (proj2 Hc) x Hw). reflexivity.
  - destruct (eqb_of_true (zero_bytes (codec_len c)) (zero_bytes (codec_len c))) as [_ E].
    rewrite E; reflexivity.
Qed.

Lemma unpack_slot_inv sl o :
  length sl = S (codec_len c) -> bytes_ok sl = true -> unpack_slot c sl = Ok o ->
  pack_slot c o = sl /\ slot_wf c o = true.
Proof using Hc.
  destruct sl as [|tag rest]; [discriminate|]. intros Hl Hb Hu.
  injection Hl as Hl. rewrite bytes_ok_cons in Hb. apply andb_true_iff in Hb as [Bt Btl].
  unfold unpack_slot in Hu. change (hd 0 (tag :: rest)) with tag in Hu.
  change (tl (tag :: rest)) with rest in Hu.
  destruct (tag =? 0) eqn:T0.
  - destruct (eqb_of _ _) eqn:Ez; [|discriminate].
    injection Hu as <-. apply eqb_of_true in Ez. apply Z.eqb_eq in T0. rewrite T0, Ez.
    split; reflexivity.
  - destruct (tag =? 1) eqn:T1; [|discriminate].
    destruct (codec_unpack c rest) as [x|e] eqn:Ec; [|discriminate].
    injection Hu as <-. apply Z.eqb_eq in T1. rewrite T1.
    destruct (proj2 (proj2 Hc) rest x Hl Btl Ec) as [P W].
    simpl. rewrite P, W. split; reflexivity.
Qed.

Lemma unpack_slots_S k l :
  unpack_slots c (S k) l =
  match unpack_slot c (firstn (1 + codec_len c) l) with
  | Err e => Err e
  | Ok o => match unpack_slots c k (skipn (1 + codec_len c) l) with
            | Err e => Err e
            | Ok os => Ok (o :: os)
            end
  end.
Proof. reflexivity. Qed.

Lemma slots_codec_laws n : codec_laws (slots_codec c n).
Proof using Hc.
  split; [|split].
  - intros s Hw. change ((length s =? n)%nat && forallb (slot_wf c) s = true) in Hw.
    change (length (concat (map (pack_slot c) s)) = (n * (1 + codec_len c))%nat /\
            bytes_ok (concat (map (pack_slot c) s)) = true).
    apply andb_true_iff in Hw as [Hn Hw].
    apply Nat.eqb_eq in Hn. subst n. induction s as [|o s IH]; [split; reflexivity|].
    change (forallb (slot_wf c) (o :: s)) with (slot_wf c o && forallb (slot_wf c) s) in Hw.
    apply andb_true_iff in Hw as [Ho Hw].
    change (concat (map (pack_slot c) (o :: s)))
      with (pack_slot c o ++ concat (map (pack_slot c) s)).
    destruct (length_pack_slot o Ho) as [L B]. destruct (IH Hw) as [L' B'].
    rewrite length_app, bytes_ok_app, L, L', B, B'. split; [simpl; lia | reflexivity].
  - intros s Hw. change ((length s =? n)%nat && forallb (slot_wf c) s = true) in Hw.
    change (unpack_slots c n (concat (map (pack_slot c) s)) = Ok s).
    apply andb_true_iff in Hw as [Hn Hw].
    apply Nat.eqb_eq in Hn. subst n. induction s as [|o s IH]; [reflexivity|].
    change (forallb (slot_wf c) (o :: s)) with (slot_wf c o && forallb (slot_wf c) s) in Hw.
    apply andb_true_iff in Hw as [Ho Hw].
    change (concat (map (pack_slot c) (o :: s)))
      with (pack_slot c o ++ concat (map (pack_slot c) s)).
    change (length (o :: s)) with (S (length s)).
    destruct (length_pack_slot o Ho) as [L B].
    rewrite unpack_slots_S, firstn_app_len, skipn_app_len by exact L.
    rewrite unpack_pack_slot by exact Ho. rewrite IH by exact Hw. reflexivity.
  - intros l s Hl Hb Hu.
    change (length l = (n * (1 + codec_len c))%nat) in Hl.
    change (unpack_slots c n l = Ok s) in Hu.
    change (concat (map (pack_slot c) s) = l /\
            ((length s =? n)%nat && forallb (slot_wf c) s) = true).
    revert l s Hl Hb Hu. induction n as [|k IH]; intros l s Hl Hb Hu.
    + destruct l; [|discriminate]. injection Hu as <-. split; reflexivity.
    + rewrite unpack_slots_S in Hu.
      rewrite <- (firstn_skipn (1 + codec_len c) l) in Hb.
      rewrite bytes_ok_app in Hb. apply andb_true_iff in Hb as [Bs Br].
      assert (Ls : length (firstn (1 + codec_len c) l) = S (codec_len c))
        by (rewrite firstn_length_le; simpl in Hl |- *; lia).
      assert (Lr : length (skipn (1 + codec_len c) l) = (k * (1 + codec_len c))%nat)
        by (rewrite length_skipn; simpl in Hl |- *; lia).
      destruct (unpack_slot _ _) as [o|e] eqn:Eo; [|discriminate].
      destruct (unpack_slots _ _ _) as [os|e] eqn:Eos;
        [|discriminate].
      injection Hu as <-.
      destruct (IH _ _ Lr Br Eos) as [Pos Wos].
      destruct (unpack_slot_inv _ _ Ls Bs Eo) as [Po Wo].
      apply andb_true_iff in Wos as [Wn Wf]. apply Nat.eqb_eq in Wn.
      split.
      * change (concat (map (pack_slot c) (o :: os)))
          with (pack_slot c o ++ concat (map (pack_slot c) os)).
        rewrite Po, Pos. apply firstn_skipn.
      * change (forallb (slot_wf c) (o :: os)) with (slot_wf c o && forallb (slot_wf c) os).
        rewrite Wo, Wf. simpl. rewrite Wn, Nat.eqb_refl. reflexivity.
Qed.
End SlotsCodecLaws.

Lemma signers_codec_laws : codec_laws signers_codec.
Proof. exact (slots_codec_laws signer_codec signer_codec_laws MAX_SIGNERS). Qed.

Lemma address_book_codec_laws : codec_laws address_book_codec.
Proof.
  exact (slots_codec_laws address_book_entry_codec address_book_entry_codec_laws
           MAX_ADDRESS_BOOK_ENTRIES).
Qed.

Lemma BalanceAccount_pack_into_slice_exact b dst :
  length dst = BalanceAccount_LEN ->
  BalanceAccount_pack_into_slice b dst = Some (BalanceAccount_pack_chunk b dst).
Proof.
  intros L. unfold BalanceAccount_pack_into_slice. rewrite L, Nat.ltb_irrefl.
  rewrite firstn_all2, skipn_all2, app_nil_r by lia. reflexivity.
Qed.

Lemma BalanceAccount_unpack_from_slice_exact src :
  length src = BalanceAccount_LEN ->
  BalanceAccount_unpack_from_slice src = Some (Ok (BalanceAccount_unpack_chunk src)).
Proof.
  intros L. unfold BalanceAccount_unpack_from_slice. rewrite L, Nat.ltb_irrefl.
  rewrite firstn_all2 by lia. reflexivity.
Qed.

(** *** Round trips of the packed encodings *)

(** C5 (counterexample): the 94 bytes that are zero except for a lock byte
    of 2 decode successfully (the lock is read as [false]), but packing the
    decoded account, into these bytes or into a zeroed buffer, writes a lock
    byte of 0: encode(decode(bytes)) differs from bytes. *)
Lemma BalanceAccount_lock_byte_round_trip_fails :
  let src := zero_bytes 93 ++ [2] in
  BalanceAccount_unpack_from_slice src = Some (Ok (BalanceAccount_unpack_chunk src)) /\
  BalanceAccount_pack_into_slice (BalanceAccount_unpack_chunk src) src <> Some src /\
  BalanceAccount_pack_into_slice (BalanceAccount_unpack_chunk src) (zero_bytes BalanceAccount_LEN)
    <> Some src.
Proof.
  cbv zeta. split; [reflexivity|].
  split; intros H;
    apply (f_equal (fun o => match o with Some l => nth 93 l 0 | None => 0 end)) in H;
    vm_compute in H; discriminate.
Qed.

(** C5 (amended): the round trips hold for the records the Rust types admit
    and for the buffers in the image of the encoder.
    - BalanceAccount, decode(encode(b)) = b: for every well-formed account
      packed into a [LEN]-byte buffer whose boolean-settings byte has bits 0
      and 1 clear (the settings are or-ed into that byte);
    - BalanceAccount, encode(decode(bytes)) = bytes: for the canonical
      buffers (boolean-settings byte at most 3, lock byte 0 or 1), re-packed
      into a buffer whose boolean-settings byte is 0;
    - Wallet, decode(encode(w)) = w: for every well-formed wallet (at most
      [MAX_BALANCE_ACCOUNTS] balance accounts, 24 signer slots, 128
      address-book slots), over the whole [Wallet::LEN] buffer;
    - Wallet, encode(decode(bytes)) = bytes: for the canonical buffers
      (flag bytes 0 or 1, canonical account chunks, zero unused chunks). *)
Theorem pack_unpack_round_trip_canonical :
  (forall b dst,
     wf_BalanceAccount b = true -> length dst = BalanceAccount_LEN ->
     Z.land (nth 92 dst 0) 3 = 0 ->
     option_map BalanceAccount_unpack_from_slice (BalanceAccount_pack_into_slice b dst)
       = Some (Some (Ok b))) /\
  (forall src dst,
     canonical_BalanceAccount_bytes src = true -> length dst = BalanceAccount_LEN ->
     nth 92 dst 0 = 0 ->
     exists b, BalanceAccount_unpack_from_slice src = Some (Ok b) /\
               wf_BalanceAccount b = true /\
               BalanceAccount_pack_into_slice b dst = Some src) /\
  (forall w,
     wf_Wallet signers_codec signer_codec address_book_codec w = true ->
     Wallet_unpack_chunk signers_codec signer_codec address_book_codec
       (Wallet_pack_chunk signers_codec signer_codec address_book_codec w) = Ok w) /\
  (forall src,
     canonical_Wallet_bytes signers_codec signer_codec address_book_codec src = true ->
     exists w, Wallet_unpack_chunk signers_codec signer_codec address_book_codec src = Ok w /\
               wf_Wallet signers_codec signer_codec address_book_codec w = true /\
               Wallet_pack_chunk signers_codec signer_codec address_book_codec w = src).
Proof.
  split; [|split; [|split]].
  - intros b dst Hw L H92. rewrite BalanceAccount_pack_into_slice_exact by exact L.
    cbn [option_map].
    rewrite BalanceAccount_unpack_from_slice_exact by (apply length_BalanceAccount_pack_chunk, Hw).
    rewrite BalanceAccount_unpack_pack_chunk by assumption. reflexivity.
  - intros src dst Hc L H92.
    destruct (BalanceAccount_pack_unpack_canonical src dst Hc H92) as [Hw Hp].
    exists (BalanceAccount_unpack_chunk src). split; [|split; [exact Hw|]].
    + apply BalanceAccount_unpack_from_slice_exact.
      unfold canonical_BalanceAccount_bytes in Hc. bool_facts. assumption.
    + rewrite BalanceAccount_pack_into_slice_exact by exact L. rewrite Hp. reflexivity.
  - apply Wallet_unpack_pack_chunk;
      [exact signers_codec_laws | exact signer_codec_laws | exact address_book_codec_laws].
  - apply Wallet_pack_unpack_canonical;
      [exact signers_codec_laws | exact signer_codec_laws | exact address_book_codec_laws].
Qed.

Lemma pack_unpack_round_trip_canonical_witness :
  option_map BalanceAccount_unpack_from_slice
    (BalanceAccount_pack_into_slice sample_balance_account (zero_bytes BalanceAccount_LEN))
    = Some (Some (Ok sample_balance_account)) /\
  (exists b,
     BalanceAccount_unpack_from_slice
       (BalanceAccount_pack_chunk sample_balance_account (zero_bytes BalanceAccount_LEN))
       = Some (Ok b) /\
     wf_BalanceAccount b = true /\
     BalanceAccount_pack_into_slice b (zero_bytes BalanceAccount_LEN)
       = Some (BalanceAccount_pack_chunk sample_balance_account (zero_bytes BalanceAccount_LEN))) /\
  Wallet_unpack_chunk signers_codec signer_codec address_book_codec
    (Wallet_pack_chunk signers_codec signer_codec address_book_codec sample_wallet_with_account)
    = Ok sample_wallet_with_account /\
  (exists w,
     Wallet_unpack_chunk signers_codec signer_codec address_book_codec
       (Wallet_pack_chunk signers_codec signer_codec address_book_codec sample_wallet_with_account)
       = Ok w /\
     wf_Wallet signers_codec signer_codec address_book_codec w = true /\
     Wallet_pack_chunk signers_codec signer_codec address_book_codec w
       = Wallet_pack_chunk signers_codec signer_codec address_book_codec
           sample_wallet_with_account).
Proof.
  destruct pack_unpack_round_trip_canonical as (T1 & T2 & T3 & T4).
  split; [apply T1; vm_compute; reflexivity|].
  split; [apply T2; vm_compute; reflexivity|].
  split; [apply T3; vm_compute; reflexivity|].
  apply T4; vm_compute; reflexivity.
Defined.

Lemma update_config_policy_only_policy_fields_witness :
  let u := mkWalletConfigPolicyUpdate 1 3600 [] [] in
  let w' := snd (update_config_policy u sample_wallet) in
  update_config_policy u sample_wallet = (Ok tt, w') /\
  (signers w' = signers sample_wallet /\ assistant w' = assistant sample_wallet /\
   address_book w' = address_book sample_wallet /\
   balance_accounts w' = balance_accounts sample_wallet /\
   is_initialized w' = is_initialized sample_wallet /\
   config_policy_update_locked w' = config_policy_update_locked sample_wallet).
Proof.
  intros u w'.
  assert (H : update_config_policy u sample_wallet = (Ok tt, w')) by (vm_compute; reflexivity).
  split; [exact H | exact (update_config_policy_only_policy_fields sample_wallet w' u H)].
Defined.

Lemma BalanceAccount_unpack_from_slice_total_witness :
  (BalanceAccount_LEN <= length (zero_bytes 94))%nat /\
  exists ba,
    BalanceAccount_unpack_from_slice (zero_bytes 94) = Some (Ok ba) /\
    (policy_update_locked ba = true <-> nth 93 (zero_bytes 94) 0 = 1) /\
    (forall b', Z.land b' 3 = Z.land (nth 92 (zero_bytes 94) 0) 3 ->
       BalanceAccount_unpack_from_slice (replace_nth (zero_bytes 94) 92 b') = Some (Ok ba)).
Proof.
  assert (L : (BalanceAccount_LEN <= length (zero_bytes 94))%nat) by (vm_compute; lia).
  split; [exact L | exact (BalanceAccount_unpack_from_slice_total (zero_bytes 94) L)].
Defined.

(* ========================================================================= *)
(** * Further properties of the wallet model *)

(** ** Timeout validation *)

(** [validate_approval_timeout] accepts exactly the timeouts from
    [MIN_APPROVAL_TIMEOUT] (60 s) to [MAX_APPROVAL_TIMEOUT] (365 days), both
    included, and rejects every other one with [InvalidApprovalTimeout]. *)
Theorem validate_approval_timeout_range : forall t : Duration,
  (validate_approval_timeout t = Ok tt /\ MIN_APPROVAL_TIMEOUT <= t <= MAX_APPROVAL_TIMEOUT) \/
  (validate_approval_timeout t = Err (Custom InvalidApprovalTimeout) /\
   (t < MIN_APPROVAL_TIMEOUT \/ MAX_APPROVAL_TIMEOUT < t)).
Proof.
  intros t. unfold validate_approval_timeout.
  destruct (t <? MIN_APPROVAL_TIMEOUT) eqn:C1.
  - right. apply Z.ltb_lt in C1. auto.
  - destruct (t >? MAX_APPROVAL_TIMEOUT) eqn:C2.
    + right. rewrite Z.gtb_ltb, Z.ltb_lt in C2. auto.
    + left. rewrite Z.gtb_ltb, Z.ltb_ge in C2. apply Z.ltb_ge in C1. auto.
Qed.

(** ** Looking up a balance account *)

Lemma position_guid_None l g :
  position_guid l g = None <-> Forall (fun b => guid_hash b <> g) l.
Proof.
  induction l as [|b t IH]; simpl.
  - split; auto.
  - destruct (eqb_of (guid_hash b) g) eqn:E.
    + apply eqb_of_true in E. split; [discriminate|]. intros H. inversion H. contradiction.
    + assert (guid_hash b <> g) by (intros Hc; apply eqb_of_true in Hc; congruence).
      destruct (position_guid t g); simpl; split; intros H'.
      * discriminate.
      * inversion H'; subst. apply IH in H3. discriminate.
      * constructor; [assumption | apply IH; reflexivity].
      * reflexivity.
Qed.

Lemma position_guid_Some l g i :
  position_guid l g = Some i ->
  exists l1 ba l2, l = l1 ++ ba :: l2 /\ length l1 = i /\ guid_hash ba = g /\
                   Forall (fun b => guid_hash b <> g) l1.
Proof.
  revert i. induction l as [|b t IH]; intros i H; simpl in H; [discriminate|].
  destruct (eqb_of (guid_hash b) g) eqn:E.
  - injection H as <-. apply eqb_of_true in E. exists [], b, t. auto.
  - destruct (position_guid t g) as [j|] eqn:Ej; [|discriminate]. injection H as <-.
    destruct (IH j eq_refl) as (l1 & ba & l2 & -> & L & G & F).
    exists (b :: l1), ba, l2. simpl. repeat split; auto.
    constructor; [|exact F]. intros Hc. apply eqb_of_true in Hc. congruence.
Qed.

Lemma position_guid_app l1 ba l2 g :
  Forall (fun b => guid_hash b <> g) l1 -> guid_hash ba = g ->
  position_guid (l1 ++ ba :: l2) g = Some (length l1).
Proof.
  intros F G. induction F as [|b t Hb F IH]; simpl.
  - destruct (eqb_of (guid_hash ba) g) eqn:E; [reflexivity|].
    exfalso. apply Bool.not_true_iff_false in E. apply E, eqb_of_true, G.
  - destruct (eqb_of (guid_hash b) g) eqn:E.
    + apply eqb_of_true in E. contradiction.
    + rewrite IH. reflexivity.
Qed.

(** [get_balance_account] never panics; it returns the first balance account
    whose guid hash is the one asked for, and fails with
    [BalanceAccountNotFound] exactly when no balance account has it. *)
Theorem get_balance_account_first_match : forall (w : Wallet) (g : list byte),
  get_balance_account w g <> None /\
  (get_balance_account w g = Some (Err (Custom BalanceAccountNotFound)) <->
   Forall (fun b => guid_hash b <> g) (balance_accounts w)) /\
  (forall ba, get_balance_account w g = Some (Ok ba) <->
   exists l1 l2, balance_accounts w = l1 ++ ba :: l2 /\ guid_hash ba = g /\
                 Forall (fun b => guid_hash b <> g) l1).
Proof.
  intros w g. unfold get_balance_account, get_balance_account_index.
  destruct (position_guid (balance_accounts w) g) as [i|] eqn:P.
  - destruct (position_guid_Some _ _ _ P) as (l1 & b & l2 & E & L & G & F).
    assert (N : nth_error (balance_accounts w) i = Some b)
      by (rewrite E, <- L, nth_error_app2, Nat.sub_diag by lia; reflexivity).
    rewrite N. simpl. split; [discriminate|]. split.
    + split; [discriminate|]. intros H. apply position_guid_None in H. congruence.
    + intros ba. split.
      * intros H. injection H as <-. exists l1, l2. auto.
      * intros (m1 & m2 & E' & G' & F').
        rewrite E' in P. rewrite position_guid_app in P by assumption.
        injection P as <-. rewrite E' in N.
        rewrite nth_error_app2, Nat.sub_diag in N by lia. simpl in N. congruence.
  - simpl. split; [discriminate|]. split.
    + split; [intros _; apply position_guid_None, P | reflexivity].
    + intros ba. split; [discriminate|]. intros (m1 & m2 & E' & G' & F').
      rewrite E', position_guid_app in P by assumption. discriminate.
Qed.

(** ** Batch mutators that check before they write *)

(** The batch mutators of [wallet.rs] other than the disable loops check
    the whole batch before writing: when [add_signers] (so [add_signer]),
    [remove_signers] (so [remove_signer]), [add_address_book_entries],
    [remove_address_book_entries], [enable_config_approvers],
    [enable_transfer_approvers] or [enable_transfer_destinations] fails, it
    fails with [InvalidArgument] and hands the wallet back unchanged. *)
Theorem batch_mutators_all_or_nothing :
  forall (w w' : Wallet) (e : ProgramError) (idx : nat)
         (ls : list (SlotId * Signer)) (la : list (SlotId * AddressBookEntry)),
  (add_signers ls w = (Err e, w') -> e = InvalidArgument /\ w' = w) /\
  (remove_signers ls w = (Err e, w') -> e = InvalidArgument /\ w' = w) /\
  (add_address_book_entries la w = (Err e, w') -> e = InvalidArgument /\ w' = w) /\
  (remove_address_book_entries la w = (Err e, w') -> e = InvalidArgument /\ w' = w) /\
  (enable_config_approvers ls w = (Err e, w') -> e = InvalidArgument /\ w' = w) /\
  (enable_transfer_approvers idx ls w = (Err e, w') -> e = InvalidArgument /\ w' = w) /\
  (enable_transfer_destinations idx la w = (Err e, w') -> e = InvalidArgument /\ w' = w).
Proof.
  intros w w' e idx ls la.
  unfold add_signers, remove_signers, add_address_book_entries, remove_address_book_entries,
    enable_config_approvers, enable_transfer_approvers, enable_transfer_destinations,
    modify_balance_account, bind, get, put, fail, modify.
  repeat match goal with |- _ /\ _ => split end; intros H;
    repeat match type of H with
           | context [if ?b then _ else _] => destruct b
           end;
    try discriminate; injection H as <- <-; auto.
Qed.

(** ** The address-book removal guard *)




(** ** Effects on the approver flags *)

Lemma testbit_nth_update_nth_clearbit_same (l : SlotFlags) i n :
  Z.testbit (nth i (update_nth l i (fun b => Z.clearbit b n)) 0) n = false.
Proof.
  revert i. induction l as [|a t IH]; intros [|i]; simpl; auto.
  - apply Z.testbit_0_l.
  - apply Z.testbit_0_l.
  - apply Z.clearbit_eq.
Qed.

Lemma is_enabled_disable_same (f : SlotFlags) id : is_enabled (disable f id) id = false.
Proof. apply testbit_nth_update_nth_clearbit_same. Qed.

Lemma testbit_nth_update_nth_setbit (l : SlotFlags) i j n k :
  0 <= n -> (i <> j \/ n <> k) ->
  Z.testbit (nth j (update_nth l i (fun b => Z.setbit b n)) 0) k = Z.testbit (nth j l 0) k.
Proof.
  intros Hn. revert i j. induction l as [|a t IH]; intros [|i] [|j] Hne; simpl; auto.
  - destruct Hne as [Hne|Hne]; [exfalso; apply Hne; reflexivity|].
    apply Z.setbit_neq; assumption.
  - apply IH. destruct Hne as [Hne|Hne]; [left; congruence | right; exact Hne].
Qed.

Lemma testbit_nth_update_nth_setbit_same (l : SlotFlags) i n :
  0 <= n -> (i < length l)%nat -> Z.testbit (nth i (update_nth l i (fun b => Z.setbit b n)) 0) n = true.
Proof.
  intros Hn. revert i. induction l as [|a t IH]; intros [|i] Hi; simpl in *; try lia.
  - apply Z.setbit_eq; exact Hn.
  - apply IH. lia.
Qed.

Lemma slot_index_ne (id id' : nat) :
  id <> id' -> ((id / 8 <> id' / 8)%nat \/ Z.of_nat (id mod 8) <> Z.of_nat (id' mod 8)).
Proof.
  intros Hne. destruct (Nat.eq_dec (id / 8) (id' / 8)) as [Eq|Neq]; [right|left; exact Neq].
  intros Hm. apply Nat2Z.inj in Hm. apply Hne.
  rewrite (Nat.div_mod_eq id 8), (Nat.div_mod_eq id' 8), Eq, Hm. reflexivity.
Qed.

Lemma is_enabled_enable_other (f : SlotFlags) id id' :
  id <> id' -> is_enabled (enable f id) id' = is_enabled f id'.
Proof.
  intros Hne. unfold is_enabled, enable. apply testbit_nth_update_nth_setbit; [lia|].
  apply slot_index_ne, Hne.
Qed.

Lemma is_enabled_enable_same (f : SlotFlags) id :
  (id / 8 < length f)%nat -> is_enabled (enable f id) id = true.
Proof. intros H. apply testbit_nth_update_nth_setbit_same; [lia | exact H]. Qed.

Lemma length_enable f id : length (enable f id) = length f.
Proof. apply length_update_nth. Qed.

Lemma length_disable f id : length (disable f id) = length f.
Proof. apply length_update_nth. Qed.

Lemma is_enabled_enable_many_in f ids id :
  In id ids -> (id / 8 < length f)%nat -> is_enabled (enable_many f ids) id = true.
Proof.
  unfold enable_many. revert f. induction ids as [|i t IH]; intros f Hin Hl; [destruct Hin|].
  simpl. destruct (in_dec Nat.eq_dec id t) as [Ht|Ht].
  - apply IH; [exact Ht | rewrite length_enable; exact Hl].
  - destruct Hin as [Heq|Hin]; [subst i|contradiction].
    clear IH. assert (G : forall g : SlotFlags, ~ In id t -> is_enabled g id = true ->
                                 is_enabled (fold_left enable t g) id = true).
    { clear Ht Hl. induction t as [|j t' IH']; intros g Hn Hg; simpl; [exact Hg|].
      apply IH'; [intros Hc; apply Hn; right; exact Hc|].
      rewrite is_enabled_enable_other; [exact Hg|]. intros ->. apply Hn. left. reflexivity. }
    apply G; [exact Ht|]. apply is_enabled_enable_same, Hl.
Qed.

Lemma is_enabled_enable_many_other f ids id :
  ~ In id ids -> is_enabled (enable_many f ids) id = is_enabled f id.
Proof.
  unfold enable_many. revert f. induction ids as [|i t IH]; intros f Hn; simpl; [reflexivity|].
  rewrite IH by (intros Hc; apply Hn; right; exact Hc).
  apply is_enabled_enable_other. intros ->. apply Hn. left. reflexivity.
Qed.

Lemma length_enable_many f ids : length (enable_many f ids) = length f.
Proof.
  unfold enable_many. revert f. induction ids as [|i t IH]; intros f; simpl; [reflexivity|].
  rewrite IH. apply length_enable.
Qed.

Lemma disable_config_approvers_facts l w w' :
  disable_config_approvers l w = (Ok tt, w') ->
  (forall id, is_enabled (config_approvers w) id = false ->
              is_enabled (config_approvers w') id = false) /\
  (forall id s, In (id, s) l -> is_enabled (config_approvers w') id = false) /\
  length (config_approvers w') = length (config_approvers w) /\
  w' = set_config_approvers (config_approvers w') w.
Proof.
  revert w. induction l as [|[id0 s0] t IH]; intros w H; simpl in H.
  - inversion H; subst w'. repeat split; auto; [intros ? ? []|]. destruct w; reflexivity.
  - unfold bind at 1, get in H.
    destruct (slot_matches_or_empty _ _ _); [|discriminate].
    unfold bind, put in H.
    destruct (IH _ H) as (K & D & L & E). clear IH.
    cbn [config_approvers set_config_approvers] in K, D, L, E.
    split; [|split; [|split]].
    + intros id Hid. apply K. destruct (Nat.eq_dec id0 id) as [->|Hne].
      * apply is_enabled_disable_same.
      * rewrite is_enabled_disable_other by exact Hne. exact Hid.
    + intros id s [Hh|Ht].
      * injection Hh as <- <-. apply K, is_enabled_disable_same.
      * exact (D id s Ht).
    + rewrite L. apply length_disable.
    + rewrite E at 1. reflexivity.
Qed.

(** After a successful [disable_config_approvers], every slot of the batch
    is disabled as a config approver, every other slot keeps its flag, and
    no field but [config_approvers] has changed. *)
Theorem disable_config_approvers_effect : forall (l : list (SlotId * Signer)) (w w' : Wallet),
  disable_config_approvers l w = (Ok tt, w') ->
  (forall id s, In (id, s) l -> is_enabled (config_approvers w') id = false) /\
  (forall id, ~ In id (slot_ids l) ->
   is_enabled (config_approvers w') id = is_enabled (config_approvers w) id) /\
  w' = set_config_approvers (config_approvers w') w.
Proof.
  intros l w w' H. destruct (disable_config_approvers_facts l w w' H) as (_ & D & _ & E).
  split; [exact D|]. split; [|exact E].
  intros id Hn. exact (disable_config_approvers_other l w w' id Hn H).
Qed.

Lemma disable_config_approvers_effect_witness :
  disable_config_approvers [(0%nat, sg 1)] sample_wallet
    = (Ok tt, snd (disable_config_approvers [(0%nat, sg 1)] sample_wallet)) /\
  ((forall id s, In (id, s) [(0%nat, sg 1)] ->
     is_enabled (config_approvers (snd (disable_config_approvers [(0%nat, sg 1)] sample_wallet))) id
     = false) /\
   (forall id, ~ In id (slot_ids [(0%nat, sg 1)]) ->
     is_enabled (config_approvers (snd (disable_config_approvers [(0%nat, sg 1)] sample_wallet))) id
     = is_enabled (config_approvers sample_wallet) id) /\
   snd (disable_config_approvers [(0%nat, sg 1)] sample_wallet)
   = set_config_approvers
       (config_approvers (snd (disable_config_approvers [(0%nat, sg 1)] sample_wallet)))
       sample_wallet).
Proof.
  assert (H : disable_config_approvers [(0%nat, sg 1)] sample_wallet
              = (Ok tt, snd (disable_config_approvers [(0%nat, sg 1)] sample_wallet)))
    by (vm_compute; reflexivity).
  split; [exact H | exact (disable_config_approvers_effect _ _ _ H)].
Defined.

Lemma contains_In {T} `{DecEq T} (s : Slots T) batch id v :
  contains s batch = true -> In (id, v) batch -> slot_get s id = Some v.
Proof.
  unfold contains. intros Hc Hin. rewrite forallb_forall in Hc.
  apply Hc in Hin. apply eqb_of_true in Hin. exact Hin.
Qed.

Lemma slot_get_Some_lt {T} (s : Slots T) id v : slot_get s id = Some v -> (id < length s)%nat.
Proof.
  unfold slot_get. destruct (nth_error s id) eqn:E; [|discriminate].
  intros _. apply nth_error_Some. rewrite E. discriminate.
Qed.

Lemma enable_config_approvers_facts l w w' :
  enable_config_approvers l w = (Ok tt, w') ->
  contains (signers w) l = true /\
  w' = set_config_approvers (enable_many (config_approvers w) (slot_ids l)) w.
Proof.
  unfold enable_config_approvers, bind, get. destruct (contains _ _) eqn:C; simpl; [|discriminate].
  intros H. inversion H. split; reflexivity.
Qed.

(** After a successful [update_config_policy] on a wallet whose approver
    flags cover its signer slots, every slot of the add list is a config
    approver holding the given signer; every slot of the remove list that
    is not also added is not a config approver; all other slots keep their
    flag. *)
Theorem update_config_policy_approvers : forall (u : WalletConfigPolicyUpdate) (w w' : Wallet),
  (length (signers w) <= 8 * length (config_approvers w))%nat ->
  update_config_policy u w = (Ok tt, w') ->
  (forall id s, In (id, s) (cpu_add_config_approvers u) ->
   is_enabled (config_approvers w') id = true /\ slot_get (signers w') id = Some s) /\
  (forall id s, In (id, s) (cpu_remove_config_approvers u) ->
   ~ In id (slot_ids (cpu_add_config_approvers u)) ->
   is_enabled (config_approvers w') id = false) /\
  (forall id, ~ In id (slot_ids (cpu_remove_config_approvers u)) ->
   ~ In id (slot_ids (cpu_add_config_approvers u)) ->
   is_enabled (config_approvers w') id = is_enabled (config_approvers w) id).
Proof.
  intros u w w' Hcap H. unfold update_config_policy in H.
  apply bind_ok_inv in H as (? & w1 & E1 & H). inversion E1; subst w1; clear E1.
  apply bind_ok_inv in H as (? & w2 & E2 & H).
  assert (S2 : signers w2 = signers w /\ config_approvers w2 = config_approvers w).
  { destruct (0 <? _); inversion E2; split; reflexivity. }
  clear E2. destruct S2 as [S2 C2].
  apply bind_ok_inv in H as ([] & w3 & E3 & H).
  destruct (disable_config_approvers_facts _ _ _ E3) as (_ & D3 & L3 & Eq3).
  assert (S3 : signers w3 = signers w2) by (rewrite Eq3; reflexivity).
  apply bind_ok_inv in H as ([] & w4 & E4 & H).
  destruct (enable_config_approvers_facts _ _ _ E4) as (C4 & Eq4).
  unfold bind at 1, get in H.
  destruct (approvals_required_for_config w4 =? 0); [discriminate|].
  destruct (approval_timeout_for_config w4 =? 0); [discriminate|].
  destruct (_ >? _); [discriminate|].
  inversion H; subst w'. clear H.
  assert (S4 : signers w4 = signers w3) by (rewrite Eq4; reflexivity).
  assert (F4 : config_approvers w4
               = enable_many (config_approvers w3) (slot_ids (cpu_add_config_approvers u)))
    by (rewrite Eq4; reflexivity).
  split; [|split].
  - intros id s Hin. pose proof (contains_In _ _ _ _ C4 Hin) as G.
    rewrite S4. split; [|exact G].
    rewrite F4. apply is_enabled_enable_many_in.
    + apply in_map_iff. exists (id, s). split; [reflexivity | exact Hin].
    + apply slot_get_Some_lt in G. rewrite S3, S2 in G. rewrite L3, C2.
      pose proof (Nat.div_mod_eq id 8). lia.
  - intros id s Hin Hn. rewrite F4, is_enabled_enable_many_other by exact Hn.
    exact (D3 id s Hin).
  - intros id Hr Ha. rewrite F4, is_enabled_enable_many_other by exact Ha.
    rewrite (disable_config_approvers_other _ _ _ id Hr E3), C2. reflexivity.
Qed.

Lemma update_config_policy_approvers_witness :
  let u := mkWalletConfigPolicyUpdate 1 3600 [(1%nat, sg 2)] [(0%nat, sg 1)] in
  let w' := snd (update_config_policy u sample_wallet) in
  (length (signers sample_wallet) <= 8 * length (config_approvers sample_wallet))%nat /\
  update_config_policy u sample_wallet = (Ok tt, w') /\
  ((forall id s, In (id, s) (cpu_add_config_approvers u) ->
    is_enabled (config_approvers w') id = true /\ slot_get (signers w') id = Some s) /\
   (forall id s, In (id, s) (cpu_remove_config_approvers u) ->
    ~ In id (slot_ids (cpu_add_config_approvers u)) ->
    is_enabled (config_approvers w') id = false) /\
   (forall id, ~ In id (slot_ids (cpu_remove_config_approvers u)) ->
    ~ In id (slot_ids (cpu_add_config_approvers u)) ->
    is_enabled (config_approvers w') id = is_enabled (config_approvers sample_wallet) id)).
Proof.
  intros u w'.
  assert (Hc : (length (signers sample_wallet) <= 8 * length (config_approvers sample_wallet))%nat)
    by (vm_compute; lia).
  assert (H : update_config_policy u sample_wallet = (Ok tt, w')) by (vm_compute; reflexivity).
  split; [exact Hc|]. split; [exact H|].
  exact (update_config_policy_approvers u sample_wallet w' Hc H).
Defined.

(** ** The config approval timeout *)

(** After a successful [update], the config approval timeout is the
    requested one when it is positive and the previous one otherwise, and
    it lies in [[MIN_APPROVAL_TIMEOUT, MAX_APPROVAL_TIMEOUT]]. *)
Theorem update_approval_timeout : forall (u : WalletUpdate) (w w' : Wallet),
  update u w = (Ok tt, w') ->
  approval_timeout_for_config w'
    = (if 0 <? wu_approval_timeout_for_config u then wu_approval_timeout_for_config u
       else approval_timeout_for_config w) /\
  MIN_APPROVAL_TIMEOUT <= approval_timeout_for_config w' <= MAX_APPROVAL_TIMEOUT.
Proof.
  intros u w w' H. unfold update in H.
  assert (rs : forall w v, approval_timeout_for_config (set_signers v w)
                           = approval_timeout_for_config w) by reflexivity.
  assert (ra : forall w v, approval_timeout_for_config (set_address_book v w)
                           = approval_timeout_for_config w) by reflexivity.
  assert (rc : forall w v, approval_timeout_for_config (set_config_approvers v w)
                           = approval_timeout_for_config w) by reflexivity.
  apply bind_ok_inv in H as (? & w1 & E1 & H). inversion E1; subst w1; clear E1.
  apply bind_ok_inv in H as (? & w2 & E2 & H).
  assert (A2 : approval_timeout_for_config w2
               = (if 0 <? wu_approval_timeout_for_config u then wu_approval_timeout_for_config u
                  else approval_timeout_for_config w)).
  { destruct (0 <? _); inversion E2; reflexivity. }
  clear E2.
  apply bind_ok_inv in H as (? & w3 & E3 & H).
  apply bind_ok_inv in H as (? & w4 & E4 & H).
  apply bind_ok_inv in H as (? & w5 & E5 & H).
  apply bind_ok_inv in H as (? & w6 & E6 & H).
  apply bind_ok_inv in H as (? & w7 & E7 & H).
  apply bind_ok_inv in H as (? & w8 & E8 & H).
  assert (A8 : approval_timeout_for_config w8 = approval_timeout_for_config w2).
  { rewrite (keeps_step _ _ _ _ _ (add_address_book_entries_keeps _ rs ra rc _) E8),
      (keeps_step _ _ _ _ _ (remove_address_book_entries_keeps _ rs ra rc _) E7),
      (keeps_step _ _ _ _ _ (enable_config_approvers_keeps _ rs ra rc _) E6),
      (keeps_step _ _ _ _ _ (add_signers_keeps _ rs ra rc _) E5),
      (keeps_step _ _ _ _ _ (remove_signers_keeps _ rs ra rc _) E4),
      (keeps_step _ _ _ _ _ (disable_config_approvers_keeps _ rs ra rc _) E3).
    reflexivity. }
  unfold bind at 1, get in H.
  destruct (_ >? _); [discriminate|].
  cbv [bind lift fail ret] in H.
  destruct (validate_approval_timeout (approval_timeout_for_config w8)) eqn:V; [|discriminate].
  destruct (approvals_required_for_config w8 =? 0); [discriminate|].
  destruct (count_enabled (config_approvers w8) =? 0)%nat; [discriminate|].
  inversion H; subst w'.
  split; [rewrite A8; exact A2|].
  destruct (validate_approval_timeout_range (approval_timeout_for_config w8))
    as [[_ R] | [R _]]; [exact R|]. rewrite V in R. discriminate.
Qed.

Lemma update_approval_timeout_witness :
  let u := mkWalletUpdate 1 7200 [] [] [] [] [] [] in
  let w' := snd (update u sample_wallet) in
  update u sample_wallet = (Ok tt, w') /\
  (approval_timeout_for_config w'
    = (if 0 <? wu_approval_timeout_for_config u then wu_approval_timeout_for_config u
       else approval_timeout_for_config sample_wallet) /\
   MIN_APPROVAL_TIMEOUT <= approval_timeout_for_config w' <= MAX_APPROVAL_TIMEOUT).
Proof.
  intros u w'.
  assert (H : update u sample_wallet = (Ok tt, w')) by (vm_compute; reflexivity).
  split; [exact H | exact (update_approval_timeout u sample_wallet w' H)].
Defined.

Lemma disable_config_approvers_timeout l t w :
  disable_config_approvers l (set_approval_timeout_for_config t w)
  = (fst (disable_config_approvers l w),
     set_approval_timeout_for_config t (snd (disable_config_approvers l w))).
Proof.
  revert w. induction l as [|[id s] rest IH]; intros w; [reflexivity|].
  cbn [disable_config_approvers]. unfold bind, get, put, fail.
  change (signers (set_approval_timeout_for_config t w)) with (signers w).
  destruct (slot_matches_or_empty (signers w) id s); [|reflexivity].
  exact (IH (set_config_approvers (disable (config_approvers w) id) w)).
Qed.

Lemma enable_config_approvers_timeout l t w :
  enable_config_approvers l (set_approval_timeout_for_config t w)
  = (fst (enable_config_approvers l w),
     set_approval_timeout_for_config t (snd (enable_config_approvers l w))).
Proof.
  unfold enable_config_approvers, bind, get, put, fail.
  change (signers (set_approval_timeout_for_config t w)) with (signers w).
  destruct (negb (contains (signers w) l)); reflexivity.
Qed.

(** [update_config_policy] does not range-check a positive timeout: if it
    succeeds, it succeeds with the same arguments and any other positive
    timeout, and the result differs only in the stored timeout. *)
Theorem update_config_policy_timeout_unchecked :
  forall (u : WalletConfigPolicyUpdate) (w w' : Wallet) (t : Duration),
  0 < t ->
  update_config_policy u w = (Ok tt, w') ->
  update_config_policy
    (mkWalletConfigPolicyUpdate (cpu_approvals_required_for_config u) t
       (cpu_add_config_approvers u) (cpu_remove_config_approvers u)) w
  = (Ok tt, set_approval_timeout_for_config t w').
Proof.
  intros u w w' t Ht H. unfold update_config_policy in H |- *. cbn [cpu_approvals_required_for_config
    cpu_approval_timeout_for_config cpu_add_config_approvers cpu_remove_config_approvers].
  apply bind_ok_inv in H as (? & w1 & E1 & H). inversion E1; subst w1; clear E1.
  apply bind_ok_inv in H as (? & w2 & E2 & H).
  assert (G : set_approval_timeout_for_config t
                (set_approvals_required_for_config (cpu_approvals_required_for_config u) w)
              = set_approval_timeout_for_config t w2).
  { destruct (0 <? _); inversion E2; reflexivity. }
  clear E2.
  apply bind_ok_inv in H as ([] & w3 & E3 & H).
  apply bind_ok_inv in H as ([] & w4 & E4 & H).
  assert (Ht' : (0 <? t) = true) by (apply Z.ltb_lt; exact Ht).
  unfold bind at 1, modify. rewrite (bind_ok_step _ _ _ tt (set_approval_timeout_for_config t
    (set_approvals_required_for_config (cpu_approvals_required_for_config u) w)))
    by (rewrite Ht'; reflexivity).
  rewrite G.
  rewrite (bind_ok_step _ _ _ tt (set_approval_timeout_for_config t w3))
    by (rewrite disable_config_approvers_timeout, E3; reflexivity).
  rewrite (bind_ok_step _ _ _ tt (set_approval_timeout_for_config t w4))
    by (rewrite enable_config_approvers_timeout, E4; reflexivity).
  unfold bind at 1, get in H. unfold bind at 1, get. cbn [approvals_required_for_config approval_timeout_for_config
    config_approvers set_approval_timeout_for_config].
  destruct (approvals_required_for_config w4 =? 0); [discriminate|].
  destruct (approval_timeout_for_config w4 =? 0); [discriminate|].
  destruct (t =? 0) eqn:T0; [apply Z.eqb_eq in T0; lia|].
  destruct (_ >? _); [discriminate|].
  inversion H; reflexivity.
Qed.

Lemma update_config_policy_timeout_unchecked_witness :
  let u := mkWalletConfigPolicyUpdate 1 3600 [] [] in
  let w' := snd (update_config_policy u sample_wallet) in
  0 < 1 /\ update_config_policy u sample_wallet = (Ok tt, w') /\
  update_config_policy
    (mkWalletConfigPolicyUpdate (cpu_approvals_required_for_config u) 1
       (cpu_add_config_approvers u) (cpu_remove_config_approvers u)) sample_wallet
  = (Ok tt, set_approval_timeout_for_config 1 w').
Proof.
  intros u w'.
  assert (Ht : 0 < 1) by lia.
  assert (H : update_config_policy u sample_wallet = (Ok tt, w')) by (vm_compute; reflexivity).
  split; [exact Ht|]. split; [exact H|].
  exact (update_config_policy_timeout_unchecked u sample_wallet w' 1 Ht H).
Defined.

(** ** The balance-account encoding on buffers of any length *)

Lemma nth_firstn_lt {A} (l : list A) n i d : (i < n)%nat -> nth i (firstn n l) d = nth i l d.
Proof.
  revert n i. induction l as [|a t IH]; intros [|n] [|i] Hi; simpl; auto; try lia.
  apply IH. lia.
Qed.

Lemma land_bit_eqb0 x k : 0 <= k -> (Z.land x (Z.shiftl 1 k) =? 0) = negb (Z.testbit x k).
Proof.
  intros Hk. rewrite Z.shiftl_1_l. destruct (Z.testbit x k) eqn:T; simpl.
  - apply Z.eqb_neq. intros E.
    assert (F : Z.testbit (Z.land x (2 ^ k)) k = false) by (rewrite E; apply Z.testbit_0_l).
    rewrite Z.land_spec, T, Z.pow2_bits_true in F by lia. discriminate.
  - apply Z.eqb_eq. apply Z.bits_inj_0. intros n. rewrite Z.land_spec.
    destruct (Z.eq_dec n k) as [->|Hn]; [rewrite T; reflexivity|].
    destruct (Z_lt_dec n 0) as [Hneg|Hpos].
    + rewrite (Z.testbit_neg_r x n Hneg). reflexivity.
    + rewrite Z.pow2_bits_false by lia. apply andb_false_r.
Qed.

(** The boolean settings read back from a settings byte [d] into which
    [pack_into_slice] has or-ed the account's settings. *)
Lemma settings_read_back d we de :
  BooleanSetting_from_u8
    (Z.land (Z.lor (Z.lor d (Z.shiftl (BooleanSetting_to_u8 we) WHITELIST_SETTING_BIT))
                   (Z.shiftl (BooleanSetting_to_u8 de) DAPPS_SETTING_BIT))
            (Z.shiftl 1 WHITELIST_SETTING_BIT)) = (if Z.testbit d 0 then On else we) /\
  BooleanSetting_from_u8
    (Z.land (Z.lor (Z.lor d (Z.shiftl (BooleanSetting_to_u8 we) WHITELIST_SETTING_BIT))
                   (Z.shiftl (BooleanSetting_to_u8 de) DAPPS_SETTING_BIT))
            (Z.shiftl 1 DAPPS_SETTING_BIT)) = (if Z.testbit d 1 then On else de).
Proof.
  unfold BooleanSetting_from_u8. rewrite !land_bit_eqb0 by (unfold WHITELIST_SETTING_BIT,
    DAPPS_SETTING_BIT; lia).
  rewrite !Z.lor_spec. unfold WHITELIST_SETTING_BIT, DAPPS_SETTING_BIT.
  destruct (Z.testbit d 0), (Z.testbit d 1), we, de; split; reflexivity.
Qed.

(** [BalanceAccount::pack_into_slice] and [unpack_from_slice] on a buffer
    of any length: a buffer shorter than [LEN] is refused by both; packing
    into a longer one keeps its length and the bytes past [LEN], and
    unpacking reads only the first [LEN] bytes. *)
Theorem BalanceAccount_slice_lengths : forall (b : BalanceAccount) (buf : list byte),
  ((length buf < BalanceAccount_LEN)%nat ->
   BalanceAccount_pack_into_slice b buf = None /\ BalanceAccount_unpack_from_slice buf = None) /\
  ((BalanceAccount_LEN <= length buf)%nat ->
   BalanceAccount_unpack_from_slice buf
     = BalanceAccount_unpack_from_slice (firstn BalanceAccount_LEN buf) /\
   (wf_BalanceAccount b = true ->
    exists out, BalanceAccount_pack_into_slice b buf = Some out /\
                length out = length buf /\
                skipn BalanceAccount_LEN out = skipn BalanceAccount_LEN buf)).
Proof.
  intros b buf. unfold BalanceAccount_pack_into_slice, BalanceAccount_unpack_from_slice.
  split.
  - intros L. apply Nat.ltb_lt in L. rewrite L. split; reflexivity.
  - intros L. pose proof L as L'. apply Nat.ltb_ge in L'. rewrite L'.
    rewrite length_firstn, Nat.min_l, Nat.ltb_irrefl, firstn_firstn, Nat.min_id by exact L.
    split; [reflexivity|]. intros Hwf. eexists. split; [reflexivity|].
    rewrite length_app, length_BalanceAccount_pack_chunk, length_skipn by exact Hwf.
    split; [lia|]. apply skipn_app_len, length_BalanceAccount_pack_chunk, Hwf.
Qed.

(** Packing a well-formed account into a buffer and unpacking it gives the
    account back, except that a boolean setting reads as [On] whenever its
    bit was already set in the buffer's settings byte: [pack_into_slice]
    or-s the settings into that byte and never clears a bit. *)
Theorem BalanceAccount_pack_unpack_stale_settings : forall (b : BalanceAccount) (dst : list byte),
  wf_BalanceAccount b = true ->
  (BalanceAccount_LEN <= length dst)%nat ->
  exists out,
    BalanceAccount_pack_into_slice b dst = Some out /\
    BalanceAccount_unpack_from_slice out =
      Some (Ok (mkBalanceAccount (guid_hash b) (name_hash b)
                  (approvals_required_for_transfer b) (approval_timeout_for_transfer b)
                  (transfer_approvers b) (allowed_destinations b)
                  (if Z.testbit (nth 92 dst 0) 0 then On else whitelist_enabled b)
                  (if Z.testbit (nth 92 dst 0) 1 then On else dapps_enabled b)
                  (policy_update_locked b))).
Proof.
  intros b dst Hwf L.
  unfold BalanceAccount_pack_into_slice. rewrite (proj2 (Nat.ltb_ge _ _) L).
  eexists. split; [reflexivity|].
  unfold BalanceAccount_unpack_from_slice.
  rewrite length_app, length_BalanceAccount_pack_chunk by exact Hwf.
  rewrite (proj2 (Nat.ltb_ge _ _)) by lia.
  rewrite firstn_app_len by (apply length_BalanceAccount_pack_chunk, Hwf).
  assert (N92 : nth 92 (firstn BalanceAccount_LEN dst) 0 = nth 92 dst 0)
    by (apply nth_firstn_lt; unfold BalanceAccount_LEN; simpl; lia).
  rewrite BalanceAccount_pack_chunk_eq, N92.
  destruct b as [g n a t ap ds we de lk]. unfold wf_BalanceAccount in Hwf.
  cbn [guid_hash name_hash approvals_required_for_transfer approval_timeout_for_transfer
       transfer_approvers allowed_destinations whitelist_enabled dapps_enabled
       policy_update_locked] in *.
  bool_facts.
  rewrite BalanceAccount_unpack_chunk_app by piece_lengths.
  destruct (settings_read_back (nth 92 dst 0) we de) as [-> ->].
  unfold u64_to_le_bytes. rewrite from_to_le_bytes by (rewrite pow_256_8; lia).
  destruct lk; reflexivity.
Qed.

Lemma BalanceAccount_pack_unpack_stale_settings_witness :
  let dst := zero_bytes 92 ++ [1; 0; 7] in
  wf_BalanceAccount sample_balance_account = true /\
  (BalanceAccount_LEN <= length dst)%nat /\
  exists out,
    BalanceAccount_pack_into_slice sample_balance_account dst = Some out /\
    BalanceAccount_unpack_from_slice out =
      Some (Ok (mkBalanceAccount (guid_hash sample_balance_account)
                  (name_hash sample_balance_account)
                  (approvals_required_for_transfer sample_balance_account)
                  (approval_timeout_for_transfer sample_balance_account)
                  (transfer_approvers sample_balance_account)
                  (allowed_destinations sample_balance_account)
                  (if Z.testbit (nth 92 dst 0) 0 then On
                   else whitelist_enabled sample_balance_account)
                  (if Z.testbit (nth 92 dst 0) 1 then On
                   else dapps_enabled sample_balance_account)
                  (policy_update_locked sample_balance_account))).
Proof.
  intros dst.
  assert (Hw : wf_BalanceAccount sample_balance_account = true) by (vm_compute; reflexivity).
  assert (L : (BalanceAccount_LEN <= length dst)%nat) by (vm_compute; lia).
  split; [exact Hw|]. split; [exact L|].
  exact (BalanceAccount_pack_unpack_stale_settings sample_balance_account dst Hw L).
Defined.

(** ** Decoding the wallet account *)

Lemma bool_of_byte_Ok b x : bool_of_byte b = Ok x -> (b = 0 \/ b = 1) /\ x = (b =? 1).
Proof.
  unfold bool_of_byte. destruct (b =? 0) eqn:B0.
  - apply Z.eqb_eq in B0. subst b. intros H. inversion H. auto.
  - destruct (b =? 1) eqn:B1; [|discriminate].
    apply Z.eqb_eq in B1. subst b. intros H. inversion H. auto.
Qed.

Lemma length_decoded_accounts x (l : list byte) :
  length (map BalanceAccount_unpack_chunk
            (firstn (Z.to_nat x) (chunks_exact BalanceAccount_LEN MAX_BALANCE_ACCOUNTS l)))
  = Nat.min (Z.to_nat x) MAX_BALANCE_ACCOUNTS.
Proof. rewrite length_map, length_firstn, length_chunks_exact. reflexivity. Qed.

(** [Wallet::unpack_from_slice] on its [LEN] bytes: an [is_initialized]
    byte other than 0 and 1 is refused with [InvalidAccountData]; a decoded
    wallet had both flag bytes 0 or 1 and reads each as [byte = 1]; and it
    has [min(count, MAX_BALANCE_ACCOUNTS)] balance accounts, [count] being
    the balance-account count byte, so a count above the maximum is cut
    down rather than refused. *)
Theorem Wallet_unpack_chunk_flags_and_count :
  forall (sc : Codec (Slots Signer)) (ac : Codec Signer)
         (abc : Codec (Slots AddressBookEntry)) (src : list byte),
  let count_at := (1 + codec_len sc + codec_len ac + codec_len abc + 1 + 8
                   + APPROVERS_STORAGE_SIZE)%nat in
  let locked_at := (count_at + 1 + BALANCE_ACCOUNTS_REGION)%nat in
  (nth 0 src 0 <> 0 -> nth 0 src 0 <> 1 ->
   Wallet_unpack_chunk sc ac abc src = Err InvalidAccountData) /\
  (forall w, Wallet_unpack_chunk sc ac abc src = Ok w ->
   (nth 0 src 0 = 0 \/ nth 0 src 0 = 1) /\ is_initialized w = (nth 0 src 0 =? 1) /\
   (nth locked_at src 0 = 0 \/ nth locked_at src 0 = 1) /\
   config_policy_update_locked w = (nth locked_at src 0 =? 1) /\
   length (balance_accounts w) = Nat.min (Z.to_nat (nth count_at src 0)) MAX_BALANCE_ACCOUNTS).
Proof.
  intros sc ac abc src count_at locked_at.
  unfold Wallet_unpack_chunk, split_at. cbv beta iota zeta.
  rewrite !skipn_skipn, !hd_firstn1, !hd_skipn.
  replace (hd 0 src) with (nth 0 src 0) by (destruct src; reflexivity).
  split.
  - intros H0 H1. unfold bool_of_byte at 1.
    rewrite (proj2 (Z.eqb_neq _ _) H0), (proj2 (Z.eqb_neq _ _) H1). reflexivity.
  - intros w H.
    destruct (bool_of_byte (nth 0 src 0)) as [i|] eqn:B0; [|discriminate].
    destruct (codec_unpack sc _); [|discriminate].
    destruct (codec_unpack ac _); [|discriminate].
    destruct (codec_unpack abc _); [|discriminate].
    match type of H with context [bool_of_byte ?x] =>
      destruct (bool_of_byte x) as [l|] eqn:BL; [|discriminate] end.
    injection H as <-. cbn [is_initialized config_policy_update_locked balance_accounts].
    apply bool_of_byte_Ok in B0 as [R0 ->]. apply bool_of_byte_Ok in BL as [RL ->].
    assert (IL : (BALANCE_ACCOUNTS_REGION + 1 + APPROVERS_STORAGE_SIZE + 8 + 1 + codec_len abc
                  + (codec_len ac + (codec_len sc + 1)))%nat = locked_at)
      by (unfold locked_at, count_at; lia).
    assert (IC : (APPROVERS_STORAGE_SIZE + (8 + (1 + (codec_len abc
                  + (codec_len ac + (codec_len sc + 1))))))%nat = count_at)
      by (unfold count_at; lia).
    rewrite IL in RL |- *.
    split; [exact R0|]. split; [reflexivity|]. split; [exact RL|]. split; [reflexivity|].
    etransitivity; [apply length_decoded_accounts|].
    do 3 f_equal. rewrite <- IC. unfold APPROVERS_STORAGE_SIZE. lia.
Qed.

(** ** Adding a balance account *)

Lemma update_balance_account_guids g u w :
  map guid_hash (balance_accounts (snd (update_balance_account g u w)))
  = map guid_hash (balance_accounts w).
Proof.
  rewrite update_balance_account_stages.
  destruct (position_guid _ _) as [idx|]; [|reflexivity].
  destruct (if 0 <? _ then _ else _); [|reflexivity].
  destruct (transfer_steps idx u w) as [r1 w1] eqn:E1.
  pose proof (keeps_step _ _ _ _ _ (transfer_steps_keeps accounts_meta idx u
                (fun w f Hf => accounts_meta_mod idx w f Hf)) E1) as M1.
  assert (G1 : map guid_hash (balance_accounts w1) = map guid_hash (balance_accounts w)).
  { unfold accounts_meta in M1. injection M1 as _ Hmap.
    apply (f_equal (map (fun q => fst (fst (fst q))))) in Hmap. rewrite !map_map in Hmap.
    exact Hmap. }
  destruct r1 as [[]|e]; [|exact G1].
  destruct (account_field_writes idx u w1) as [r2 w2] eqn:E2.
  assert (G2 : map guid_hash (balance_accounts w2) = map guid_hash (balance_accounts w1)).
  { unfold account_field_writes, modify_balance_account, modify in E2. inversion E2; subst.
    cbn [balance_accounts set_balance_accounts]. apply map_update_nth.
    intros ba. destruct (0 <? _); reflexivity. }
  destruct r2 as [[]|e]; [|cbn [snd]; congruence].
  destruct (account_threshold_checks idx u w2) as [r3 w3] eqn:E3.
  apply account_threshold_checks_state in E3. subst w3. cbn [snd]. congruence.
Qed.

(** Whatever its outcome, [add_balance_account] leaves the wallet with one
    more balance account, carrying the given guid hash, at the end of the
    list, and the guid hashes of the existing accounts unchanged: a failed
    call does not take the pushed account back. *)
Theorem add_balance_account_appends_guid :
  forall (g : list byte) (u : BalanceAccountUpdate) (w : Wallet),
  map guid_hash (balance_accounts (snd (add_balance_account g u w)))
  = map guid_hash (balance_accounts w) ++ [g].
Proof.
  intros g u w. unfold add_balance_account, bind, modify. cbv beta iota.
  rewrite update_balance_account_guids. cbn [balance_accounts set_balance_accounts].
  rewrite map_app. reflexivity.
Qed.

Lemma map_Some_inj {A} (l l' : list A) : map Some l = map Some l' -> l = l'.
Proof.
  revert l'. induction l as [|a t IH]; intros [|b t'] H; simpl in H; try discriminate; auto.
  injection H as -> H. f_equal. exact (IH _ H).
Qed.

Lemma replace_nth_last_eq {A} (l l1 : list A) (x y : A) :
  replace_nth (map Some l) (length l1) None = replace_nth (map Some (l1 ++ [x])) (length l1) None ->
  nth_error l (length l1) = Some y ->
  l = l1 ++ [y].
Proof.
  intros Hr Hn.
  assert (Hlen : length l = S (length l1)).
  { apply (f_equal (@length _)) in Hr. rewrite !length_replace_nth, !length_map, length_app in Hr.
    simpl in Hr. lia. }
  assert (Hf : firstn (length l1) l = l1).
  { apply (f_equal (firstn (length l1))) in Hr.
    rewrite !firstn_replace_nth_low in Hr by lia.
    rewrite !firstn_map, firstn_app, Nat.sub_diag, firstn_all in Hr. simpl in Hr.
    rewrite app_nil_r in Hr.
    exact (map_Some_inj _ _ Hr). }
  rewrite <- (firstn_skipn (length l1) l), Hf. f_equal.
  destruct (skipn (length l1) l) as [|z t] eqn:Hs.
  - apply (f_equal (@length _)) in Hs. rewrite length_skipn in Hs. simpl in Hs. lia.
  - assert (Ht : t = []).
    { apply (f_equal (@length _)) in Hs. rewrite length_skipn in Hs. simpl in Hs.
      destruct t; [reflexivity | simpl in Hs; lia]. }
    subst t. f_equal.
    rewrite <- (firstn_skipn (length l1) l), Hf, Hs in Hn.
    rewrite nth_error_app2, Nat.sub_diag in Hn by lia. simpl in Hn. congruence.
Qed.

(** A successful [add_balance_account] under a guid hash that no account
    has yet appends exactly one account: it carries the guid hash, the
    requested name hash and threshold, the requested timeout when it is
    positive and 0 otherwise, and its threshold lies between 1 and its
    number of enabled transfer approvers; the existing accounts are kept as
    they were. *)
Theorem add_balance_account_fresh_success :
  forall (g : list byte) (u : BalanceAccountUpdate) (w w' : Wallet),
  Forall (fun b => guid_hash b <> g) (balance_accounts w) ->
  add_balance_account g u w = (Ok tt, w') ->
  exists ba',
    balance_accounts w' = balance_accounts w ++ [ba'] /\
    guid_hash ba' = g /\
    name_hash ba' = bau_name_hash u /\
    approvals_required_for_transfer ba' = bau_approvals_required_for_transfer u /\
    approval_timeout_for_transfer ba' =
      (if 0 <? bau_approval_timeout_for_transfer u then bau_approval_timeout_for_transfer u
       else 0) /\
    (0 <= bau_approvals_required_for_transfer u ->
     1 <= approvals_required_for_transfer ba' <= Z.of_nat (count_enabled (transfer_approvers ba'))).
Proof.
  intros g u w w' Hfresh H.
  unfold add_balance_account, bind, modify in H. cbv beta iota in H.
  set (w1 := set_balance_accounts (balance_accounts w ++ [new_balance_account g]) w) in H.
  assert (Hpos : position_guid (balance_accounts w1) g = Some (length (balance_accounts w))).
  { apply position_guid_app; [exact Hfresh | reflexivity]. }
  assert (Hba : nth_error (balance_accounts w1) (length (balance_accounts w))
                = Some (new_balance_account g)).
  { cbn [w1 balance_accounts set_balance_accounts]. rewrite nth_error_app2, Nat.sub_diag by lia.
    reflexivity. }
  destruct (update_balance_account_success g u w1 w' _ _ Hpos Hba H)
    as (ba' & Hn & G & N & A & T & R).
  pose proof (update_balance_account_keeps_at (other_accounts (length (balance_accounts w)))
                (length (balance_accounts w)) g u w1 _ w' Hpos (other_accounts_mod _) H) as K.
  apply (f_equal snd) in K. unfold other_accounts in K. cbn [snd] in K.
  exists ba'. split; [|split; [exact G|split; [exact N|split; [exact A|split; [exact T|exact R]]]]].
  exact (replace_nth_last_eq _ _ _ _ K Hn).
Qed.

Lemma add_balance_account_fresh_success_witness :
  let u := mkBalanceAccountUpdate (gh 8) 1 7200 [(0%nat, sg 1)] [] [] [] in
  let w' := snd (add_balance_account (gh 5) u sample_wallet_with_account) in
  Forall (fun b => guid_hash b <> gh 5) (balance_accounts sample_wallet_with_account) /\
  add_balance_account (gh 5) u sample_wallet_with_account = (Ok tt, w') /\
  exists ba',
    balance_accounts w' = balance_accounts sample_wallet_with_account ++ [ba'] /\
    guid_hash ba' = gh 5 /\
    name_hash ba' = bau_name_hash u /\
    approvals_required_for_transfer ba' = bau_approvals_required_for_transfer u /\
    approval_timeout_for_transfer ba' =
      (if 0 <? bau_approval_timeout_for_transfer u then bau_approval_timeout_for_transfer u
       else 0) /\
    (0 <= bau_approvals_required_for_transfer u ->
     1 <= approvals_required_for_transfer ba' <= Z.of_nat (count_enabled (transfer_approvers ba'))).
Proof.
  intros u w'.
  assert (F : Forall (fun b => guid_hash b <> gh 5) (balance_accounts sample_wallet_with_account)).
  { constructor; [vm_compute; discriminate | constructor]. }
  assert (H : add_balance_account (gh 5) u sample_wallet_with_account = (Ok tt, w'))
    by (vm_compute; reflexivity).
  split; [exact F|]. split; [exact H|].
  exact (add_balance_account_fresh_success (gh 5) u sample_wallet_with_account w' F H).
Defined.

(** ** The allowed destinations of a balance account *)

Lemma length_filter_map_le {A B} (f : A -> option B) l : (length (filter_map f l) <= length l)%nat.
Proof. induction l as [|a t IH]; simpl; [lia|]. destruct (f a); simpl; lia. Qed.

Lemma In_iter_enabled f id :
  In id (iter_enabled f) <-> (id < flag_capacity f)%nat /\ is_enabled f id = true.
Proof.
  unfold iter_enabled. rewrite filter_In, in_seq. split; intros [H1 H2]; split; auto; lia.
Qed.

(** [get_allowed_destinations] lists an address-book entry exactly when some
    slot id within the flag set's capacity is enabled as an allowed
    destination of the account and holds that entry in the address book;
    enabled slots that are empty are skipped, so the list is never longer
    than the number of enabled destinations. *)
Theorem get_allowed_destinations_spec : forall (w : Wallet) (ba : BalanceAccount),
  (forall e, In e (get_allowed_destinations w ba) <->
     exists id, (id < flag_capacity (allowed_destinations ba))%nat /\
                is_enabled (allowed_destinations ba) id = true /\
                slot_get (address_book w) id = Some e) /\
  (length (get_allowed_destinations w ba) <= count_enabled (allowed_destinations ba))%nat.
Proof.
  intros w ba. split.
  - intros e. unfold get_allowed_destinations. rewrite In_filter_map.
    split.
    + intros (id & Hin & Hs). apply In_iter_enabled in Hin as [Hc He]. exists id. auto.
    + intros (id & Hc & He & Hs). exists id. split; [apply In_iter_enabled; auto | exact Hs].
  - apply length_filter_map_le.
Qed.

(** ** The approver and destination flags of [update_balance_account] *)

Lemma update_nth_update_nth_same {A} (l : list A) i f g :
  update_nth (update_nth l i f) i g = update_nth l i (fun x => g (f x)).
Proof. revert i. induction l as [|a t IH]; intros [|i]; simpl; auto. rewrite IH. reflexivity. Qed.

Lemma update_nth_ext {A} (l : list A) i (f g : A -> A) :
  (forall x, f x = g x) -> update_nth l i f = update_nth l i g.
Proof.
  intros E. revert i. induction l as [|a t IH]; intros [|i]; simpl; auto.
  - rewrite E. reflexivity.
  - rewrite IH. reflexivity.
Qed.

Lemma update_nth_id {A} (l : list A) i (f : A -> A) :
  (forall x, f x = x) -> update_nth l i f = l.
Proof.
  intros E. revert i. induction l as [|a t IH]; intros [|i]; simpl; auto.
  - rewrite E. reflexivity.
  - rewrite IH. reflexivity.
Qed.

Lemma set_balance_accounts_same w : set_balance_accounts (balance_accounts w) w = w.
Proof. destruct w; reflexivity. Qed.

Lemma set_balance_accounts_twice v v' w :
  set_balance_accounts v (set_balance_accounts v' w) = set_balance_accounts v w.
Proof. reflexivity. Qed.

Definition disable_many (f : SlotFlags) (ids : list SlotId) : SlotFlags :=
  fold_left disable ids f.

Lemma disable_transfer_approvers_ok idx l w w' :
  disable_transfer_approvers idx l w = (Ok tt, w') ->
  w' = set_balance_accounts (update_nth (balance_accounts w) idx (fun ba =>
         set_transfer_approvers (disable_many (transfer_approvers ba) (slot_ids l)) ba)) w.
Proof.
  revert w. induction l as [|[id s] rest IH]; intros w H; simpl in H.
  - inversion H; subst w'. rewrite update_nth_id by (intros []; reflexivity).
    symmetry. apply set_balance_accounts_same.
  - unfold bind at 1, get in H.
    destruct (slot_matches_or_empty _ _ _); [|discriminate].
    unfold bind, modify_balance_account, modify in H.
    rewrite (IH _ H). cbn [balance_accounts set_balance_accounts].
    rewrite set_balance_accounts_twice, update_nth_update_nth_same. reflexivity.
Qed.

Lemma disable_transfer_destinations_ok idx l w w' :
  disable_transfer_destinations idx l w = (Ok tt, w') ->
  w' = set_balance_accounts (update_nth (balance_accounts w) idx (fun ba =>
         set_allowed_destinations (disable_many (allowed_destinations ba) (slot_ids l)) ba)) w.
Proof.
  revert w. induction l as [|[id s] rest IH]; intros w H; simpl in H.
  - inversion H; subst w'. rewrite update_nth_id by (intros []; reflexivity).
    symmetry. apply set_balance_accounts_same.
  - unfold bind at 1, get in H.
    destruct (slot_matches_or_empty _ _ _); [|discriminate].
    unfold bind, modify_balance_account, modify in H.
    rewrite (IH _ H). cbn [balance_accounts set_balance_accounts].
    rewrite set_balance_accounts_twice, update_nth_update_nth_same. reflexivity.
Qed.

Lemma enable_transfer_approvers_ok idx l w w' :
  enable_transfer_approvers idx l w = (Ok tt, w') ->
  contains (signers w) l = true /\
  w' = set_balance_accounts (update_nth (balance_accounts w) idx (fun ba =>
         set_transfer_approvers (enable_many (transfer_approvers ba) (slot_ids l)) ba)) w.
Proof.
  unfold enable_transfer_approvers, bind, get, modify_balance_account, modify.
  destruct (contains _ _); simpl; [|discriminate]. intros H. inversion H. split; reflexivity.
Qed.

Lemma enable_transfer_destinations_ok idx l w w' :
  enable_transfer_destinations idx l w = (Ok tt, w') ->
  contains (address_book w) l = true /\
  w' = set_balance_accounts (update_nth (balance_accounts w) idx (fun ba =>
         set_allowed_destinations (enable_many (allowed_destinations ba) (slot_ids l)) ba)) w.
Proof.
  unfold enable_transfer_destinations, bind, get, modify_balance_account, modify.
  destruct (contains _ _); simpl; [|discriminate]. intros H. inversion H. split; reflexivity.
Qed.

(** The new flags of the account at [idx] after the four approver and
    destination steps. *)
Definition transfer_flags (u : BalanceAccountUpdate) (ba : BalanceAccount) : BalanceAccount :=
  set_allowed_destinations
    (enable_many (disable_many (allowed_destinations ba) (slot_ids (bau_remove_allowed_destinations u)))
       (slot_ids (bau_add_allowed_destinations u)))
    (set_transfer_approvers
       (enable_many (disable_many (transfer_approvers ba) (slot_ids (bau_remove_transfer_approvers u)))
          (slot_ids (bau_add_transfer_approvers u))) ba).

Lemma transfer_steps_ok idx u w w1 :
  transfer_steps idx u w = (Ok tt, w1) ->
  contains (signers w) (bau_add_transfer_approvers u) = true /\
  contains (address_book w) (bau_add_allowed_destinations u) = true /\
  w1 = set_balance_accounts (update_nth (balance_accounts w) idx (transfer_flags u)) w.
Proof.
  unfold transfer_steps. intros H.
  apply bind_ok_inv in H as ([] & wa & Ea & H). apply disable_transfer_approvers_ok in Ea.
  apply bind_ok_inv in H as ([] & wb & Eb & H). apply enable_transfer_approvers_ok in Eb as [Cb Eb].
  apply bind_ok_inv in H as ([] & wc & Ec & H). apply disable_transfer_destinations_ok in Ec.
  apply enable_transfer_destinations_ok in H as [Cd Ed].
  subst. cbn [balance_accounts signers address_book set_balance_accounts] in *.
  split; [exact Cb|]. split; [exact Cd|].
  rewrite !set_balance_accounts_twice, !update_nth_update_nth_same. reflexivity.
Qed.

Lemma length_disable_many f ids : length (disable_many f ids) = length f.
Proof.
  unfold disable_many. revert f. induction ids as [|i t IH]; intros f; simpl; [reflexivity|].
  rewrite IH. apply length_disable.
Qed.

Lemma is_enabled_disable_many_other f ids id :
  ~ In id ids -> is_enabled (disable_many f ids) id = is_enabled f id.
Proof.
  unfold disable_many. revert f. induction ids as [|i t IH]; intros f Hn; simpl; [reflexivity|].
  rewrite IH by (intros Hc; apply Hn; right; exact Hc).
  apply is_enabled_disable_other. intros ->. apply Hn. left. reflexivity.
Qed.

Lemma is_enabled_disable_many_in f ids id :
  In id ids -> is_enabled (disable_many f ids) id = false.
Proof.
  unfold disable_many.
  assert (K : forall ids g, is_enabled g id = false -> is_enabled (fold_left disable ids g) id = false).
  { clear. induction ids as [|i t IH]; intros g Hg; simpl; [exact Hg|]. apply IH.
    destruct (Nat.eq_dec i id) as [->|Hne]; [apply is_enabled_disable_same|].
    rewrite is_enabled_disable_other by exact Hne. exact Hg. }
  revert f. induction ids as [|i t IH]; intros f Hin; [destruct Hin|]. simpl.
  destruct Hin as [->|Hin]; [apply K, is_enabled_disable_same | apply IH, Hin].
Qed.

(** The flag of slot [id] after a batch of disables and then a batch of
    enables, when the enabled slots lie within the flag set's capacity. *)
Lemma is_enabled_disable_enable f rm add id :
  (forall i, In i add -> (i / 8 < length f)%nat) ->
  is_enabled (enable_many (disable_many f rm) add) id =
  if in_dec Nat.eq_dec id add then true
  else if in_dec Nat.eq_dec id rm then false
  else is_enabled f id.
Proof.
  intros Hcap. destruct (in_dec Nat.eq_dec id add) as [Ha|Ha].
  - apply is_enabled_enable_many_in; [exact Ha|]. rewrite length_disable_many. exact (Hcap id Ha).
  - rewrite is_enabled_enable_many_other by exact Ha.
    destruct (in_dec Nat.eq_dec id rm) as [Hr|Hr].
    + apply is_enabled_disable_many_in, Hr.
    + apply is_enabled_disable_many_other, Hr.
Qed.

Lemma contains_capacity {T} `{DecEq T} (s : Slots T) batch f :
  (length s <= flag_capacity f)%nat -> contains s batch = true ->
  forall i, In i (slot_ids batch) -> (i / 8 < length f)%nat.
Proof.
  unfold flag_capacity. intros Hl Hc i Hi. apply in_map_iff in Hi as ([i' v] & <- & Hin).
  pose proof (slot_get_Some_lt _ _ _ (contains_In _ _ _ _ Hc Hin)) as Hlt. cbn [fst].
  pose proof (Nat.div_mod_eq i' 8). lia.
Qed.

(** After a successful [update_balance_account] on the account at [idx],
    when the account's flag sets cover the signer and address-book slots:
    a slot is an enabled transfer approver (allowed destination) exactly
    when it was added, or when it was neither added nor removed and was
    enabled before; and every added approver (destination) slot holds the
    given signer (address-book entry). *)
Theorem update_balance_account_flags :
  forall (g : list byte) (u : BalanceAccountUpdate) (w w' : Wallet) (idx : nat)
         (ba : BalanceAccount),
  position_guid (balance_accounts w) g = Some idx ->
  nth_error (balance_accounts w) idx = Some ba ->
  (length (signers w) <= flag_capacity (transfer_approvers ba))%nat ->
  (length (address_book w) <= flag_capacity (allowed_destinations ba))%nat ->
  update_balance_account g u w = (Ok tt, w') ->
  exists ba', nth_error (balance_accounts w') idx = Some ba' /\
    (forall id, is_enabled (transfer_approvers ba') id =
       if in_dec Nat.eq_dec id (slot_ids (bau_add_transfer_approvers u)) then true
       else if in_dec Nat.eq_dec id (slot_ids (bau_remove_transfer_approvers u)) then false
       else is_enabled (transfer_approvers ba) id) /\
    (forall id, is_enabled (allowed_destinations ba') id =
       if in_dec Nat.eq_dec id (slot_ids (bau_add_allowed_destinations u)) then true
       else if in_dec Nat.eq_dec id (slot_ids (bau_remove_allowed_destinations u)) then false
       else is_enabled (allowed_destinations ba) id) /\
    (forall id s, In (id, s) (bau_add_transfer_approvers u) -> slot_get (signers w') id = Some s) /\
    (forall id e, In (id, e) (bau_add_allowed_destinations u) ->
                  slot_get (address_book w') id = Some e).
Proof.
  intros g u w w' idx ba Hpos Hba Hct Hcd H.
  rewrite update_balance_account_stages, Hpos in H.
  destruct (if 0 <? _ then _ else _) as [_|e]; [|discriminate].
  destruct (transfer_steps idx u w) as [[[]|e] w1] eqn:E1; [|discriminate].
  apply transfer_steps_ok in E1 as (Ct & Cd & ->).
  unfold account_field_writes, modify_balance_account, modify in H. simpl in H.
  apply account_threshold_checks_state in H. subst w'.
  cbn [balance_accounts signers address_book set_balance_accounts].
  rewrite update_nth_update_nth_same, nth_error_update_nth_same, Hba.
  eexists. split; [reflexivity|].
  split; [|split; [|split]].
  - intros id. cbv beta. destruct (0 <? _); cbn [transfer_approvers set_approval_timeout_for_transfer
      set_approvals_required_for_transfer set_name_hash transfer_flags set_allowed_destinations
      set_transfer_approvers];
      apply is_enabled_disable_enable; exact (contains_capacity _ _ _ Hct Ct).
  - intros id. cbv beta. destruct (0 <? _); cbn [allowed_destinations set_approval_timeout_for_transfer
      set_approvals_required_for_transfer set_name_hash transfer_flags set_allowed_destinations
      set_transfer_approvers];
      apply is_enabled_disable_enable; exact (contains_capacity _ _ _ Hcd Cd).
  - intros id s Hin. exact (contains_In _ _ _ _ Ct Hin).
  - intros id e Hin. exact (contains_In _ _ _ _ Cd Hin).
Qed.

Lemma update_balance_account_flags_witness :
  let u := mkBalanceAccountUpdate (gh 8) 1 0 [(0%nat, sg 1)] [(1%nat, sg 2)] [] [] in
  let w' := snd (update_balance_account (gh 7) u sample_wallet_with_account) in
  position_guid (balance_accounts sample_wallet_with_account) (gh 7) = Some 0%nat /\
  nth_error (balance_accounts sample_wallet_with_account) 0 = Some sample_balance_account /\
  (length (signers sample_wallet_with_account)
     <= flag_capacity (transfer_approvers sample_balance_account))%nat /\
  (length (address_book sample_wallet_with_account)
     <= flag_capacity (allowed_destinations sample_balance_account))%nat /\
  update_balance_account (gh 7) u sample_wallet_with_account = (Ok tt, w') /\
  exists ba', nth_error (balance_accounts w') 0 = Some ba' /\
    (forall id, is_enabled (transfer_approvers ba') id =
       if in_dec Nat.eq_dec id (slot_ids (bau_add_transfer_approvers u)) then true
       else if in_dec Nat.eq_dec id (slot_ids (bau_remove_transfer_approvers u)) then false
       else is_enabled (transfer_approvers sample_balance_account) id) /\
    (forall id, is_enabled (allowed_destinations ba') id =
       if in_dec Nat.eq_dec id (slot_ids (bau_add_allowed_destinations u)) then true
       else if in_dec Nat.eq_dec id (slot_ids (bau_remove_allowed_destinations u)) then false
       else is_enabled (allowed_destinations sample_balance_account) id) /\
    (forall id s, In (id, s) (bau_add_transfer_approvers u) -> slot_get (signers w') id = Some s) /\
    (forall id e, In (id, e) (bau_add_allowed_destinations u) ->
                  slot_get (address_book w') id = Some e).
Proof.
  intros u w'.
  assert (P : position_guid (balance_accounts sample_wallet_with_account) (gh 7) = Some 0%nat)
    by (vm_compute; reflexivity).
  assert (B : nth_error (balance_accounts sample_wallet_with_account) 0 = Some sample_balance_account)
    by reflexivity.
  assert (C1 : (length (signers sample_wallet_with_account)
                <= flag_capacity (transfer_approvers sample_balance_account))%nat)
    by (vm_compute; lia).
  assert (C2 : (length (address_book sample_wallet_with_account)
                <= flag_capacity (allowed_destinations sample_balance_account))%nat)
    by (vm_compute; lia).
  assert (H : update_balance_account (gh 7) u sample_wallet_with_account = (Ok tt, w'))
    by (vm_compute; reflexivity).
  do 5 (split; [assumption|]).
  exact (update_balance_account_flags (gh 7) u sample_wallet_with_account w' 0
           sample_balance_account P B C1 C2 H).
Defined.

(** ** The slots and flags written by [update] *)

Lemma slot_get_replace_nth_same {T} (s : Slots T) n x :
  (n < length s)%nat -> slot_get (replace_nth s n x) n = x.
Proof.
  unfold slot_get. revert n. induction s as [|a t IH]; intros [|n] Hn; simpl in *; try lia.
  - reflexivity.
  - apply IH. lia.
Qed.

Lemma slot_get_replace_nth_other {T} (s : Slots T) n x i :
  i <> n -> slot_get (replace_nth s n x) i = slot_get s i.
Proof.
  unfold slot_get. revert n i. induction s as [|a t IH]; intros [|n] [|i] Hi; simpl;
    try reflexivity; try lia.
  apply IH. lia.
Qed.

Lemma insert_many_cons {T} (s : Slots T) i v t :
  insert_many s ((i, v) :: t) = insert_many (replace_nth s i (Some v)) t.
Proof. reflexivity. Qed.

Lemma remove_many_cons {T} (s : Slots T) i v t :
  remove_many s ((i, v) :: t) = remove_many (replace_nth s i None) t.
Proof. reflexivity. Qed.

Lemma length_insert_many {T} (s : Slots T) batch : length (insert_many s batch) = length s.
Proof.
  revert s. induction batch as [|[i v] t IH]; intros s; [reflexivity|].
  rewrite insert_many_cons, IH. apply length_replace_nth.
Qed.

Lemma length_remove_many {T} (s : Slots T) (batch : list (SlotId * T)) :
  length (remove_many s batch) = length s.
Proof.
  revert s. induction batch as [|[i v] t IH]; intros s; [reflexivity|].
  rewrite remove_many_cons, IH. apply length_replace_nth.
Qed.

Lemma slot_get_insert_many_other {T} (s : Slots T) batch id :
  ~ In id (slot_ids batch) -> slot_get (insert_many s batch) id = slot_get s id.
Proof.
  revert s. induction batch as [|[i v] t IH]; intros s Hn; [reflexivity|].
  rewrite insert_many_cons, IH by (intros Hc; apply Hn; right; exact Hc).
  apply slot_get_replace_nth_other. intros ->. apply Hn. left. reflexivity.
Qed.

Lemma slot_get_insert_many_in {T} (s : Slots T) batch id :
  In id (slot_ids batch) -> (id < length s)%nat ->
  exists v, In (id, v) batch /\ slot_get (insert_many s batch) id = Some v.
Proof.
  revert s. induction batch as [|[i v] t IH]; intros s Hin Hl; [destruct Hin|].
  rewrite insert_many_cons.
  destruct (in_dec Nat.eq_dec id (slot_ids t)) as [Ht|Ht].
  - destruct (IH (replace_nth s i (Some v)) Ht) as (v' & Hv & E);
      [rewrite length_replace_nth; exact Hl|].
    exists v'. split; [right; exact Hv | exact E].
  - destruct Hin as [Heq|Hin]; [|contradiction]. cbn [fst] in Heq. subst i.
    exists v. split; [left; reflexivity|].
    rewrite slot_get_insert_many_other by exact Ht. apply slot_get_replace_nth_same, Hl.
Qed.

Lemma slot_get_remove_many_other {T} (s : Slots T) (batch : list (SlotId * T)) id :
  ~ In id (slot_ids batch) -> slot_get (remove_many s batch) id = slot_get s id.
Proof.
  revert s. induction batch as [|[i v] t IH]; intros s Hn; [reflexivity|].
  rewrite remove_many_cons, IH by (intros Hc; apply Hn; right; exact Hc).
  apply slot_get_replace_nth_other. intros ->. apply Hn. left. reflexivity.
Qed.

Lemma slot_get_remove_many_in {T} (s : Slots T) (batch : list (SlotId * T)) id :
  In id (slot_ids batch) -> (id < length s)%nat -> slot_get (remove_many s batch) id = None.
Proof.
  revert s. induction batch as [|[i v] t IH]; intros s Hin Hl; [destruct Hin|].
  rewrite remove_many_cons.
  destruct (in_dec Nat.eq_dec id (slot_ids t)) as [Ht|Ht].
  - apply IH; [exact Ht | rewrite length_replace_nth; exact Hl].
  - destruct Hin as [Heq|Hin]; [|contradiction]. cbn [fst] in Heq. subst i.
    rewrite slot_get_remove_many_other by exact Ht. apply slot_get_replace_nth_same, Hl.
Qed.

Lemma can_be_removed_lt {T} `{DecEq T} (s : Slots T) batch id :
  can_be_removed s batch = true -> In id (slot_ids batch) -> (id < length s)%nat.
Proof.
  unfold can_be_removed. intros Hc Hi. apply in_map_iff in Hi as ([i v] & <- & Hin).
  rewrite forallb_forall in Hc. apply Hc in Hin. apply eqb_of_true in Hin.
  exact (slot_get_Some_lt _ _ _ Hin).
Qed.

Lemma can_be_inserted_lt {T} (s : Slots T) batch id :
  can_be_inserted s batch = true -> In id (slot_ids batch) -> (id < length s)%nat.
Proof.
  unfold can_be_inserted. intros Hc Hi. apply in_map_iff in Hi as ([i v] & <- & Hin).
  rewrite forallb_forall in Hc. apply Hc in Hin. unfold slot_is_empty in Hin.
  apply andb_true_iff in Hin as [Hin _]. apply Nat.ltb_lt, Hin.
Qed.

Lemma remove_signers_ok l w w' :
  remove_signers l w = (Ok tt, w') ->
  can_be_removed (signers w) l = true /\ w' = set_signers (remove_many (signers w) l) w.
Proof.
  intros H. unfold remove_signers, bind, get in H.
  destruct (can_be_removed (signers w) l) eqn:C; cbn [negb] in H; [|discriminate].
  destruct (any_enabled _ _); [discriminate|].
  destruct (existsb _ _); [discriminate|].
  inversion H. split; reflexivity.
Qed.

Lemma add_signers_ok l w w' :
  add_signers l w = (Ok tt, w') ->
  can_be_inserted (signers w) l = true /\ w' = set_signers (insert_many (signers w) l) w.
Proof.
  intros H. unfold add_signers, bind, get in H.
  destruct (can_be_inserted (signers w) l) eqn:C; cbn [negb] in H; [|discriminate].
  inversion H. split; reflexivity.
Qed.

Lemma remove_address_book_entries_ok l w w' :
  remove_address_book_entries l w = (Ok tt, w') ->
  can_be_removed (address_book w) l = true /\
  w' = set_address_book (remove_many (address_book w) l) w.
Proof.
  intros H. unfold remove_address_book_entries, bind, get in H.
  destruct (can_be_removed (address_book w) l) eqn:C; cbn [negb] in H; [|discriminate].
  destruct (existsb _ _); [discriminate|].
  inversion H. split; reflexivity.
Qed.

Lemma add_address_book_entries_ok l w w' :
  add_address_book_entries l w = (Ok tt, w') ->
  can_be_inserted (address_book w) l = true /\
  w' = set_address_book (insert_many (address_book w) l) w.
Proof.
  intros H. unfold add_address_book_entries, bind, get in H.
  destruct (can_be_inserted (address_book w) l) eqn:C; cbn [negb] in H; [|discriminate].
  inversion H. split; reflexivity.
Qed.

(** A successful [update] in terms of the slot writes of its steps. *)
Lemma update_ok_slots u w w' :
  update u w = (Ok tt, w') ->
  can_be_removed (signers w) (wu_remove_signers u) = true /\
  can_be_inserted (remove_many (signers w) (wu_remove_signers u)) (wu_add_signers u) = true /\
  signers w' = insert_many (remove_many (signers w) (wu_remove_signers u)) (wu_add_signers u) /\
  can_be_removed (address_book w) (wu_remove_address_book_entries u) = true /\
  can_be_inserted (remove_many (address_book w) (wu_remove_address_book_entries u))
    (wu_add_address_book_entries u) = true /\
  address_book w' = insert_many (remove_many (address_book w) (wu_remove_address_book_entries u))
                      (wu_add_address_book_entries u) /\
  balance_accounts w' = balance_accounts w.
Proof.
  intros H. unfold update in H.
  apply bind_ok_inv in H as (? & w1 & E1 & H). inversion E1; subst w1; clear E1.
  apply bind_ok_inv in H as (? & w2 & E2 & H).
  assert (S2 : signers w2 = signers w /\ address_book w2 = address_book w /\
               balance_accounts w2 = balance_accounts w).
  { destruct (0 <? _); inversion E2; repeat split. }
  clear E2. destruct S2 as (S2 & A2 & B2).
  apply bind_ok_inv in H as ([] & w3 & E3 & H).
  destruct (disable_config_approvers_facts _ _ _ E3) as (_ & _ & _ & Eq3).
  assert (S3 : signers w3 = signers w2 /\ address_book w3 = address_book w2 /\
               balance_accounts w3 = balance_accounts w2) by (rewrite Eq3; repeat split).
  destruct S3 as (S3 & A3 & B3).
  apply bind_ok_inv in H as ([] & w4 & E4 & H). apply remove_signers_ok in E4 as [R4 Eq4].
  apply bind_ok_inv in H as ([] & w5 & E5 & H). apply add_signers_ok in E5 as [I5 Eq5].
  apply bind_ok_inv in H as ([] & w6 & E6 & H). apply enable_config_approvers_facts in E6 as [_ Eq6].
  apply bind_ok_inv in H as ([] & w7 & E7 & H).
  apply remove_address_book_entries_ok in E7 as [R7 Eq7].
  apply bind_ok_inv in H as ([] & w8 & E8 & H).
  apply add_address_book_entries_ok in E8 as [I8 Eq8].
  assert (Hw : w' = w8).
  { unfold bind at 1, get in H.
    destruct (_ >? _); [discriminate|].
    cbv [bind lift fail ret] in H.
    destruct (validate_approval_timeout _); [|discriminate].
    destruct (approvals_required_for_config w8 =? 0); [discriminate|].
    destruct (count_enabled (config_approvers w8) =? 0)%nat; [discriminate|].
    inversion H. reflexivity. }
  subst w' w8 w7 w6 w5 w4. clear H.
  cbn [signers address_book balance_accounts set_signers set_address_book
       set_config_approvers] in *.
  rewrite S3, A3, B3, S2, A2, B2 in *.
  repeat split; assumption.
Qed.

(** Removing a batch and then inserting another one, as [update] does for
    both slot stores. *)
Lemma slot_get_remove_insert {T} `{DecEq T} (s : Slots T) (rm add : list (SlotId * T)) :
  can_be_removed s rm = true ->
  can_be_inserted (remove_many s rm) add = true ->
  (forall id, In id (slot_ids add) ->
   exists v, In (id, v) add /\ slot_get (insert_many (remove_many s rm) add) id = Some v) /\
  (forall id, In id (slot_ids rm) -> ~ In id (slot_ids add) ->
   slot_get (insert_many (remove_many s rm) add) id = None) /\
  (forall id, ~ In id (slot_ids rm) -> ~ In id (slot_ids add) ->
   slot_get (insert_many (remove_many s rm) add) id = slot_get s id).
Proof.
  intros Hr Hi. split; [|split].
  - intros id Hin. apply slot_get_insert_many_in; [exact Hin|].
    exact (can_be_inserted_lt _ _ _ Hi Hin).
  - intros id Hin Hn. rewrite slot_get_insert_many_other by exact Hn.
    apply slot_get_remove_many_in; [exact Hin|].
    exact (can_be_removed_lt _ _ _ Hr Hin).
  - intros id Hr' Ha. rewrite slot_get_insert_many_other by exact Ha.
    apply slot_get_remove_many_other, Hr'.
Qed.

(** After a successful [update], every slot of the signers (resp. address
    book) add list holds one of the values given for it; every slot of the
    remove list that is not also added is empty; every other slot is
    unchanged; the balance accounts are not touched. *)
Theorem update_signer_and_address_book_slots : forall (u : WalletUpdate) (w w' : Wallet),
  update u w = (Ok tt, w') ->
  (forall id, In id (slot_ids (wu_add_signers u)) ->
   exists s, In (id, s) (wu_add_signers u) /\ slot_get (signers w') id = Some s) /\
  (forall id, In id (slot_ids (wu_remove_signers u)) -> ~ In id (slot_ids (wu_add_signers u)) ->
   slot_get (signers w') id = None) /\
  (forall id, ~ In id (slot_ids (wu_remove_signers u)) -> ~ In id (slot_ids (wu_add_signers u)) ->
   slot_get (signers w') id = slot_get (signers w) id) /\
  (forall id, In id (slot_ids (wu_add_address_book_entries u)) ->
   exists e, In (id, e) (wu_add_address_book_entries u) /\ slot_get (address_book w') id = Some e) /\
  (forall id, In id (slot_ids (wu_remove_address_book_entries u)) ->
   ~ In id (slot_ids (wu_add_address_book_entries u)) ->
   slot_get (address_book w') id = None) /\
  (forall id, ~ In id (slot_ids (wu_remove_address_book_entries u)) ->
   ~ In id (slot_ids (wu_add_address_book_entries u)) ->
   slot_get (address_book w') id = slot_get (address_book w) id) /\
  balance_accounts w' = balance_accounts w.
Proof.
  intros u w w' H.
  destruct (update_ok_slots _ _ _ H) as (R1 & I1 & E1 & R2 & I2 & E2 & B).
  rewrite E1, E2.
  destruct (slot_get_remove_insert _ _ _ R1 I1) as (S1 & S2 & S3).
  destruct (slot_get_remove_insert _ _ _ R2 I2) as (A1 & A2 & A3).
  repeat split; assumption.
Qed.

Lemma update_signer_and_address_book_slots_witness :
  let u := mkWalletUpdate 1 0 [(2%nat, sg 7)] [] [] [] [(0%nat, mkAddressBookEntry (pk 5) (gh 6))] [] in
  let w' := snd (update u sample_wallet) in
  update u sample_wallet = (Ok tt, w') /\
  ((forall id, In id (slot_ids (wu_add_signers u)) ->
    exists s, In (id, s) (wu_add_signers u) /\ slot_get (signers w') id = Some s) /\
   (forall id, In id (slot_ids (wu_remove_signers u)) -> ~ In id (slot_ids (wu_add_signers u)) ->
    slot_get (signers w') id = None) /\
   (forall id, ~ In id (slot_ids (wu_remove_signers u)) -> ~ In id (slot_ids (wu_add_signers u)) ->
    slot_get (signers w') id = slot_get (signers sample_wallet) id) /\
   (forall id, In id (slot_ids (wu_add_address_book_entries u)) ->
    exists e, In (id, e) (wu_add_address_book_entries u) /\ slot_get (address_book w') id = Some e) /\
   (forall id, In id (slot_ids (wu_remove_address_book_entries u)) ->
    ~ In id (slot_ids (wu_add_address_book_entries u)) ->
    slot_get (address_book w') id = None) /\
   (forall id, ~ In id (slot_ids (wu_remove_address_book_entries u)) ->
    ~ In id (slot_ids (wu_add_address_book_entries u)) ->
    slot_get (address_book w') id = slot_get (address_book sample_wallet) id) /\
   balance_accounts w' = balance_accounts sample_wallet).
Proof.
  intros u w'.
  assert (H : update u sample_wallet = (Ok tt, w')) by (vm_compute; reflexivity).
  split; [exact H|].
  exact (update_signer_and_address_book_slots u sample_wallet w' H).
Defined.
